(** * The GUI of tis-aidga: the server of [gui/server/index.ts] and the
      generation client of [gui/src/App.tsx]

    The development embeds the parts of [gui/server/index.ts] that carry
    logic: [resolveSourcePath], the line classifier in the
    [child.stdout.on('data')] callback, the [/api/generate] handler with
    its callbacks, the command lines of [/api/init] and of the listings,
    and the parsers of the listing and functions endpoints; and, of
    [gui/src/App.tsx], the state the event source drives.  JavaScript
    strings are sequences of UTF-16 code units; the filesystem, the shell
    and the Node event loop are explicit arguments. *)

From Stdlib Require Import List String Ascii NArith ZArith Bool Lia.
Import ListNotations.

Set Implicit Arguments.

(* ===================================================================== *)
(** ** JavaScript strings *)
(* ===================================================================== *)

Module JsString.

(** A string is the list of its UTF-16 code units. *)
Definition t := list N.

(** An ASCII literal of the source. *)
Definition lit (s : string) : t := map N_of_ascii (list_ascii_of_string s).

Definition LF : N := 10%N.
Definition DQUOTE : N := 34%N.

(** [a === b] on strings. *)
Fixpoint eqb (a b : t) : bool :=
  match a, b with
  | [], [] => true
  | x :: a', y :: b' => N.eqb x y && eqb a' b'
  | _, _ => false
  end.

(** Truthiness of a string: non-empty. *)
Definition truthy (s : t) : bool :=
  match s with [] => false | _ :: _ => true end.

(** [s.startsWith(needle)]. *)
Fixpoint startsWith (s needle : t) : bool :=
  match needle, s with
  | [], _ => true
  | _ :: _, [] => false
  | n :: needle', c :: s' => N.eqb c n && startsWith s' needle'
  end.

(** [s.includes(needle)]. *)
Fixpoint includes (s needle : t) : bool :=
  startsWith s needle
  || match s with
     | [] => false
     | _ :: s' => includes s' needle
     end.

(** The code units matched by [\s] and removed by [trim]: the WhiteSpace
    and LineTerminator productions of ECMAScript. *)
Definition isWhiteSpace (c : N) : bool :=
  ((9 <=? c) && (c <=? 13) || (c =? 32) || (c =? 160) || (c =? 5760)
   || (8192 <=? c) && (c <=? 8202) || (c =? 8232) || (c =? 8233)
   || (c =? 8239) || (c =? 8287) || (c =? 12288) || (c =? 65279))%N.

(** The code units [.] refuses in a regular expression without the [s]
    flag. *)
Definition isLineTerminator (c : N) : bool :=
  ((c =? 10) || (c =? 13) || (c =? 8232) || (c =? 8233))%N.

(** [\d]. *)
Definition isDigit (c : N) : bool := ((48 <=? c) && (c <=? 57))%N.

Fixpoint trimStart (s : t) : t :=
  match s with
  | [] => []
  | c :: s' => if isWhiteSpace c then trimStart s' else s
  end.

Definition trimEnd (s : t) : t := rev (trimStart (rev s)).

(** [s.trim()]. *)
Definition trim (s : t) : t := trimEnd (trimStart s).

(** [s.split(sep)] for a separator of one code unit: never empty, the
    empty string gives one empty piece. *)
Fixpoint split (sep : N) (s : t) : list t :=
  match s with
  | [] => [[]]
  | c :: s' =>
      if N.eqb c sep then [] :: split sep s'
      else match split sep s' with
           | piece :: rest => (c :: piece) :: rest
           | [] => [[c]]
           end
  end.

(** [pieces.join(sep)] for a separator string. *)
Fixpoint join (sep : t) (pieces : list t) : t :=
  match pieces with
  | [] => []
  | [p] => p
  | p :: rest => p ++ sep ++ join sep rest
  end.

(** The longest prefix whose code units satisfy [p], and the rest. *)
Fixpoint span (p : N -> bool) (s : t) : t * t :=
  match s with
  | [] => ([], [])
  | c :: s' =>
      if p c then let (a, b) := span p s' in (c :: a, b) else ([], s)
  end.

(** Case folding of a regular expression with the [i] flag and without
    the [u] flag, against an ASCII pattern character: a code unit above
    127 never folds to an ASCII one, so only the ASCII letters fold. *)
Definition canonicalize (c : N) : N :=
  if ((97 <=? c) && (c <=? 122))%N then (c - 32)%N else c.

Fixpoint startsWith_ci (s needle : t) : bool :=
  match needle, s with
  | [], _ => true
  | _ :: _, [] => false
  | n :: needle', c :: s' =>
      N.eqb (canonicalize c) (canonicalize n) && startsWith_ci s' needle'
  end.

End JsString.

Abbreviation jsstring := JsString.t.
Abbreviation lit := JsString.lit.

(* ===================================================================== *)
(** ** Progress events and the line classifier *)
(* ===================================================================== *)

(** The objects [sendEvent(type, data)] serialises, one constructor per
    [type].  [isError] is [true] when the field is present (the source only
    ever sets it to [true]) and [false] when it is absent.  [exitCode] is
    [None] for JavaScript's [null], the code of a child ended by a signal. *)
Inductive Event : Type :=
| status (message : jsstring)
| log (message : jsstring) (isError : bool)
| complete (success : bool) (exitCode : option Z)
           (driverCode : jsstring) (outputFile : jsstring)
| error (message : jsstring).

(** [/Iteration\s+(\d+)/i] tried at the start of [s]: capture group 1. *)
Definition iterMatchAt (s : jsstring) : option jsstring :=
  if JsString.startsWith_ci s (lit "Iteration") then
    let (ws, rest) := JsString.span JsString.isWhiteSpace (skipn 9 s) in
    match ws with
    | [] => None
    | _ :: _ =>
        match fst (JsString.span JsString.isDigit rest) with
        | [] => None
        | d :: ds => Some (d :: ds)
        end
    end
  else None.

(** [line.match(/Iteration\s+(\d+)/i)]: the leftmost match, group 1. *)
Fixpoint iterMatch (line : jsstring) : option jsstring :=
  match iterMatchAt line with
  | Some n => Some n
  | None =>
      match line with
      | [] => None
      | _ :: line' => iterMatch line'
      end
  end.

(** The body of [for (const line of lines)] in the stdout callback: the
    event the line makes [sendEvent] push, if any. *)
Definition classifyLine (line : jsstring) : option Event :=
  if JsString.includes line (lit "Generating driver") then
    Some (status (lit "Generating initial driver code..."))
  else if JsString.includes line (lit "Running TIS") then
    Some (status (lit "Validating with TIS Analyzer..."))
  else if JsString.includes line (lit "Iteration") then
    match iterMatch line with
    | Some n => Some (status (lit "Refinement iteration " ++ n ++ lit "..."))
    | None => None
    end
  else if JsString.includes line (lit "SUCCESS") then
    Some (status (lit "Driver generation successful!"))
  else if JsString.includes line (lit "FAILED") then
    Some (status (lit "Driver generation failed"))
  else if JsString.truthy (JsString.trim line) then
    Some (log (JsString.trim line) false)
  else None.

(** The events one stdout chunk produces: [text.split('\n')], each piece
    classified in order. *)
Definition optList {A} (o : option A) : list A :=
  match o with Some a => [a] | None => [] end.

Definition classifyChunk (text : jsstring) : list Event :=
  flat_map (fun line => optList (classifyLine line))
           (JsString.split JsString.LF text).

(** A line that contains none of the five words the classifier looks
    for. *)
Definition markerFree (line : jsstring) : bool :=
  negb (JsString.includes line (lit "Generating driver"))
  && negb (JsString.includes line (lit "Running TIS"))
  && negb (JsString.includes line (lit "Iteration"))
  && negb (JsString.includes line (lit "SUCCESS"))
  && negb (JsString.includes line (lit "FAILED")).

(* ===================================================================== *)
(** ** Paths: [path.join] of Node's POSIX flavour *)
(* ===================================================================== *)

Module Path.

Definition SLASH : N := 47%N.
Definition DOT : N := 46%N.

Definition isDot (seg : jsstring) : bool := JsString.eqb seg [DOT].
Definition isDotDot (seg : jsstring) : bool := JsString.eqb seg [DOT; DOT].

(** [normalizeString]: the segments kept, last one first.  An empty segment
    and [.] are dropped; [..] removes the segment before it, and is kept
    only where climbing above the start is allowed. *)
Fixpoint normalizeSegments (allowAboveRoot : bool) (acc : list jsstring)
         (segs : list jsstring) : list jsstring :=
  match segs with
  | [] => acc
  | seg :: segs' =>
      if JsString.eqb seg [] || isDot seg then
        normalizeSegments allowAboveRoot acc segs'
      else if isDotDot seg then
        match acc with
        | top :: acc' =>
            if isDotDot top then
              normalizeSegments allowAboveRoot
                (if allowAboveRoot then seg :: acc else acc) segs'
            else normalizeSegments allowAboveRoot acc' segs'
        | [] =>
            normalizeSegments allowAboveRoot
              (if allowAboveRoot then [seg] else []) segs'
        end
      else normalizeSegments allowAboveRoot (seg :: acc) segs'
  end.

(** [path.normalize(p)]. *)
Definition normalize (p : jsstring) : jsstring :=
  match p with
  | [] => [DOT]
  | c :: _ =>
      let isAbsolute := N.eqb c SLASH in
      let trailingSeparator := N.eqb (last p 0%N) SLASH in
      let body :=
        JsString.join [SLASH]
          (rev (normalizeSegments (negb isAbsolute) []
                                  (JsString.split SLASH p))) in
      match body with
      | [] =>
          if isAbsolute then [SLASH]
          else if trailingSeparator then [DOT; SLASH] else [DOT]
      | _ :: _ =>
          let body' := if trailingSeparator then body ++ [SLASH] else body in
          if isAbsolute then SLASH :: body' else body'
      end
  end.

(** [path.join(...args)]: the non-empty arguments joined by [/], then
    normalised. *)
Definition join (args : list jsstring) : jsstring :=
  match filter JsString.truthy args with
  | [] => [DOT]
  | parts => normalize (JsString.join [SLASH] parts)
  end.

End Path.

(* ===================================================================== *)
(** ** The filesystem and the shell, as the server sees them *)
(* ===================================================================== *)

(** What a path is on the local filesystem. *)
Inductive FsEntry : Type :=
| NoEntry                      (* nothing there *)
| StatFails                    (* the lookup itself fails, e.g. EACCES on a parent *)
| RegularFile (text : jsstring) (* a file that can be read *)
| NotReadable.                 (* present, but reading it throws: a directory, no permission *)

(** What [execSync(command)] does. *)
Inductive ExecResult : Type :=
| ExecOutput (stdout : jsstring)
| ExecThrows (message : jsstring).

Record World : Type := {
  entry : jsstring -> FsEntry;
  sh : jsstring -> ExecResult
}.

(** [PROJECT_ROOT] and [LOCAL_SOURCE_ROOT] ([''] when the variable is not
    set). *)
Record Config : Type := {
  PROJECT_ROOT : jsstring;
  LOCAL_SOURCE_ROOT : jsstring
}.

(** [fs.existsSync]: never throws, a failing lookup is [false]. *)
Definition exists_in (w : World) (p : jsstring) : bool :=
  match entry w p with
  | RegularFile _ | NotReadable => true
  | NoEntry | StatFails => false
  end.

(** [fs.readFileSync(p, 'utf-8')]: the text, or [None] when it throws. *)
Definition read_in (w : World) (p : jsstring) : option jsstring :=
  match entry w p with
  | RegularFile text => Some text
  | _ => None
  end.

(* ===================================================================== *)
(** ** A monad for the resolver: probes are logged, exceptions explicit *)
(* ===================================================================== *)

Inductive Probe : Type :=
| probe_exists (p : jsstring)
| probe_exec (command : jsstring).

Inductive Outcome (A : Type) : Type :=
| Ret (a : A)
| Throw (message : jsstring).
Arguments Throw {A} message.

(** The state a resolution runs in: the world it looks at, and the probes
    made so far, oldest first. *)
Record RState : Type := {
  world : World;
  probes : list Probe
}.

Definition M (A : Type) : Type := RState -> Outcome A * RState.

Definition ret {A} (a : A) : M A := fun s => (Ret a, s).

Definition bind {A B} (m : M A) (k : A -> M B) : M B :=
  fun s =>
    match m s with
    | (Ret a, s') => k a s'
    | (Throw e, s') => (Throw e, s')
    end.

(** [try { m } catch { h }]. *)
Definition try_catch {A} (m : M A) (h : M A) : M A :=
  fun s =>
    match m s with
    | (Ret a, s') => (Ret a, s')
    | (Throw _, s') => h s'
    end.

Declare Scope resolver_scope.
Delimit Scope resolver_scope with resolver.
Notation "x <- m ;; k" := (bind m (fun x => k))
  (at level 61, m at next level, right associativity) : resolver_scope.
Open Scope resolver_scope.

Definition record_probe (p : Probe) (s : RState) : RState :=
  {| world := world s; probes := probes s ++ [p] |}.

Definition existsSync (p : jsstring) : M bool :=
  fun s => (Ret (exists_in (world s) p), record_probe (probe_exists p) s).

Definition execSync (command : jsstring) : M jsstring :=
  fun s =>
    (match sh (world s) command with
     | ExecOutput out => Ret out
     | ExecThrows e => Throw e
     end,
     record_probe (probe_exec command) s).

(* ===================================================================== *)
(** ** [resolveSourcePath] *)
(* ===================================================================== *)

(** [/\/work\/(.+)$/] tried at the start of [s]: capture group 1.  There
    is no [m] flag, so [$] is the end of the string, and [.] takes no line
    terminator. *)
Definition workMatchAt (s : jsstring) : option jsstring :=
  if JsString.startsWith s (lit "/work/") then
    match skipn 6 s with
    | [] => None
    | c :: rest =>
        if forallb (fun x => negb (JsString.isLineTerminator x)) (c :: rest)
        then Some (c :: rest) else None
    end
  else None.

(** [remotePath.match(/\/work\/(.+)$/)]: the leftmost match, group 1. *)
Fixpoint workMatch (remotePath : jsstring) : option jsstring :=
  match workMatchAt remotePath with
  | Some suffix => Some suffix
  | None =>
      match remotePath with
      | [] => None
      | _ :: s' => workMatch s'
      end
  end.

(** The shell command of step 4. *)
Definition findCommand (cfg : Config) (filename : jsstring) : jsstring :=
  lit "find " ++ [JsString.DQUOTE] ++ PROJECT_ROOT cfg ++ [JsString.DQUOTE]
  ++ lit " -maxdepth 5 -name " ++ [JsString.DQUOTE] ++ filename
  ++ [JsString.DQUOTE] ++ lit " -type f 2>/dev/null | head -1".

(** [for (const searchPath of searchPaths)]: the first one that exists. *)
Fixpoint firstExisting (searchPaths : list jsstring) : M (option jsstring) :=
  match searchPaths with
  | [] => ret None
  | searchPath :: rest =>
      b <- existsSync searchPath ;;
      if b then ret (Some searchPath) else firstExisting rest
  end.

(** [resolveSourcePath(remotePath, filename)]; [None] is [null].  A block
    that can [return] yields [Some] of the returned path. *)
Definition resolveSourcePath (cfg : Config) (remotePath filename : jsstring)
  : M (option jsstring) :=
  (* 1. Try the path as-is *)
  b <- existsSync remotePath ;;
  if b then ret (Some remotePath) else
  (* 2. Try with LOCAL_SOURCE_ROOT mapping *)
  r2 <- (if JsString.truthy (LOCAL_SOURCE_ROOT cfg) then
           match workMatch remotePath with
           | Some suffix =>
               let localPath := Path.join [LOCAL_SOURCE_ROOT cfg; suffix] in
               b <- existsSync localPath ;;
               ret (if b then Some localPath else None)
           | None => ret None
           end
         else ret None) ;;
  match r2 with
  | Some localPath => ret (Some localPath)
  | None =>
  (* 3. Try to find by filename in PROJECT_ROOT *)
  let searchPaths :=
    [ Path.join [PROJECT_ROOT cfg; filename];
      Path.join [PROJECT_ROOT cfg; lit "src"; filename] ] in
  r3 <- firstExisting searchPaths ;;
  match r3 with
  | Some searchPath => ret (Some searchPath)
  | None =>
  (* 4. Try recursive search in PROJECT_ROOT (limited depth) *)
  r4 <- try_catch
          (out <- execSync (findCommand cfg filename) ;;
           let findResult := JsString.trim out in
           if JsString.truthy findResult then
             b <- existsSync findResult ;;
             ret (if b then Some findResult else None)
           else ret None)
          (ret None) ;;
  match r4 with
  | Some findResult => ret (Some findResult)
  | None => ret None
  end
  end
  end.

(** Running a resolution in a world, from an empty probe log. *)
Definition run_resolver {A} (m : M A) (w : World) : Outcome A * RState :=
  m {| world := w; probes := [] |}.

(** A computation that only reads: in a given world its outcome and the
    probes it adds are fixed, and it leaves the world as it was. *)
Definition readsOnly {A} (m : M A) : Prop :=
  forall w, exists o l, forall lg,
    m {| world := w; probes := lg |}
    = (o, {| world := w; probes := lg ++ l |}).

(** The same fallback chain in the words of the design: a strategy probes
    and yields its candidate when the candidate exists; the strategies are
    tried in order and the first success ends the resolution. *)
Definition Strategy : Type := M (option jsstring).

Fixpoint firstSuccess (strategies : list Strategy) : M (option jsstring) :=
  match strategies with
  | [] => ret None
  | s :: rest =>
      r <- s ;;
      match r with
      | Some p => ret (Some p)
      | None => firstSuccess rest
      end
  end.

(** Probe one candidate path. *)
Definition candidate (p : jsstring) : Strategy :=
  b <- existsSync p ;; ret (if b then Some p else None).

Definition directProbe (remotePath : jsstring) : Strategy :=
  candidate remotePath.

Definition rootRemapping (cfg : Config) (remotePath : jsstring) : Strategy :=
  if JsString.truthy (LOCAL_SOURCE_ROOT cfg) then
    match workMatch remotePath with
    | Some suffix => candidate (Path.join [LOCAL_SOURCE_ROOT cfg; suffix])
    | None => ret None
    end
  else ret None.

Definition siblingSearch (cfg : Config) (filename : jsstring) : Strategy :=
  firstSuccess
    [ candidate (Path.join [PROJECT_ROOT cfg; filename]);
      candidate (Path.join [PROJECT_ROOT cfg; lit "src"; filename]) ].

Definition boundedRecursiveSearch (cfg : Config) (filename : jsstring)
  : Strategy :=
  try_catch
    (out <- execSync (findCommand cfg filename) ;;
     if JsString.truthy (JsString.trim out)
     then candidate (JsString.trim out) else ret None)
    (ret None).

Definition fallbackChain (cfg : Config) (remotePath filename : jsstring)
  : list Strategy :=
  [ directProbe remotePath;
    rootRemapping cfg remotePath;
    siblingSearch cfg filename;
    boundedRecursiveSearch cfg filename ].

(** A strategy that found nothing, leaving the state [s']. *)
Definition fails (s : Strategy) (st st' : RState) : Prop :=
  s st = (Ret None, st').

(** Running a list of strategies that all find nothing. *)
Fixpoint allFail (ss : list Strategy) (st st' : RState) : Prop :=
  match ss with
  | [] => st' = st
  | s :: rest => exists mid, fails s st mid /\ allFail rest mid st'
  end.

(* ===================================================================== *)
(** ** The [/api/generate] handler *)
(* ===================================================================== *)

(** [req.query]; [None] is a parameter that was not given. *)
Record Query : Type := {
  project : option jsstring;
  filename : option jsstring;
  functionName : option jsstring;
  model : option jsstring;
  maxIterations : option jsstring
}.

(** What the handler does to the outside, in the order it does it. *)
Inductive Effect : Type :=
| res_status_json (code : Z) (errorMessage : jsstring)
| res_setHeader (name value : jsstring)
| res_write (ev : Event)            (* a write the open response takes *)
| res_write_after_end (ev : Event)  (* a write after [res.end()]: refused *)
| res_write_after_close (ev : Event) (* a write after the client has gone: dropped *)
| res_end
| spawn (file : jsstring) (args : list jsstring) (cwd : jsstring)
| child_kill (delivered : bool).    (* [child.kill()]; [true] when a signal is sent *)

(** The state of one request.  [ended] says that [res.end()] was called,
    [clientGone] that the request has emitted ['close'] (before the
    response is ended that is the client hanging up; Node then destroys the
    response).  [childLive] says that Node still holds the handle of a
    running child: [kill] sends a signal only then.  [crashed] says that an
    exception left a callback. *)
Record GenState : Type := {
  effects : list Effect;
  ended : bool;
  clientGone : bool;
  childLive : bool;
  crashed : bool;
  fullOutput : jsstring
}.

(** Why Node emits ['error'] on a child that has no IPC channel and no
    abort signal. *)
Inductive ErrorCause : Type := spawn_failed | kill_failed.

(** What the event loop delivers while the request is open.  ['exit'] has
    no listener in the source; it is when Node drops the child's handle. *)
Inductive NodeEvent : Type :=
| stdout_data (text : jsstring)
| stderr_data (text : jsstring)
| child_exit
| child_close (code : option Z)
| child_error (cause : ErrorCause) (message : jsstring)
| req_close.

Definition emit (e : Effect) (st : GenState) : GenState :=
  {| effects := effects st ++ [e];
     ended := ended st;
     clientGone := clientGone st;
     childLive := childLive st;
     crashed := crashed st;
     fullOutput := fullOutput st |}.

(** [sendEvent(type, data)]: one [res.write].  The source writes without
    looking at the response; Node takes the write while the response is
    open, refuses it after [res.end()], and drops it once the client has
    gone.  All three are logged. *)
Definition sendEvent (ev : Event) (st : GenState) : GenState :=
  if ended st then emit (res_write_after_end ev) st
  else if clientGone st then emit (res_write_after_close ev) st
  else emit (res_write ev) st.

(** What becomes of a write in the state [st]. *)
Definition writeEffect (st : GenState) : Event -> Effect :=
  if ended st then res_write_after_end
  else if clientGone st then res_write_after_close
  else res_write.

(** The response takes what is written to it. *)
Definition takesWrites (st : GenState) : bool :=
  negb (ended st) && negb (clientGone st).

(** [res.end()]. *)
Definition endResponse (st : GenState) : GenState :=
  {| effects := effects st ++ [res_end];
     ended := true;
     clientGone := clientGone st;
     childLive := childLive st;
     crashed := crashed st;
     fullOutput := fullOutput st |}.

(** Node drops the handle of the child when the child exits or cannot be
    started, before it emits ['close'] or that ['error']. *)
Definition handleLost (st : GenState) : GenState :=
  {| effects := effects st;
     ended := ended st;
     clientGone := clientGone st;
     childLive := false;
     crashed := crashed st;
     fullOutput := fullOutput st |}.

(** An exception leaves a callback. *)
Definition uncaught (st : GenState) : GenState :=
  {| effects := effects st;
     ended := ended st;
     clientGone := clientGone st;
     childLive := childLive st;
     crashed := true;
     fullOutput := fullOutput st |}.

(** [child.kill()]. *)
Definition kill (st : GenState) : GenState :=
  emit (child_kill (childLive st)) st.

Definition truthyParam (v : option jsstring) : bool :=
  match v with
  | Some s => JsString.truthy s
  | None => false
  end.

(** [v as string] on a parameter. *)
Definition asString (v : option jsstring) : jsstring :=
  match v with Some s => s | None => lit "undefined" end.

(** A destructuring default. *)
Definition withDefault (v : option jsstring) (d : jsstring) : jsstring :=
  match v with Some s => s | None => d end.

Definition outputFileOf (q : Query) : jsstring :=
  lit "drivers/gui_" ++ asString (functionName q) ++ lit ".c".

(** [args] of the [spawn] call. *)
Definition generateArgs (q : Query) : list jsstring :=
  [ lit "gen";
    asString (project q);
    asString (filename q);
    asString (functionName q);
    lit "--model"; withDefault (model q) (lit "gpt-4o-mini");
    lit "--max-iterations"; withDefault (maxIterations q) (lit "3");
    lit "--output"; outputFileOf q;
    lit "--with-logs";
    lit "--context"; lit "function";
    lit "-v" ].

Definition validQuery (q : Query) : bool :=
  negb (negb (truthyParam (project q))
        || negb (truthyParam (filename q))
        || negb (truthyParam (functionName q))).

(** The handler up to the registration of the callbacks. *)
Definition generateOpen (cfg : Config) (q : Query) : GenState :=
  if negb (truthyParam (project q))
     || negb (truthyParam (filename q))
     || negb (truthyParam (functionName q))
  then
    {| effects :=
         [ res_status_json 400
             (lit "project, filename, and functionName are required") ];
       ended := true; clientGone := false; childLive := false;
       crashed := false; fullOutput := [] |}
  else
    {| effects :=
         [ res_setHeader (lit "Content-Type") (lit "text/event-stream");
           res_setHeader (lit "Cache-Control") (lit "no-cache");
           res_setHeader (lit "Connection") (lit "keep-alive");
           res_write
             (status (lit "Starting driver generation for "
                      ++ asString (functionName q) ++ lit "..."));
           spawn (lit "tisaidga") (generateArgs q) (PROJECT_ROOT cfg) ];
       ended := false; clientGone := false; childLive := true;
       crashed := false; fullOutput := [] |}.

(** [child.stdout.on('data', ...)]. *)
Definition onStdout (text : jsstring) (st : GenState) : GenState :=
  let st1 :=
    {| effects := effects st; ended := ended st;
       clientGone := clientGone st; childLive := childLive st;
       crashed := crashed st; fullOutput := fullOutput st ++ text |} in
  fold_left
    (fun acc line =>
       match classifyLine line with
       | Some ev => sendEvent ev acc
       | None => acc
       end)
    (JsString.split JsString.LF text) st1.

(** [child.stderr.on('data', ...)]. *)
Definition onStderr (text : jsstring) (st : GenState) : GenState :=
  sendEvent (log text true) st.

(** [code === 0]. *)
Definition isZero (code : option Z) : bool :=
  match code with
  | Some z => Z.eqb z 0
  | None => false
  end.

(** [child.on('close', ...)], in the filesystem [w] of that moment. *)
Definition onClose (w : World) (cfg : Config) (outputFile : jsstring)
           (code : option Z) (st : GenState) : GenState :=
  let outputPath := Path.join [PROJECT_ROOT cfg; outputFile] in
  let finish driverCode :=
    endResponse
      (sendEvent (complete (isZero code) code driverCode outputFile) st) in
  if exists_in w outputPath then
    match read_in w outputPath with
    | Some text => finish text
    | None => uncaught st
    end
  else finish [].

(** [child.on('error', ...)]. *)
Definition onError (message : jsstring) (st : GenState) : GenState :=
  endResponse (sendEvent (error message) st).

(** The request emits ['close']. *)
Definition hangUp (st : GenState) : GenState :=
  {| effects := effects st;
     ended := ended st;
     clientGone := true;
     childLive := childLive st;
     crashed := crashed st;
     fullOutput := fullOutput st |}.

(** [req.on('close', ...)]. *)
Definition onReqClose (st : GenState) : GenState := kill (hangUp st).

(** One turn of the event loop.  After an uncaught exception the process
    is gone and nothing more happens. *)
Definition step (w : World) (cfg : Config) (outputFile : jsstring)
           (st : GenState) (ev : NodeEvent) : GenState :=
  if crashed st then st else
  match ev with
  | stdout_data text => onStdout text st
  | stderr_data text => onStderr text st
  | child_exit => handleLost st
  | child_close code => onClose w cfg outputFile code (handleLost st)
  | child_error spawn_failed message => onError message (handleLost st)
  | child_error kill_failed message => onError message st
  | req_close => onReqClose st
  end.

(** The whole request: the events of [trace] reach the callbacks only when
    the parameters were accepted. *)
Definition generate (w : World) (cfg : Config) (q : Query)
           (trace : list NodeEvent) : GenState :=
  if validQuery q
  then fold_left (step w cfg (outputFileOf q)) trace (generateOpen cfg q)
  else generateOpen cfg q.

(** The event stream: what the response took, in order. *)
Definition written (st : GenState) : list Event :=
  flat_map (fun e => match e with res_write ev => [ev] | _ => [] end)
           (effects st).

Definition isTerminal (ev : Event) : bool :=
  match ev with
  | complete _ _ _ _ | error _ => true
  | status _ | log _ _ => false
  end.

(** The signals sent to the child. *)
Definition signalsSent (st : GenState) : nat :=
  List.length (filter (fun e => match e with child_kill true => true | _ => false end)
                 (effects st)).

(** A list of events without a terminal one. *)
Definition nonTerminal (l : list Event) : bool :=
  forallb (fun e => negb (isTerminal e)) l.

(** A stream with at most one terminal event, which is then its last. *)
Definition wellTerminated (l : list Event) : Prop :=
  nonTerminal l = true
  \/ exists body t,
       nonTerminal body = true /\ isTerminal t = true /\ l = body ++ [t].

(** The child's output, and nothing else. *)
Definition isOutput (ev : NodeEvent) : bool :=
  match ev with
  | stdout_data _ | stderr_data _ => true
  | _ => false
  end.

(** What Node delivers for a child that was started, up to its ['close']:
    output, and the ['exit'] that comes before the pipes are drained. *)
Definition beforeClose (ev : NodeEvent) : bool :=
  match ev with
  | stdout_data _ | stderr_data _ | child_exit => true
  | _ => false
  end.

(** The events one piece of output puts on the open stream. *)
Definition outputEvents (ev : NodeEvent) : list Event :=
  match ev with
  | stdout_data text => classifyChunk text
  | stderr_data text => [log text true]
  | _ => []
  end.

(** The first event of every accepted request. *)
Definition startingEvent (q : Query) : Event :=
  status (lit "Starting driver generation for "
          ++ asString (functionName q) ++ lit "...").

(** The path [child.on('close')] reads. *)
Definition outputPathOf (cfg : Config) (q : Query) : jsstring :=
  Path.join [PROJECT_ROOT cfg; outputFileOf q].

(** A crashed server holds no live child. *)
Definition handleInv (st : GenState) : Prop :=
  crashed st = true -> childLive st = false.

(** A chunk that ends where a line ends. *)
Definition lineAligned (chunk : jsstring) : Prop :=
  chunk = [] \/ exists body, chunk = body ++ [JsString.LF].

(* ===================================================================== *)
(** ** The commands of [/api/init] and [/api/projects] *)
(* ===================================================================== *)

(** How a child process is started: [execSync(command)] hands one string
    to [/bin/sh -c]; [spawn(file, args)] hands the tokens to the program. *)
Inductive Invocation : Type :=
| via_shell (command : jsstring)
| via_argv (file : jsstring) (args : list jsstring).

(** [args] of [/api/init]. *)
Definition initArgs (compilationDbPath : jsstring)
           (projectName : option jsstring) : list jsstring :=
  [lit "init"; compilationDbPath]
  ++ (if truthyParam projectName
      then [lit "--name"; asString projectName] else [])
  ++ [lit "-v"].

(** [execSync(`tisaidga ${args.join(' ')}`)]. *)
Definition initInvocation (compilationDbPath : jsstring)
           (projectName : option jsstring) : Invocation :=
  via_shell (lit "tisaidga "
             ++ JsString.join (lit " ") (initArgs compilationDbPath projectName)).

(** [execSync(`tisaidga list ${project} -v`)]. *)
Definition listFilesInvocation (project : jsstring) : Invocation :=
  via_shell (lit "tisaidga list " ++ project ++ lit " -v").

(** [spawn('tisaidga', args)]. *)
Definition generateInvocation (q : Query) : Invocation :=
  via_argv (lit "tisaidga") (generateArgs q).

(** The characters the shell gives no meaning to, besides blanks: letters,
    digits and [% + , - . / : = @ _]. *)
Definition isPlain (c : N) : bool :=
  ((48 <=? c) && (c <=? 58) || (65 <=? c) && (c <=? 90)
   || (97 <=? c) && (c <=? 122) || (c =? 37) || (43 <=? c) && (c <=? 47)
   || (c =? 61) || (c =? 64) || (c =? 95))%N.

Definition isBlank (c : N) : bool := ((c =? 32) || (c =? 9))%N.

(** Field splitting of a command made of plain characters and blanks. *)
Fixpoint fields (cur : jsstring) (s : jsstring) : list jsstring :=
  match s with
  | [] => match cur with [] => [] | _ :: _ => [rev cur] end
  | c :: s' =>
      if isBlank c
      then match cur with
           | [] => fields [] s'
           | _ :: _ => rev cur :: fields [] s'
           end
      else fields (c :: cur) s'
  end.

(** The argument vector the program is started with.  A shell command is
    resolved only when it has no character the shell interprets. *)
Definition argvOf (i : Invocation) : option (list jsstring) :=
  match i with
  | via_argv file args => Some (file :: args)
  | via_shell command =>
      if forallb (fun c => isPlain c || isBlank c) command
      then Some (fields [] command) else None
  end.

(** A world with one readable file and a [find] that prints nothing. *)
Definition oneFileWorld (path text : jsstring) : World :=
  {| entry := fun p => if JsString.eqb p path then RegularFile text else NoEntry;
     sh := fun _ => ExecOutput [] |}.

(** A world where every lookup fails and every command throws. *)
Definition hostileWorld : World :=
  {| entry := fun _ => StatFails;
     sh := fun _ => ExecThrows (lit "spawnSync /bin/sh EACCES") |}.

Definition sampleConfig : Config :=
  {| PROJECT_ROOT := lit "/srv/tis-aidga";
     LOCAL_SOURCE_ROOT := lit "/Users/me/work" |}.

(* ===================================================================== *)
(** ** Regular expressions: the fragment the server uses *)
(* ===================================================================== *)

Module Regex.

(** A pattern is a sequence of atoms: a literal code unit, a greedy run
    [c*] or [c+] of a class, an optional literal [x?], the assertions [^]
    and [$], and the two ends of a capture group. *)
Inductive Atom : Type :=
| Chr (c : N)
| Rep (cls : N -> bool) (min : nat)
| Opt (c : N)
| Bol
| Eol
| Open (g : nat)
| Close (g : nat).

(** A match: the groups closed in it, the latest first; the code unit
    before its end; and what follows it. *)
Record Found : Type := {
  groups : list (nat * jsstring);
  before : option N;
  remaining : jsstring
}.

Fixpoint assoc (g : nat) (l : list (nat * jsstring)) : option jsstring :=
  match l with
  | [] => None
  | (h, s) :: l' => if Nat.eqb h g then Some s else assoc g l'
  end.

(** [match[g]]. *)
Definition group (g : nat) (f : Found) : option jsstring :=
  assoc g (groups f).

(** [^]: the start of the input, and with the [m] flag also the position
    after a line terminator. *)
Definition atLineStart (multiline : bool) (prev : option N) : bool :=
  match prev with
  | None => true
  | Some c => multiline && JsString.isLineTerminator c
  end.

(** [$]: the end of the input, and with the [m] flag also the position
    before a line terminator. *)
Definition atLineEnd (multiline : bool) (rest : jsstring) : bool :=
  match rest with
  | [] => true
  | c :: _ => multiline && JsString.isLineTerminator c
  end.

(** A greedy run of the class [cls]: the longest run is tried first, and a
    shorter one only when what follows ([k]) fails on the longer. *)
Fixpoint greedy {R} (cls : N -> bool)
         (k : nat -> option N -> jsstring -> option R)
         (count : nat) (prev : option N) (rest : jsstring) : option R :=
  match rest with
  | c :: rest' =>
      if cls c then
        match greedy cls k (S count) (Some c) rest' with
        | Some r => Some r
        | None => k count prev rest
        end
      else k count prev rest
  | [] => k count prev rest
  end.

(** The backtracking matcher, at one position.  [opens] holds where the
    open groups started. *)
Fixpoint matchHere (multiline : bool) (re : list Atom)
         (opens caps : list (nat * jsstring))
         (prev : option N) (rest : jsstring) : option Found :=
  match re with
  | [] => Some {| groups := caps; before := prev; remaining := rest |}
  | Chr c :: re' =>
      match rest with
      | x :: rest' =>
          if N.eqb x c
          then matchHere multiline re' opens caps (Some x) rest'
          else None
      | [] => None
      end
  | Rep cls min :: re' =>
      greedy cls
        (fun count prev' rest' =>
           if Nat.leb min count
           then matchHere multiline re' opens caps prev' rest'
           else None)
        0 prev rest
  | Opt c :: re' =>
      match rest with
      | x :: rest' =>
          if N.eqb x c then
            match matchHere multiline re' opens caps (Some x) rest' with
            | Some f => Some f
            | None => matchHere multiline re' opens caps prev rest
            end
          else matchHere multiline re' opens caps prev rest
      | [] => matchHere multiline re' opens caps prev rest
      end
  | Bol :: re' =>
      if atLineStart multiline prev
      then matchHere multiline re' opens caps prev rest else None
  | Eol :: re' =>
      if atLineEnd multiline rest
      then matchHere multiline re' opens caps prev rest else None
  | Open g :: re' =>
      matchHere multiline re' ((g, rest) :: opens) caps prev rest
  | Close g :: re' =>
      match assoc g opens with
      | Some start =>
          matchHere multiline re' opens
            ((g, firstn (List.length start - List.length rest) start) :: caps)
            prev rest
      | None => None
      end
  end.

(** The leftmost match at or after the position. *)
Fixpoint search (multiline : bool) (re : list Atom)
         (prev : option N) (s : jsstring) : option Found :=
  match matchHere multiline re [] [] prev s with
  | Some f => Some f
  | None =>
      match s with
      | [] => None
      | c :: s' => search multiline re (Some c) s'
      end
  end.

(** [s.match(re)] for a pattern without the [g] flag. *)
Definition matchOnce (multiline : bool) (re : list Atom) (s : jsstring)
  : option Found :=
  search multiline re None s.

(** [while ((match = re.exec(s)) !== null)] for a pattern with the [g]
    flag: each search starts where the match before it ended.  [fuel]
    bounds the number of matches. *)
Fixpoint execAll (fuel : nat) (multiline : bool) (re : list Atom)
         (prev : option N) (s : jsstring) : list Found :=
  match fuel with
  | 0 => []
  | S fuel' =>
      match search multiline re prev s with
      | None => []
      | Some f =>
          f :: execAll fuel' multiline re (before f) (remaining f)
      end
  end.

(** The code unit before the position after a run. *)
Definition prevAfter (run : jsstring) (prev : option N) : option N :=
  fold_left (fun _ c => Some c) run prev.

(** The least number of code units a match of the pattern takes. *)
Fixpoint minLength (re : list Atom) : nat :=
  match re with
  | [] => 0
  | Chr _ :: re' => S (minLength re')
  | Rep _ min :: re' => min + minLength re'
  | _ :: re' => minLength re'
  end.

End Regex.

(** The classes of the patterns. *)
Definition isWord (c : N) : bool :=
  ((48 <=? c) && (c <=? 57) || (65 <=? c) && (c <=? 90)
   || (97 <=? c) && (c <=? 122) || (c =? 95))%N.

Definition notWhiteSpace (c : N) : bool := negb (JsString.isWhiteSpace c).

(** The Numbers [parseInt] can return for a run of decimal digits: a whole
    number that a double holds, or [Infinity]. *)
Inductive JsNumber : Type :=
| finite (n : N)
| infinity.

(** The integer a run of decimal digits writes. *)
Definition decimalValue (digits : jsstring) : N :=
  fold_left (fun acc c => (acc * 10 + (c - 48))%N) digits 0%N.

(** The Number value for an integer: the double nearest to it, the one
    with the even significand when two are as near.  Below [2^53] every
    integer is a double; above, the 53 leading bits are kept and the rest
    is rounded; what rounds to [2^1024] or more is [Infinity]. *)
Definition toDouble (n : N) : JsNumber :=
  if (n <? 2 ^ 53)%N then finite n
  else
    let shift := (N.log2 n - 52)%N in
    let q := N.shiftr n shift in
    let r := N.land n (N.ones shift) in
    let half := N.shiftl 1 (shift - 1) in
    let q' := if (half <? r)%N || ((r =? half)%N && N.odd q)
              then (q + 1)%N else q in
    let v := N.shiftl q' shift in
    if (v <? 2 ^ 1024)%N then finite v else infinity.

(** [parseInt] on a run of decimal digits, which is all a [(\d+)] group
    can hold: no sign, no prefix, radix 10.  The result is the Number value
    for the integer the digits write.  (The standard lets an implementation
    read the digits after the 20th as zeros; the digits are taken as they
    are here, as V8 does.) *)
Definition parseInt (digits : jsstring) : JsNumber :=
  toDouble (decimalValue digits).

(* ===================================================================== *)
(** ** [GET /api/projects]: the parser of [tisaidga list] *)
(* ===================================================================== *)

Module Projects.

Record Project : Type := {
  name : jsstring;
  fileCount : JsNumber;
  remoteDir : jsstring
}.

(** [/^\s+(\S+)\s+\((\d+)\s+files?\)/]. *)
Definition lineRegex : list Regex.Atom :=
  [ Regex.Bol;
    Regex.Rep JsString.isWhiteSpace 1;
    Regex.Open 1; Regex.Rep notWhiteSpace 1; Regex.Close 1;
    Regex.Rep JsString.isWhiteSpace 1;
    Regex.Chr 40;
    Regex.Open 2; Regex.Rep JsString.isDigit 1; Regex.Close 2;
    Regex.Rep JsString.isWhiteSpace 1;
    Regex.Chr 102; Regex.Chr 105; Regex.Chr 108; Regex.Chr 101;
    Regex.Opt 115;
    Regex.Chr 41 ].

(** The body of the loop over the lines: the project a line adds. *)
Definition ofLine (line : jsstring) : list Project :=
  match Regex.matchOnce false lineRegex line with
  | Some m =>
      match Regex.group 1 m, Regex.group 2 m with
      | Some n, Some count =>
          [{| name := n; fileCount := parseInt count; remoteDir := [] |}]
      | _, _ => []
      end
  | None => []
  end.

(** [projects] after the loop over [result.split('\n')]. *)
Definition parse (result : jsstring) : list Project :=
  flat_map ofLine (JsString.split JsString.LF result).

End Projects.

(* ===================================================================== *)
(** ** [GET /api/projects/:project/files]: the parser of
       [tisaidga list <project> -v] *)
(* ===================================================================== *)

Module Files.

Record FileInfo : Type := {
  name : jsstring;
  path : jsstring
}.

(** [/^  (\S+\.c)\s*$/]. *)
Definition lineRegex : list Regex.Atom :=
  [ Regex.Bol;
    Regex.Chr 32; Regex.Chr 32;
    Regex.Open 1;
    Regex.Rep notWhiteSpace 1; Regex.Chr 46; Regex.Chr 99;
    Regex.Close 1;
    Regex.Rep JsString.isWhiteSpace 0;
    Regex.Eol ].

Definition ofLine (line : jsstring) : list FileInfo :=
  match Regex.matchOnce false lineRegex line with
  | Some m =>
      match Regex.group 1 m with
      | Some n => [{| name := n; path := n |}]
      | None => []
      end
  | None => []
  end.

(** [files] after the loop over [result.split('\n')]. *)
Definition parse (result : jsstring) : list FileInfo :=
  flat_map ofLine (JsString.split JsString.LF result).

End Files.

(* ===================================================================== *)
(** ** [GET /api/projects/:project/files/:filename/functions]: the
       extraction of the function names *)
(* ===================================================================== *)

Module Functions.

(** [/^[\w\s\*]+\s+(\w+)\s*\([^)]*\)\s*\{/gm]. *)
Definition functionRegex : list Regex.Atom :=
  [ Regex.Bol;
    Regex.Rep (fun c => isWord c || JsString.isWhiteSpace c || N.eqb c 42) 1;
    Regex.Rep JsString.isWhiteSpace 1;
    Regex.Open 1; Regex.Rep isWord 1; Regex.Close 1;
    Regex.Rep JsString.isWhiteSpace 0;
    Regex.Chr 40;
    Regex.Rep (fun c => negb (N.eqb c 41)) 0;
    Regex.Chr 41;
    Regex.Rep JsString.isWhiteSpace 0;
    Regex.Chr 123 ].

(** ['if', 'while', 'for', 'switch', 'else']. *)
Definition nonFunctions : list jsstring :=
  [lit "if"; lit "while"; lit "for"; lit "switch"; lit "else"].

(** [list.includes(x)] on strings. *)
Definition includes (l : list jsstring) (x : jsstring) : bool :=
  existsb (JsString.eqb x) l.

(** [functions] after the [while] loop: group 1 of every match, in order,
    the names of [nonFunctions] left out. *)
Definition matched (sourceCode : jsstring) : list jsstring :=
  flat_map
    (fun m =>
       match Regex.group 1 m with
       | Some funcName =>
           if negb (includes nonFunctions funcName) then [funcName] else []
       | None => []
       end)
    (Regex.execAll (S (List.length sourceCode)) true functionRegex
                   None sourceCode).

(** [[...new Set(l)]]: the elements in the order of their first
    occurrence. *)
Fixpoint setOf (seen l : list jsstring) : list jsstring :=
  match l with
  | [] => seen
  | x :: l' =>
      if includes seen x then setOf seen l' else setOf (seen ++ [x]) l'
  end.

(** The [functions] of the reply. *)
Definition extract (sourceCode : jsstring) : list jsstring :=
  setOf [] (matched sourceCode).

End Functions.

(* ===================================================================== *)
(** ** The client of the stream: [handleGenerate] of [gui/src/App.tsx] *)
(* ===================================================================== *)

Module Client.

Inductive GenerationStatus : Type := idle | generating | success | failed.

(** A line of the log panel; [isError] is [true] when the event carried
    the mark. *)
Record LogEntry : Type := {
  message : jsstring;
  isError : bool
}.

(** The inputs [handleGenerate] reads: the selection and the two settings
    (the state variables [model] and [maxIterations]). *)
Record Inputs : Type := {
  selectedProject : jsstring;
  selectedFile : jsstring;
  selectedFunction : jsstring;
  modelSetting : jsstring;
  maxIterationsSetting : jsstring
}.

(** The generation state of the component, the constant [genStartTime] of
    the running [handleGenerate], and whether its [EventSource] is open. *)
Record State : Type := {
  isGenerating : bool;
  progressMessage : jsstring;
  generationStatus : GenerationStatus;
  driverCode : jsstring;
  logs : list LogEntry;
  generationTime : option Z;
  startTime : option Z;
  genStartTime : Z;
  sourceOpen : bool
}.

(** What the [EventSource] delivers: a message, parsed, with the value of
    [Date.now()] at that moment; or its error event. *)
Inductive SourceEvent : Type :=
| source_message (now : Z) (data : Event)
| source_error.

(** [prev.slice(-n)]: the last [n] elements. *)
Definition sliceLast {A} (n : nat) (l : list A) : list A :=
  skipn (List.length l - n) l.

(** The query string [URLSearchParams] builds, as the server parses it. *)
Definition queryOf (i : Inputs) : Query :=
  {| project := Some (selectedProject i);
     filename := Some (selectedFile i);
     functionName := Some (selectedFunction i);
     model := Some (modelSetting i);
     maxIterations := Some (maxIterationsSetting i) |}.

(** [handleGenerate] up to [new EventSource(...)]: nothing happens without
    a full selection; otherwise the state is reset and the request sent. *)
Definition handleGenerate (i : Inputs) (now : Z) (st : State)
  : State * option Query :=
  if negb (JsString.truthy (selectedProject i))
     || negb (JsString.truthy (selectedFile i))
     || negb (JsString.truthy (selectedFunction i))
  then (st, None)
  else
    ({| isGenerating := true;
        progressMessage := lit "Starting generation...";
        generationStatus := idle;
        driverCode := [];
        logs := [];
        generationTime := None;
        startTime := Some now;
        genStartTime := now;
        sourceOpen := true |},
     Some (queryOf i)).

(** [eventSource.onmessage]. *)
Definition onmessage (now : Z) (data : Event) (st : State) : State :=
  match data with
  | status m =>
      {| isGenerating := isGenerating st;
         progressMessage := m;
         generationStatus := generationStatus st;
         driverCode := driverCode st;
         logs := logs st;
         generationTime := generationTime st;
         startTime := startTime st;
         genStartTime := genStartTime st;
         sourceOpen := sourceOpen st |}
  | log m e =>
      {| isGenerating := isGenerating st;
         progressMessage := progressMessage st;
         generationStatus := generationStatus st;
         driverCode := driverCode st;
         logs := sliceLast 100 (logs st) ++ [{| message := m; isError := e |}];
         generationTime := generationTime st;
         startTime := startTime st;
         genStartTime := genStartTime st;
         sourceOpen := sourceOpen st |}
  | complete ok _ code _ =>
      {| isGenerating := false;
         progressMessage :=
           if ok then lit "Generation complete!" else lit "Generation failed";
         generationStatus := if ok then success else failed;
         driverCode := if JsString.truthy code then code else driverCode st;
         logs := logs st;
         generationTime := Some (now - genStartTime st)%Z;
         startTime := startTime st;
         genStartTime := genStartTime st;
         sourceOpen := false |}
  | error m =>
      {| isGenerating := false;
         progressMessage := lit "Error: " ++ m;
         generationStatus := failed;
         driverCode := driverCode st;
         logs := logs st;
         generationTime := Some (now - genStartTime st)%Z;
         startTime := startTime st;
         genStartTime := genStartTime st;
         sourceOpen := false |}
  end.

(** [eventSource.onerror]. *)
Definition onerror (st : State) : State :=
  {| isGenerating := false;
     progressMessage := lit "Connection error";
     generationStatus := failed;
     driverCode := driverCode st;
     logs := logs st;
     generationTime := generationTime st;
     startTime := startTime st;
     genStartTime := genStartTime st;
     sourceOpen := false |}.

(** One event of the source; a closed source delivers nothing. *)
Definition deliver (st : State) (ev : SourceEvent) : State :=
  if sourceOpen st then
    match ev with
    | source_message now data => onmessage now data st
    | source_error => onerror st
    end
  else st.

Definition run (evs : list SourceEvent) (st : State) : State :=
  fold_left deliver evs st.

(** The log entries among the messages, in order. *)
Definition logEntries (evs : list SourceEvent) : list LogEntry :=
  flat_map
    (fun ev =>
       match ev with
       | source_message _ (log m e) => [{| message := m; isError := e |}]
       | _ => []
       end) evs.

(** An event after which the handlers close the source. *)
Definition closes (ev : SourceEvent) : bool :=
  match ev with
  | source_message _ data => isTerminal data
  | source_error => true
  end.

(** The events up to the first one that closes the source, that one
    included. *)
Fixpoint untilClose (evs : list SourceEvent) : list SourceEvent :=
  match evs with
  | [] => []
  | ev :: rest => if closes ev then [ev] else ev :: untilClose rest
  end.

(** The server's events as messages, each at its time. *)
Definition stamped (times : list Z) (evs : list Event) : list SourceEvent :=
  map (fun p => source_message (fst p) (snd p)) (combine times evs).

(** A full selection, and the state of the component before any run. *)
Definition sampleInputs : Inputs :=
  {| selectedProject := lit "demo";
     selectedFile := lit "parser.c";
     selectedFunction := lit "parse";
     modelSetting := lit "gpt-4o";
     maxIterationsSetting := lit "5" |}.

Definition idleState : State :=
  {| isGenerating := false;
     progressMessage := [];
     generationStatus := idle;
     driverCode := [];
     logs := [];
     generationTime := None;
     startTime := None;
     genStartTime := 0%Z;
     sourceOpen := false |}.

End Client.

(* ===================================================================== *)
(** ** [GET /api/driver/:filename] *)
(* ===================================================================== *)

(** What a handler answers: the status with the [error] of a failure, or
    the body of a success. *)
Inductive HttpReply : Type :=
| reply_error (code : Z) (error : jsstring)
| reply_driver (content filename : jsstring)
| reply_projects (projects : list Projects.Project)
| reply_files (files : list Files.FileInfo)
| reply_functions (functions : list jsstring)
| reply_uncaught.   (* an exception left the handler *)

(** The handler of [/api/projects]. *)
Definition getProjects (w : World) : HttpReply :=
  match sh w (lit "tisaidga list") with
  | ExecOutput result => reply_projects (Projects.parse result)
  | ExecThrows message => reply_error 500 message
  end.

(** The handler of [/api/projects/:project/files]. *)
Definition getFiles (w : World) (project : jsstring) : HttpReply :=
  match sh w (lit "tisaidga list " ++ project ++ lit " -v") with
  | ExecOutput result => reply_files (Files.parse result)
  | ExecThrows message => reply_error 500 message
  end.

(** The handler of [/api/projects/:project/files/:filename/functions].
    Two things it uses are taken as given: [recordPath text] is
    [JSON.parse(text).path], a string or the exception of a text that does
    not parse; [readError p] is the message of the exception
    [fs.readFileSync(p)] throws when [p] cannot be read. *)
Section FunctionsEndpoint.

Variable recordPath : jsstring -> Outcome jsstring.
Variable readError : jsstring -> jsstring.

(** [fs.readFileSync(p, 'utf-8')]. *)
Definition readFileSync (p : jsstring) : M jsstring :=
  fun s =>
    (match read_in (world s) p with
     | Some text => Ret text
     | None => Throw (readError p)
     end, s).

(** The body of the [try]. *)
Definition getFunctionsBody (cfg : Config) (project filename : jsstring)
  : M HttpReply :=
  let projectDir :=
    Path.join [PROJECT_ROOT cfg; lit ".tisaidga"; lit "projects"; project] in
  let fileInfoPath :=
    Path.join [projectDir; lit "files"; filename ++ lit ".json"] in
  b <- existsSync fileInfoPath ;;
  if negb b then ret (reply_error 404 (lit "File not found in project"))
  else
    text <- readFileSync fileInfoPath ;;
    remotePath <- (fun s => (recordPath text, s)) ;;
    sourcePath <- resolveSourcePath cfg remotePath filename ;;
    match sourcePath with
    | Some (c :: p) =>
        sourceCode <- readFileSync (c :: p) ;;
        ret (reply_functions (Functions.extract sourceCode))
    | _ =>
        ret (reply_error 404
               (lit "Source file not found locally. Remote path: "
                ++ remotePath
                ++ lit ". Set LOCAL_SOURCE_ROOT env var to map paths."))
    end.

(** The handler: the [catch] answers 500 with the message. *)
Definition getFunctions (cfg : Config) (project filename : jsstring)
           (w : World) : HttpReply :=
  match fst (run_resolver (getFunctionsBody cfg project filename) w) with
  | Ret reply => reply
  | Throw message => reply_error 500 message
  end.

End FunctionsEndpoint.

(** A world whose shell prints [output] for every command. *)
Definition printingWorld (output : jsstring) : World :=
  {| entry := fun _ => NoEntry; sh := fun _ => ExecOutput output |}.

(** The handler of [/api/driver/:filename]; it has no [try]. *)
Definition getDriver (w : World) (cfg : Config) (filename : jsstring)
  : HttpReply :=
  let driverPath := Path.join [PROJECT_ROOT cfg; lit "drivers"; filename] in
  if negb (exists_in w driverPath) then
    reply_error 404 (lit "Driver file not found")
  else
    match read_in w driverPath with
    | Some content => reply_driver content filename
    | None => reply_uncaught
    end.

(** The name under which the driver of a request is served. *)
Definition driverNameOf (q : Query) : jsstring :=
  lit "gui_" ++ asString (functionName q) ++ lit ".c".

(** The number of [spawn] calls in a log of effects. *)
Definition spawnCount (l : list Effect) : nat :=
  List.length
    (filter (fun e => match e with spawn _ _ _ => true | _ => false end) l).

(* ===================================================================== *)
(** ** A filesystem of files, and the [find] of step 4 run on it *)
(* ===================================================================== *)

Module Fs.

(** A name a directory entry of the model has: not empty, not [.] or
    [..], without [/] and NUL.  Names with a line feed, and names with a
    surrogate code unit (not UTF-8 text on disk), are left out. *)
Definition validName (n : jsstring) : bool :=
  JsString.truthy n
  && negb (Path.isDot n) && negb (Path.isDotDot n)
  && forallb (fun c => negb ((c =? 47) || (c =? 0) || (c =? 10)
                            || (55296 <=? c) && (c <=? 57343))%N) n.

(** The regular files of a filesystem, each with the names that lead to it
    from [/] and with its text, in the order a traversal of the directories
    meets them.  A directory is what a file lies under.  The order in which
    the directories hold their entries is part of the state: the same files
    in another order are another filesystem. *)
Definition t : Type := list (list jsstring * jsstring).

(** The absolute path that a list of names writes. *)
Definition pathOf (names : list jsstring) : jsstring :=
  List.concat (map (fun n => Path.SLASH :: n) names).

(** The names of an absolute path written without [.], [..], doubled or
    trailing [/]: the paths whose lookup only walks down from [/]. *)
Definition namesOf (p : jsstring) : option (list jsstring) :=
  match JsString.split Path.SLASH p with
  | [] :: n :: ns =>
      if forallb validName (n :: ns) then Some (n :: ns) else None
  | _ => None
  end.

Fixpoint sameNames (a b : list jsstring) : bool :=
  match a, b with
  | [], [] => true
  | x :: a', y :: b' => JsString.eqb x y && sameNames a' b'
  | _, _ => false
  end.

(** [a] leads to [b] or to a directory above [b]. *)
Fixpoint prefixOf (a b : list jsstring) : bool :=
  match a, b with
  | [], _ => true
  | x :: a', y :: b' => JsString.eqb x y && prefixOf a' b'
  | _ :: _, [] => false
  end.

(** What the names lead to: a file, a directory (which [readFileSync]
    cannot read), or nothing. *)
Definition entryOf (fs : t) (names : list jsstring) : FsEntry :=
  match List.find (fun f => sameNames (fst f) names) fs with
  | Some f => RegularFile (snd f)
  | None =>
      if existsb (fun f => prefixOf names (fst f)) fs
      then NotReadable else NoEntry
  end.



(** The test of [find <root> -maxdepth <d> -name <name> -type f] on one
    file, for a [name] without pattern characters: the file is the
    starting point or lies below it, at most [d] levels down, and its last
    name is [name]. *)
Definition found (maxDepth : nat) (root : list jsstring) (name : jsstring)
           (names : list jsstring) : bool :=
  prefixOf root names
  && (List.length names - List.length root <=? maxDepth)%nat
  && JsString.eqb (last names []) name.

(** The files [find] prints, in the order it meets them. *)
Definition findFiles (maxDepth : nat) (fs : t) (root : list jsstring)
           (name : jsstring) : list (list jsstring) :=
  filter (found maxDepth root name) (map fst fs).

(** [| head -1]: the output up to its first line feed, with it. *)
Fixpoint head1 (out : jsstring) : jsstring :=
  match out with
  | [] => []
  | c :: rest => if (c =? JsString.LF)%N then [c] else c :: head1 rest
  end.

(** Text that stands for itself between double quotes in a shell command:
    no double quote, [$], backslash or backquote. *)
Definition shellLiteral (s : jsstring) : bool :=
  forallb (fun c => negb ((c =? 34) || (c =? 36) || (c =? 92) || (c =? 96))%N)
          s.

(** Text that [-name] takes as a name and not as a pattern: no [*], [?]
    or [[]. *)
Definition globFree (s : jsstring) : bool :=
  forallb (fun c => negb ((c =? 42) || (c =? 63) || (c =? 91))%N) s.

(** A word in double quotes at the start of [s]: its text, and what
    follows the closing quote. *)
Definition quoted (s : jsstring) : option (jsstring * jsstring) :=
  match s with
  | c :: s' =>
      if (c =? JsString.DQUOTE)%N then
        let (text, rest) :=
          JsString.span (fun x => negb (x =? JsString.DQUOTE)%N) s' in
        match rest with
        | _ :: rest' => if shellLiteral text then Some (text, rest') else None
        | [] => None
        end
      else None
  | [] => None
  end.

(** What follows [prefix] in [s]. *)
Definition after (prefix s : jsstring) : option jsstring :=
  if JsString.startsWith s prefix
  then Some (skipn (List.length prefix) s) else None.

(** A command that is
    [find "<root>" -maxdepth <d> -name "<name>" -type f 2>/dev/null | head -1]
    with literal text between the quotes: its starting point, depth and
    name.  Such a command reads directories and writes nothing. *)
Definition parseFind (command : jsstring)
  : option (jsstring * nat * jsstring) :=
  match after (lit "find ") command with
  | None => None
  | Some s1 =>
  match quoted s1 with
  | None => None
  | Some (root, s2) =>
  match after (lit " -maxdepth ") s2 with
  | None => None
  | Some s3 =>
  let (digits, s4) := JsString.span JsString.isDigit s3 in
  match digits with
  | [] => None
  | _ :: _ =>
  match after (lit " -name ") s4 with
  | None => None
  | Some s5 =>
  match quoted s5 with
  | None => None
  | Some (name, s6) =>
      if JsString.eqb s6 (lit " -type f 2>/dev/null | head -1")
      then Some (root, N.to_nat (decimalValue digits), name)
      else None
  end end end end end end.

(** What such a command prints on the files [fs], when its starting point
    is a path the model follows and its name is a plain name: the first
    line of the paths of the files found, each written as the starting
    point followed by the names below it. *)
Definition runFind (fs : t) (command : jsstring) : option jsstring :=
  match parseFind command with
  | Some (root, maxDepth, name) =>
      match namesOf root with
      | Some rootNames =>
          if validName name && globFree name then
            Some (head1
                    (List.concat
                       (map (fun names => pathOf names ++ [JsString.LF])
                            (findFiles maxDepth fs rootNames name))))
          else None
      | None => None
      end
  | None => None
  end.

(** The world of a server that sees the files [fs].  The lookup of a path
    the model does not follow is left to [elsewhere], and every other
    command to [otherwise]: nothing is said about them. *)
Definition asWorld (fs : t) (elsewhere : jsstring -> FsEntry)
           (otherwise : jsstring -> ExecResult) : World :=
  {| entry := fun p =>
       match namesOf p with
       | Some names => entryOf fs names
       | None => elsewhere p
       end;
     sh := fun command =>
       match runFind fs command with
       | Some out => ExecOutput out
       | None => otherwise command
       end |}.

(** A file name that reaches [find] as it is and comes back as it is:
    valid, literal between the quotes, no pattern, and no white space at
    its end for [trim] to take. *)
Definition plainName (name : jsstring) : bool :=
  validName name && shellLiteral name && globFree name
  && negb (JsString.isWhiteSpace (last name 0%N)).


End Fs.


(** Files under the root of [sampleConfig]: [parser.c] six levels down,
    then three levels down, then one more; and one outside the root. *)
Definition sampleFiles : Fs.t :=
  [ ([lit "srv"; lit "tis-aidga"; lit "vendor"; lit "a"; lit "b"; lit "c";
      lit "d"; lit "parser.c"], lit "/* too deep */");
    ([lit "srv"; lit "tis-aidga"; lit "lib"; lit "json"; lit "parser.c"],
     lit "int parse(void);");
    ([lit "srv"; lit "tis-aidga"; lit "tests"; lit "parser.c"],
     lit "int main(void);");
    ([lit "home"; lit "ci"; lit "parser.c"], lit "/* elsewhere */") ].

(** A world on [sampleFiles] where every other lookup finds nothing and
    every other command fails with [message]. *)
Definition sampleFilesWorld (message : jsstring) : World :=
  Fs.asWorld sampleFiles (fun _ => NoEntry) (fun _ => ExecThrows message).

(** The probes that run a shell command. *)
Definition execCount (l : list Probe) : nat :=
  List.length
    (filter (fun p => match p with probe_exec _ => true | _ => false end) l).

(** An accepted request, and a world in which its artifact was written. *)
Definition sampleQuery : Query :=
  {| project := Some (lit "demo");
     filename := Some (lit "parser.c");
     functionName := Some (lit "parse");
     model := None;
     maxIterations := None |}.

Definition sampleDriver : jsstring := lit "int main(void) { return 0; }".

Definition artifactWorld : World :=
  oneFileWorld (lit "/srv/tis-aidga/drivers/gui_parse.c") sampleDriver.

(** A world in which the artifact path of [sampleQuery] is a directory. *)
Definition unreadableWorld : World :=
  {| entry := fun p =>
       if JsString.eqb p (lit "/srv/tis-aidga/drivers/gui_parse.c")
       then NotReadable else NoEntry;
     sh := fun _ => ExecOutput [] |}.

(* ===================================================================== *)
(** * Properties of the resolver *)
(* ===================================================================== *)

Section Resolver.

Variable cfg : Config.

(** Case analysis on everything a resolution branches on. *)
Ltac split_run :=
  repeat (simpl in *;
          match goal with
          | |- context [if ?b then _ else _] => destruct b eqn:?
          | |- context [match ?x with Some _ => _ | None => _ end] =>
              destruct x eqn:?
          | |- context [match ?x with ExecOutput _ => _ | ExecThrows _ => _ end] =>
              destruct x eqn:?
          end).

Ltac unfold_run :=
  unfold resolveSourcePath, fallbackChain, directProbe, rootRemapping,
    siblingSearch, boundedRecursiveSearch, candidate, firstExisting,
    firstSuccess, try_catch, bind, ret, existsSync, execSync, record_probe.

Lemma candidate_run (p : jsstring) (s : RState) :
  candidate p s
  = (Ret (if exists_in (world s) p then Some p else None),
     record_probe (probe_exists p) s).
Proof. reflexivity. Qed.

(** The source, with its early returns, is the chain of four strategies. *)
Lemma resolve_is_chain (remotePath fname : jsstring) (s : RState) :
  resolveSourcePath cfg remotePath fname s
  = firstSuccess (fallbackChain cfg remotePath fname) s.
Proof. unfold_run. split_run; try reflexivity; congruence. Qed.


Lemma firstSuccess_allFail (ss : list Strategy) :
  forall s s', allFail ss s s' -> firstSuccess ss s = (Ret None, s').
Proof.
  induction ss as [|s0 rest IH]; intros s s' H; simpl in *.
  - subst. reflexivity.
  - destruct H as (mid & Hf & Hrest). unfold bind. rewrite Hf. auto.
Qed.

(** No strategy of the chain throws. *)
Lemma chain_never_throws (remotePath fname : jsstring) (s : RState) :
  exists r s', resolveSourcePath cfg remotePath fname s = (Ret r, s').
Proof. unfold_run. split_run; eauto. Qed.

(** What a resolution returns exists in the world it ran in. *)
Lemma resolve_sound (remotePath fname : jsstring) (s : RState) p s' :
  resolveSourcePath cfg remotePath fname s = (Ret (Some p), s') ->
  exists_in (world s) p = true.
Proof.
  unfold_run. split_run; intros H; inversion H; subst; try assumption;
    try discriminate.
Qed.

Lemma readsOnly_ret {A} (a : A) : readsOnly (ret a).
Proof.
  intros w. exists (Ret a), []. intros lg. unfold ret.
  rewrite app_nil_r. reflexivity.
Qed.

Lemma readsOnly_bind {A B} (m : M A) (k : A -> M B) :
  readsOnly m -> (forall a, readsOnly (k a)) -> readsOnly (bind m k).
Proof.
  intros Hm Hk w. destruct (Hm w) as (o & l & Ho).
  destruct o as [a | e].
  - destruct (Hk a w) as (o' & l' & Ho').
    exists o', (l ++ l'). intros lg. unfold bind.
    rewrite Ho, Ho', app_assoc. reflexivity.
  - exists (Throw e), l. intros lg. unfold bind. rewrite Ho. reflexivity.
Qed.

Lemma readsOnly_try_catch {A} (m h : M A) :
  readsOnly m -> readsOnly h -> readsOnly (try_catch m h).
Proof.
  intros Hm Hh w. destruct (Hm w) as (o & l & Ho).
  destruct o as [a | e].
  - exists (Ret a), l. intros lg. unfold try_catch. rewrite Ho. reflexivity.
  - destruct (Hh w) as (o' & l' & Ho').
    exists o', (l ++ l'). intros lg. unfold try_catch.
    rewrite Ho, Ho', app_assoc. reflexivity.
Qed.

Lemma readsOnly_existsSync (p : jsstring) : readsOnly (existsSync p).
Proof.
  intros w. exists (Ret (exists_in w p)), [probe_exists p].
  intros lg. reflexivity.
Qed.

Lemma readsOnly_execSync (c : jsstring) : readsOnly (execSync c).
Proof.
  intros w.
  exists (match sh w c with ExecOutput out => Ret out | ExecThrows e => Throw e end),
         [probe_exec c].
  intros lg. reflexivity.
Qed.

Lemma readsOnly_firstExisting (ps : list jsstring) :
  readsOnly (firstExisting ps).
Proof.
  induction ps as [|p ps IH]; simpl.
  - apply readsOnly_ret.
  - apply readsOnly_bind; [apply readsOnly_existsSync|].
    intros []; [apply readsOnly_ret | exact IH].
Qed.

Create HintDb reads.

#[local] Hint Resolve readsOnly_ret readsOnly_existsSync readsOnly_execSync
  readsOnly_firstExisting : reads.

Lemma readsOnly_resolve (remotePath fname : jsstring) :
  readsOnly (resolveSourcePath cfg remotePath fname).
Proof.
  unfold resolveSourcePath.
  repeat (first
    [ apply readsOnly_bind
    | apply readsOnly_try_catch
    | solve [auto with reads]
    | match goal with
      | |- forall _, _ => intro
      | |- readsOnly (if ?b then _ else _) => destruct b
      | |- readsOnly (match ?x with Some _ => _ | None => _ end) => destruct x
      end ]).
Qed.

(** C6. The resolver never throws: in every world, also one where lookups
    fail and where the [find] command throws, it returns a result; when the
    four strategies all find nothing the result is [null]; and when nothing
    the resolver can name exists the result is [null] whatever [find] does. *)
Theorem resolver_total (remotePath fname : jsstring) (s : RState) :
  (exists r s', resolveSourcePath cfg remotePath fname s = (Ret r, s'))
  /\ (forall s',
        allFail (fallbackChain cfg remotePath fname) s s' ->
        resolveSourcePath cfg remotePath fname s = (Ret None, s'))
  /\ ((forall p, exists_in (world s) p = false) ->
      fst (resolveSourcePath cfg remotePath fname s) = Ret None).
Proof.
  split; [apply chain_never_throws|]. split.
  - intros s' H. rewrite resolve_is_chain. apply firstSuccess_allFail, H.
  - intros Hnone.
    destruct (chain_never_throws remotePath fname s) as ([p|] & s' & E);
      rewrite E; [|reflexivity].
    apply resolve_sound in E. rewrite Hnone in E. discriminate E.
Qed.

End Resolver.

(** A hit of the first strategy costs one probe. *)
Example resolve_direct_hit :
  run_resolver
    (resolveSourcePath sampleConfig (lit "/tmp/a.c") (lit "a.c"))
    (oneFileWorld (lit "/tmp/a.c") [])
  = (Ret (Some (lit "/tmp/a.c")),
     {| world := oneFileWorld (lit "/tmp/a.c") [];
        probes := [probe_exists (lit "/tmp/a.c")] |}).
Proof. reflexivity. Qed.

(** A hit of the root remapping costs two probes; the sibling locations
    and [find] are not tried. *)
Example resolve_remapped_hit :
  run_resolver
    (resolveSourcePath sampleConfig (lit "/home/ci/work/proj/a.c") (lit "a.c"))
    (oneFileWorld (lit "/Users/me/work/proj/a.c") [])
  = (Ret (Some (lit "/Users/me/work/proj/a.c")),
     {| world := oneFileWorld (lit "/Users/me/work/proj/a.c") [];
        probes := [ probe_exists (lit "/home/ci/work/proj/a.c");
                    probe_exists (lit "/Users/me/work/proj/a.c") ] |}).
Proof. vm_compute. reflexivity. Qed.

(** Nothing to find and a [find] that throws: [null], after the four
    strategies were tried in order. *)
Example resolve_hostile :
  run_resolver
    (resolveSourcePath sampleConfig (lit "/nonexistent/x.c") (lit "x.c"))
    hostileWorld
  = (Ret None,
     {| world := hostileWorld;
        probes := [ probe_exists (lit "/nonexistent/x.c");
                    probe_exists (lit "/srv/tis-aidga/x.c");
                    probe_exists (lit "/srv/tis-aidga/src/x.c");
                    probe_exec (findCommand sampleConfig (lit "x.c")) ] |}).
Proof. vm_compute. reflexivity. Qed.

Lemma startsWith_split (needle s : jsstring) :
  JsString.startsWith s needle = true ->
  s = needle ++ skipn (List.length needle) s.
Proof.
  revert s. induction needle as [|n needle IH]; intros s H.
  - reflexivity.
  - destruct s as [|c s]; [discriminate H|].
    simpl in H. apply andb_true_iff in H. destruct H as [Hc Hs].
    apply N.eqb_eq in Hc. subst c. simpl. f_equal. apply IH, Hs.
Qed.

(** The match of step 2 is an occurrence of [/work/] and what follows it,
    which is not empty. *)
Lemma workMatch_some (remotePath suffix : jsstring) :
  workMatch remotePath = Some suffix ->
  suffix <> [] /\ exists before, remotePath = before ++ lit "/work/" ++ suffix.
Proof.
  induction remotePath as [|c rest IH]; intros H.
  - discriminate H.
  - simpl in H. destruct (workMatchAt (c :: rest)) as [m|] eqn:E.
    + inversion H; subst m. unfold workMatchAt in E.
      destruct (JsString.startsWith (c :: rest) (lit "/work/")) eqn:Es;
        [|discriminate E].
      apply startsWith_split in Es.
      change (List.length (lit "/work/")) with 6 in Es.
      destruct (skipn 6 (c :: rest)) as [|x xs] eqn:Ek; [discriminate E|].
      destruct (forallb _ (x :: xs)); [|discriminate E].
      inversion E; subst suffix. split; [discriminate|].
      exists []. exact Es.
    + destruct (IH H) as (Hne & before & ->).
      split; [exact Hne|]. exists (c :: before). reflexivity.
Qed.

(** A path without [/work/] in it is not remapped. *)
Lemma workMatch_none (remotePath : jsstring) :
  JsString.includes remotePath (lit "/work/") = false ->
  workMatch remotePath = None.
Proof.
  induction remotePath as [|c rest IH]; intros H.
  - reflexivity.
  - change (JsString.includes (c :: rest) (lit "/work/"))
      with (JsString.startsWith (c :: rest) (lit "/work/")
            || JsString.includes rest (lit "/work/")) in H.
    apply orb_false_iff in H. destruct H as [Hs Hi].
    change (workMatch (c :: rest))
      with (match workMatchAt (c :: rest) with
            | Some suffix => Some suffix
            | None => workMatch rest
            end).
    unfold workMatchAt. rewrite Hs. apply IH, Hi.
Qed.

(** The anchor needs something after it: a path that ends with it is not
    remapped either. *)
Example workMatch_examples :
  workMatch (lit "/home/ci/work/proj/a.c") = Some (lit "proj/a.c")
  /\ workMatch (lit "/home/ci/work/") = None
  /\ workMatch (lit "/work/a/work/b.c") = Some (lit "a/work/b.c").
Proof. repeat split; vm_compute; reflexivity. Qed.

(* ===================================================================== *)
(** * Properties of the line classifier *)
(* ===================================================================== *)

Section Classifier.

Lemma trimStart_nil (s : jsstring) :
  JsString.trimStart s = [] -> forallb JsString.isWhiteSpace s = true.
Proof.
  induction s as [|c s IH]; simpl; intros H; [reflexivity|].
  destruct (JsString.isWhiteSpace c); [auto | discriminate H].
Qed.

Lemma trimStart_head (s : jsstring) c rest :
  JsString.trimStart s = c :: rest -> JsString.isWhiteSpace c = false.
Proof.
  induction s as [|x s IH]; simpl; intros H; [discriminate H|].
  destruct (JsString.isWhiteSpace x) eqn:E; [auto|].
  inversion H; subst. exact E.
Qed.

Lemma forallb_rev {A} (f : A -> bool) (l : list A) :
  forallb f (rev l) = forallb f l.
Proof.
  induction l as [|a l IH]; simpl; [reflexivity|].
  rewrite forallb_app, IH. simpl. rewrite andb_true_r. apply andb_comm.
Qed.

(** A line that trims to nothing is made of white space. *)
Lemma trim_nil_blank (s : jsstring) :
  JsString.trim s = [] -> forallb JsString.isWhiteSpace s = true.
Proof.
  unfold JsString.trim, JsString.trimEnd. intros H.
  apply (f_equal (@rev N)) in H. rewrite rev_involutive in H. simpl in H.
  apply trimStart_nil in H. rewrite forallb_rev in H.
  destruct (JsString.trimStart s) as [|c rest] eqn:E.
  - apply trimStart_nil, E.
  - apply trimStart_head in E. simpl in H. rewrite E in H. discriminate H.
Qed.

(** A string of white space contains no word that starts with another
    character. *)
Lemma blank_includes (needle s : jsstring) :
  forallb JsString.isWhiteSpace s = true ->
  match needle with
  | [] => false
  | n :: _ => negb (JsString.isWhiteSpace n)
  end = true ->
  JsString.includes s needle = false.
Proof.
  intros Hs Hn. destruct needle as [|n needle]; [discriminate Hn|].
  apply negb_true_iff in Hn.
  induction s as [|c s IH]; [reflexivity|].
  simpl in Hs. apply andb_true_iff in Hs. destruct Hs as [Hc Hs].
  simpl. rewrite (IH Hs), orb_false_r.
  destruct (N.eqb c n) eqn:E; [|reflexivity].
  apply N.eqb_eq in E. subst. congruence.
Qed.

(** The five words the classifier looks for. *)
Lemma classify_generating (line : jsstring) :
  JsString.includes line (lit "Generating driver") = true ->
  classifyLine line = Some (status (lit "Generating initial driver code...")).
Proof. unfold classifyLine. intros ->. reflexivity. Qed.

Lemma classify_running (line : jsstring) :
  JsString.includes line (lit "Generating driver") = false ->
  JsString.includes line (lit "Running TIS") = true ->
  classifyLine line = Some (status (lit "Validating with TIS Analyzer...")).
Proof. unfold classifyLine. intros -> ->. reflexivity. Qed.

Lemma classify_iteration (line n : jsstring) :
  JsString.includes line (lit "Generating driver") = false ->
  JsString.includes line (lit "Running TIS") = false ->
  JsString.includes line (lit "Iteration") = true ->
  iterMatch line = Some n ->
  classifyLine line
  = Some (status (lit "Refinement iteration " ++ n ++ lit "...")).
Proof. unfold classifyLine. intros -> -> -> ->. reflexivity. Qed.

Lemma classify_success (line : jsstring) :
  JsString.includes line (lit "Generating driver") = false ->
  JsString.includes line (lit "Running TIS") = false ->
  JsString.includes line (lit "Iteration") = false ->
  JsString.includes line (lit "SUCCESS") = true ->
  classifyLine line = Some (status (lit "Driver generation successful!")).
Proof. unfold classifyLine. intros -> -> -> ->. reflexivity. Qed.

Lemma classify_failed (line : jsstring) :
  JsString.includes line (lit "Generating driver") = false ->
  JsString.includes line (lit "Running TIS") = false ->
  JsString.includes line (lit "Iteration") = false ->
  JsString.includes line (lit "SUCCESS") = false ->
  JsString.includes line (lit "FAILED") = true ->
  classifyLine line = Some (status (lit "Driver generation failed")).
Proof. unfold classifyLine. intros -> -> -> -> ->. reflexivity. Qed.

(** The classifier never yields a terminal event. *)
Lemma classify_not_terminal (line : jsstring) ev :
  classifyLine line = Some ev -> isTerminal ev = false.
Proof.
  unfold classifyLine. intros H.
  repeat match type of H with
         | (if ?b then _ else _) = _ => destruct b
         | match ?x with Some _ => _ | None => _ end = _ => destruct x
         end;
    inversion H; reflexivity.
Qed.

(** C5, as the code has it.  A line of white space gives no event; a line
    with something else on it and none of the five words gives one [log]
    event whose message is the line without the white space at its ends;
    and no line gives more than one event. *)
Theorem classify_fallthrough (line : jsstring) :
  (JsString.trim line = [] -> classifyLine line = None)
  /\ (JsString.trim line <> [] ->
      markerFree line = true ->
      classifyLine line = Some (log (JsString.trim line) false))
  /\ List.length (optList (classifyLine line)) <= 1.
Proof.
  split; [|split].
  - intros H. pose proof (trim_nil_blank _ H) as Hb.
    unfold classifyLine.
    rewrite (@blank_includes (lit "Generating driver") line Hb eq_refl).
    rewrite (@blank_includes (lit "Running TIS") line Hb eq_refl).
    rewrite (@blank_includes (lit "Iteration") line Hb eq_refl).
    rewrite (@blank_includes (lit "SUCCESS") line Hb eq_refl).
    rewrite (@blank_includes (lit "FAILED") line Hb eq_refl).
    rewrite H. reflexivity.
  - intros Hne Hfree. unfold markerFree in Hfree.
    repeat rewrite andb_true_iff in Hfree. repeat rewrite negb_true_iff in Hfree.
    destruct Hfree as ((((H1 & H2) & H3) & H4) & H5).
    unfold classifyLine. rewrite H1, H2, H3, H4, H5.
    destruct (JsString.trim line); [contradiction|reflexivity].
  - destruct (classifyLine line); simpl; lia.
Qed.

Lemma classify_fallthrough_witness :
  classifyLine (lit "   ") = None
  /\ classifyLine (lit "  random compiler note ")
     = Some (log (lit "random compiler note") false).
Proof.
  split.
  - apply (proj1 (classify_fallthrough (lit "   "))). reflexivity.
  - apply (proj1 (proj2 (classify_fallthrough (lit "  random compiler note ")))).
    + vm_compute. discriminate.
    + vm_compute. reflexivity.
Defined.

(** The message of a [log] event is not the raw line when the line has
    white space at an end. *)
Lemma classify_log_not_raw :
  classifyLine (lit "  random compiler note")
  = Some (log (lit "random compiler note") false)
  /\ classifyLine (lit "  random compiler note")
     <> Some (log (lit "  random compiler note") false).
Proof. split; [vm_compute; reflexivity | vm_compute; discriminate]. Qed.

(** A line with the word [Iteration] and no number after it gives no event
    at all, whatever else is on it. *)
Example classify_iteration_without_number :
  classifyLine (lit "Iteration limit reached") = None
  /\ classifyLine (lit "Iteration budget spent: FAILED") = None.
Proof. split; vm_compute; reflexivity. Qed.

(** C4, at a line the code misses.  The regular expression has the [i]
    flag, but it is only tried on a line that contains [Iteration] spelled
    exactly so: a lower-case [iteration 3 of 5] is logged as it is. *)
Theorem classify_lowercase_iteration :
  iterMatch (lit "iteration 3 of 5") = Some (lit "3")
  /\ classifyLine (lit "iteration 3 of 5")
     = Some (log (lit "iteration 3 of 5") false)
  /\ classifyLine (lit "Iteration 3 of 5")
     = Some (status (lit "Refinement iteration 3...")).
Proof. repeat split; vm_compute; reflexivity. Qed.

End Classifier.

(* ===================================================================== *)
(** * Properties of the generation handler *)
(* ===================================================================== *)

Section Generation.

Variable w : World.
Variable cfg : Config.

Lemma written_emit (e : Effect) (st : GenState) :
  written (emit e st)
  = written st ++ match e with res_write ev => [ev] | _ => [] end.
Proof.
  unfold written, emit. simpl. rewrite flat_map_app. simpl.
  rewrite app_nil_r. reflexivity.
Qed.

Lemma sendEvent_fields (ev : Event) (st : GenState) :
  effects (sendEvent ev st) = effects st ++ [writeEffect st ev]
  /\ ended (sendEvent ev st) = ended st
  /\ childLive (sendEvent ev st) = childLive st
  /\ crashed (sendEvent ev st) = crashed st
  /\ clientGone (sendEvent ev st) = clientGone st.
Proof.
  unfold sendEvent, writeEffect.
  destruct (ended st) eqn:E; [|destruct (clientGone st) eqn:G]; simpl;
    rewrite ?E, ?G; auto.
Qed.

Lemma writeEffect_same (a b : GenState) :
  ended a = ended b -> clientGone a = clientGone b ->
  writeEffect a = writeEffect b.
Proof. unfold writeEffect. intros -> ->. reflexivity. Qed.

(** The loop of the stdout callback, from any state. *)
Lemma lines_fold (ls : list jsstring) :
  forall acc,
    effects (fold_left
               (fun acc line =>
                  match classifyLine line with
                  | Some ev => sendEvent ev acc
                  | None => acc
                  end) ls acc)
    = effects acc
      ++ map (writeEffect acc)
             (flat_map (fun line => optList (classifyLine line)) ls)
    /\ ended (fold_left
                (fun acc line =>
                   match classifyLine line with
                   | Some ev => sendEvent ev acc
                   | None => acc
                   end) ls acc) = ended acc
    /\ childLive (fold_left
                    (fun acc line =>
                       match classifyLine line with
                       | Some ev => sendEvent ev acc
                       | None => acc
                       end) ls acc) = childLive acc
    /\ crashed (fold_left
                  (fun acc line =>
                     match classifyLine line with
                     | Some ev => sendEvent ev acc
                     | None => acc
                     end) ls acc) = crashed acc
    /\ clientGone (fold_left
                     (fun acc line =>
                        match classifyLine line with
                        | Some ev => sendEvent ev acc
                        | None => acc
                        end) ls acc) = clientGone acc.
Proof.
  induction ls as [|l ls IH]; intros acc; simpl.
  - rewrite app_nil_r. auto.
  - destruct (classifyLine l) as [ev|]; simpl; [|apply IH].
    destruct (IH (sendEvent ev acc)) as (He & Hn & Hl & Hc & Hg).
    destruct (sendEvent_fields ev acc) as (Fe & Fn & Fl & Fc & Fg).
    rewrite He, Hn, Hl, Hc, Hg, Fe, Fn, Fl, Fc, Fg, <- app_assoc.
    rewrite (writeEffect_same (sendEvent ev acc) acc Fn Fg). auto.
Qed.

Lemma onStdout_run (text : jsstring) (st : GenState) :
  effects (onStdout text st)
  = effects st ++ map (writeEffect st) (classifyChunk text)
  /\ ended (onStdout text st) = ended st
  /\ childLive (onStdout text st) = childLive st
  /\ crashed (onStdout text st) = crashed st.
Proof.
  unfold onStdout, classifyChunk.
  match goal with
  | |- context [fold_left _ ?ls ?acc] =>
      pose proof (lines_fold ls acc) as H
  end.
  simpl in H. destruct H as (H1 & H2 & H3 & H4 & _). auto.
Qed.

Lemma onStdout_clientGone (text : jsstring) (st : GenState) :
  clientGone (onStdout text st) = clientGone st.
Proof.
  unfold onStdout.
  match goal with
  | |- context [fold_left _ ?ls ?acc] =>
      pose proof (lines_fold ls acc) as H
  end.
  simpl in H. destruct H as (_ & _ & _ & _ & H). exact H.
Qed.

Lemma writes_of_accepted (evs : list Event) :
  flat_map (fun e => match e with res_write ev => [ev] | _ => [] end)
           (map res_write evs) = evs.
Proof. induction evs as [|e evs IH]; simpl; congruence. Qed.

Lemma writes_of_refused (evs : list Event) :
  flat_map (fun e => match e with res_write ev => [ev] | _ => [] end)
           (map res_write_after_end evs) = [].
Proof. induction evs as [|e evs IH]; simpl; congruence. Qed.

Lemma writes_of_dropped (evs : list Event) :
  flat_map (fun e => match e with res_write ev => [ev] | _ => [] end)
           (map res_write_after_close evs) = [].
Proof. induction evs as [|e evs IH]; simpl; congruence. Qed.

Lemma onStdout_written (text : jsstring) (st : GenState) :
  written (onStdout text st)
  = written st ++ (if takesWrites st then classifyChunk text else []).
Proof.
  unfold written. destruct (onStdout_run text st) as (-> & _).
  rewrite flat_map_app. f_equal. unfold writeEffect, takesWrites.
  destruct (ended st); [apply writes_of_refused|].
  destruct (clientGone st); [apply writes_of_dropped|].
  apply writes_of_accepted.
Qed.

(** One write, seen on the stream. *)
Lemma sendEvent_written (ev : Event) (st : GenState) :
  written (sendEvent ev st)
  = written st ++ (if takesWrites st then [ev] else []).
Proof.
  unfold sendEvent, takesWrites.
  destruct (ended st); [|destruct (clientGone st)];
    rewrite written_emit; reflexivity.
Qed.

Lemma classifyChunk_nonTerminal (text : jsstring) :
  nonTerminal (classifyChunk text) = true.
Proof.
  unfold classifyChunk, nonTerminal.
  induction (JsString.split JsString.LF text) as [|l ls IH]; simpl; auto.
  rewrite forallb_app, IH, andb_true_r.
  destruct (classifyLine l) as [ev|] eqn:E; simpl; auto.
  rewrite (classify_not_terminal _ E). reflexivity.
Qed.

Ltac unfold_step :=
  unfold step, onClose, onError, onStderr, onReqClose, kill, hangUp,
    sendEvent, endResponse, handleLost, uncaught.

Lemma written_endResponse (st : GenState) :
  written (endResponse st) = written st.
Proof.
  unfold written, endResponse. simpl. rewrite flat_map_app. simpl.
  apply app_nil_r.
Qed.

(** What one turn of the event loop does to the stream: nothing once the
    response is ended; before that it adds events that are not terminal, or
    adds one terminal event and ends the response. *)
Lemma step_stream (o : jsstring) (st : GenState) (ev : NodeEvent) :
  let st' := step w cfg o st ev in
  (ended st = true -> written st' = written st /\ ended st' = true)
  /\ (ended st = false ->
      (exists evs, nonTerminal evs = true
                   /\ written st' = written st ++ evs)
      \/ (exists t, isTerminal t = true
                    /\ written st' = written st ++ [t]
                    /\ ended st' = true)).
Proof.
  cbv zeta.
  assert (Hoff : ended st = true -> takesWrites (handleLost st) = false
                                    /\ takesWrites st = false).
  { intros He. unfold takesWrites, handleLost. simpl. rewrite He. auto. }
  split; intros He.
  - destruct (Hoff He) as [Hl Ht].
    unfold step. destruct (crashed st); [auto|].
    destruct ev as [text|text| |code|[|] m|].
    + rewrite onStdout_written, Ht, app_nil_r.
      destruct (onStdout_run text st) as (_ & -> & _). auto.
    + unfold onStderr. rewrite sendEvent_written, Ht, app_nil_r.
      destruct (sendEvent_fields (log text true) st) as (_ & -> & _). auto.
    + unfold handleLost. auto.
    + unfold onClose.
      destruct (exists_in w _); [destruct (read_in w _)|];
        rewrite ?written_endResponse, ?sendEvent_written, ?Hl, ?app_nil_r;
        auto.
    + unfold onError.
      rewrite written_endResponse, sendEvent_written, Hl, app_nil_r. auto.
    + unfold onError.
      rewrite written_endResponse, sendEvent_written, Ht, app_nil_r. auto.
    + unfold onReqClose, kill. rewrite written_emit, app_nil_r. auto.
  - unfold step. destruct (crashed st).
    { left. exists []. rewrite app_nil_r. auto. }
    assert (Hsame : takesWrites (handleLost st) = takesWrites st)
      by reflexivity.
    destruct ev as [text|text| |code|[|] m|].
    + left. exists (if takesWrites st then classifyChunk text else []).
      rewrite onStdout_written.
      destruct (takesWrites st); auto using classifyChunk_nonTerminal.
    + left. exists (if takesWrites st then [log text true] else []).
      unfold onStderr. rewrite sendEvent_written.
      destruct (takesWrites st); auto.
    + left. exists []. unfold handleLost. rewrite app_nil_r. auto.
    + unfold onClose.
      destruct (exists_in w _); [destruct (read_in w _) as [j|]|];
        rewrite ?written_endResponse, ?sendEvent_written, ?Hsame.
      * destruct (takesWrites st);
          [right; exists (complete (isZero code) code j o); auto
          |left; exists []; auto].
      * left. exists []. unfold uncaught, handleLost.
        rewrite app_nil_r. auto.
      * destruct (takesWrites st);
          [right; exists (complete (isZero code) code [] o); auto
          |left; exists []; auto].
    + unfold onError.
      rewrite written_endResponse, sendEvent_written, Hsame.
      destruct (takesWrites st);
        [right; exists (error m); auto | left; exists []; auto].
    + unfold onError. rewrite written_endResponse, sendEvent_written.
      destruct (takesWrites st);
        [right; exists (error m); auto | left; exists []; auto].
    + left. exists []. unfold onReqClose, kill.
      rewrite written_emit, !app_nil_r. auto.
Qed.

(** Once the response is ended the stream does not change any more. *)
Lemma run_after_end (o : jsstring) (trace : list NodeEvent) :
  forall st,
    ended st = true ->
    written (fold_left (step w cfg o) trace st) = written st
    /\ ended (fold_left (step w cfg o) trace st) = true.
Proof.
  induction trace as [|ev trace IH]; intros st He; simpl; [auto|].
  destruct (step_stream o st ev) as [H _]. destruct (H He) as [Hw He'].
  destruct (IH _ He') as [Hw' He'']. rewrite Hw', Hw. auto.
Qed.

Lemma nonTerminal_app (a b : list Event) :
  nonTerminal (a ++ b) = nonTerminal a && nonTerminal b.
Proof. apply forallb_app. Qed.

(** The shape of the stream is kept by every run. *)
Lemma run_wellTerminated (o : jsstring) (trace : list NodeEvent) :
  forall st,
    (ended st = false -> nonTerminal (written st) = true) ->
    wellTerminated (written st) ->
    wellTerminated (written (fold_left (step w cfg o) trace st)).
Proof.
  induction trace as [|ev trace IH]; intros st Hopen Hwt; simpl; [exact Hwt|].
  destruct (ended st) eqn:He.
  - destruct (run_after_end o trace (step w cfg o st ev)) as [Hw _].
    + apply (proj1 (step_stream o st ev) He).
    + rewrite Hw. rewrite (proj1 (proj1 (step_stream o st ev) He)). exact Hwt.
  - destruct (proj2 (step_stream o st ev) He)
      as [(evs & Hnt & Hw) | (t & Ht & Hw & He')].
    + apply IH.
      * intros _. rewrite Hw, nonTerminal_app, Hnt, (Hopen eq_refl). reflexivity.
      * left. rewrite Hw, nonTerminal_app, Hnt, (Hopen eq_refl). reflexivity.
    + destruct (run_after_end o trace _ He') as [Hw' _]. rewrite Hw', Hw.
      right. exists (written st), t. auto.
Qed.

(** *** Runs of accepted requests *)

Lemma generateOpen_valid (q : Query) :
  validQuery q = true ->
  generateOpen cfg q
  = {| effects :=
         [ res_setHeader (lit "Content-Type") (lit "text/event-stream");
           res_setHeader (lit "Cache-Control") (lit "no-cache");
           res_setHeader (lit "Connection") (lit "keep-alive");
           res_write (startingEvent q);
           spawn (lit "tisaidga") (generateArgs q) (PROJECT_ROOT cfg) ];
       ended := false; clientGone := false; childLive := true;
       crashed := false; fullOutput := [] |}.
Proof.
  unfold validQuery, generateOpen. intros H. apply negb_true_iff in H.
  rewrite H. reflexivity.
Qed.

Lemma generate_valid (q : Query) (trace : list NodeEvent) :
  validQuery q = true ->
  generate w cfg q trace
  = fold_left (step w cfg (outputFileOf q)) trace (generateOpen cfg q).
Proof. unfold generate. intros ->. reflexivity. Qed.

Lemma generate_snoc (q : Query) (trace : list NodeEvent) (ev : NodeEvent) :
  validQuery q = true ->
  generate w cfg q (trace ++ [ev])
  = step w cfg (outputFileOf q) (generate w cfg q trace) ev.
Proof.
  intros H. rewrite !generate_valid by exact H.
  rewrite fold_left_app. reflexivity.
Qed.

(** Output that reaches an open response is classified and pushed, in
    order; the response stays open. *)
Lemma run_outputs_all (o : jsstring) (outs : list NodeEvent) :
  forall st,
    crashed st = false -> ended st = false -> clientGone st = false ->
    forallb beforeClose outs = true ->
    written (fold_left (step w cfg o) outs st)
    = written st ++ flat_map outputEvents outs
    /\ ended (fold_left (step w cfg o) outs st) = false
    /\ crashed (fold_left (step w cfg o) outs st) = false
    /\ (forallb isOutput outs = true ->
        childLive (fold_left (step w cfg o) outs st) = childLive st)
    /\ clientGone (fold_left (step w cfg o) outs st) = false.
Proof.
  induction outs as [|ev outs IH]; intros st Hc He Hg Ho; simpl.
  - rewrite app_nil_r. auto.
  - simpl in Ho. apply andb_true_iff in Ho. destruct Ho as [Hev Ho].
    assert (Ht : takesWrites st = true)
      by (unfold takesWrites; rewrite He, Hg; reflexivity).
    assert (Hs : written (step w cfg o st ev) = written st ++ outputEvents ev
                 /\ ended (step w cfg o st ev) = false
                 /\ crashed (step w cfg o st ev) = false
                 /\ (isOutput ev = true ->
                     childLive (step w cfg o st ev) = childLive st)
                 /\ clientGone (step w cfg o st ev) = false).
    { unfold step. rewrite Hc.
      destruct ev as [text|text| |code|c m|]; try discriminate Hev.
      - rewrite onStdout_written, Ht, onStdout_clientGone.
        destruct (onStdout_run text st) as (_ & -> & -> & ->). auto.
      - unfold onStderr. rewrite sendEvent_written, Ht.
        destruct (sendEvent_fields (log text true) st)
          as (_ & -> & -> & -> & ->). auto.
      - unfold handleLost, written. simpl. rewrite app_nil_r.
        repeat split; auto. discriminate. }
    destruct Hs as (Hw & He' & Hc' & Hl & Hg').
    destruct (IH _ Hc' He' Hg' Ho) as (Hw2 & He2 & Hc2 & Hl2 & Hg2).
    rewrite Hw2, Hw, <- app_assoc. repeat split; auto.
    intros Hall. apply andb_true_iff in Hall. destruct Hall as [H1 H2].
    rewrite (Hl2 H2). apply Hl, H1.
Qed.

Lemma run_outputs (o : jsstring) (outs : list NodeEvent) :
  forall st,
    crashed st = false -> ended st = false -> clientGone st = false ->
    forallb beforeClose outs = true ->
    written (fold_left (step w cfg o) outs st)
    = written st ++ flat_map outputEvents outs
    /\ ended (fold_left (step w cfg o) outs st) = false
    /\ crashed (fold_left (step w cfg o) outs st) = false
    /\ (forallb isOutput outs = true ->
        childLive (fold_left (step w cfg o) outs st) = childLive st).
Proof.
  intros st Hc He Hg Ho.
  destruct (run_outputs_all o outs st Hc He Hg Ho) as (H1 & H2 & H3 & H4 & _).
  auto.
Qed.

Lemma output_beforeClose (outs : list NodeEvent) :
  forallb isOutput outs = true -> forallb beforeClose outs = true.
Proof.
  induction outs as [|ev outs IH]; simpl; [auto|].
  intros H. apply andb_true_iff in H. destruct H as [H1 H2].
  rewrite (IH H2), andb_true_r. destruct ev; auto; discriminate.
Qed.

(** The close callback on an open response. *)
Lemma close_open (o : jsstring) (st : GenState) (code : option Z) driverCode :
  crashed st = false -> ended st = false -> clientGone st = false ->
  (if exists_in w (Path.join [PROJECT_ROOT cfg; o])
   then read_in w (Path.join [PROJECT_ROOT cfg; o])
   else Some []) = Some driverCode ->
  written (step w cfg o st (child_close code))
  = written st ++ [complete (isZero code) code driverCode o]
  /\ ended (step w cfg o st (child_close code)) = true.
Proof.
  intros Hc He Hg Hr. unfold step, onClose. rewrite Hc.
  assert (Ht : takesWrites (handleLost st) = true)
    by (unfold takesWrites, handleLost; simpl; rewrite He, Hg; reflexivity).
  destruct (exists_in w _).
  - rewrite Hr, written_endResponse, sendEvent_written, Ht. auto.
  - inversion Hr; subst.
    rewrite written_endResponse, sendEvent_written, Ht. auto.
Qed.

(** A run whose child prints, closes with [code], and leaves an artifact
    the callback can read (or none). *)
Lemma run_to_close (q : Query) outs code rest driverCode :
  validQuery q = true ->
  forallb beforeClose outs = true ->
  (if exists_in w (outputPathOf cfg q)
   then read_in w (outputPathOf cfg q)
   else Some []) = Some driverCode ->
  written (generate w cfg q (outs ++ child_close code :: rest))
  = startingEvent q :: flat_map outputEvents outs
    ++ [complete (isZero code) code driverCode (outputFileOf q)].
Proof.
  intros Hv Ho Hr. rewrite generate_valid by exact Hv.
  rewrite fold_left_app. simpl fold_left.
  destruct (run_outputs_all (outputFileOf q) outs (generateOpen cfg q))
    as (Hw & He & Hc & _ & Hg);
    try (rewrite generateOpen_valid by exact Hv; reflexivity); [exact Ho|].
  destruct (close_open (outputFileOf q) _ code Hc He Hg Hr) as (Hw2 & He2).
  destruct (run_after_end (outputFileOf q) rest _ He2) as (Hw3 & _).
  rewrite Hw3, Hw2, Hw. rewrite generateOpen_valid by exact Hv.
  reflexivity.
Qed.

(** [success] is [true] for the exit code 0 and for nothing else: not for
    another code, not for the [null] of a child ended by a signal. *)
Lemma isZero_spec (code : option Z) :
  isZero code = true <-> code = Some 0%Z.
Proof.
  destruct code as [[| |]|]; simpl; split; intros H;
    try reflexivity; discriminate H.
Qed.

(** Where the artifact can be read or is not there.  Every stream of an
    accepted request has at most one terminal event, and only as its last
    event.  When the child closes after its output and its exit, and the
    artifact is a readable file or no file, the stream ends with one
    [complete] event that carries [success = (code === 0)], the code, and
    the text of the file, the empty text when there is none; whatever the
    event loop delivers afterwards adds nothing.  When the child cannot be
    started the stream is the first status event and one [error] event. *)
Theorem stream_terminated (q : Query) (Hvalid : validQuery q = true) :
  (forall trace, wellTerminated (written (generate w cfg q trace)))
  /\ (forall outs code rest text,
        forallb beforeClose outs = true ->
        entry w (outputPathOf cfg q) = RegularFile text ->
        written (generate w cfg q (outs ++ child_close code :: rest))
        = startingEvent q :: flat_map outputEvents outs
          ++ [complete (isZero code) code text (outputFileOf q)])
  /\ (forall outs code rest,
        forallb beforeClose outs = true ->
        exists_in w (outputPathOf cfg q) = false ->
        written (generate w cfg q (outs ++ child_close code :: rest))
        = startingEvent q :: flat_map outputEvents outs
          ++ [complete (isZero code) code [] (outputFileOf q)])
  /\ (forall message rest,
        written (generate w cfg q (child_error spawn_failed message :: rest))
        = [startingEvent q; error message]).
Proof.
  repeat split.
  - intros trace. rewrite generate_valid by exact Hvalid.
    apply run_wellTerminated; rewrite generateOpen_valid by exact Hvalid.
    + intros _. reflexivity.
    + left. reflexivity.
  - intros outs code rest text Ho Hf.
    apply run_to_close; auto.
    unfold exists_in, read_in. rewrite Hf. reflexivity.
  - intros outs code rest Ho Hf.
    apply run_to_close; auto. rewrite Hf. reflexivity.
  - intros message rest. rewrite generate_valid by exact Hvalid.
    simpl fold_left. rewrite generateOpen_valid by exact Hvalid.
    match goal with
    | |- written (fold_left _ rest ?st) = _ =>
        destruct (run_after_end (outputFileOf q) rest st) as (Hw & _);
          [reflexivity | rewrite Hw; reflexivity]
    end.
Qed.

(** *** Chunks and lines *)

Lemma split_not_nil (sep : N) (s : jsstring) : JsString.split sep s <> [].
Proof.
  destruct s as [|c s]; simpl; [discriminate|].
  destruct (N.eqb c sep); [discriminate|].
  destruct (JsString.split sep s); discriminate.
Qed.

(** Splitting at a separator splits the list of pieces. *)
Lemma split_app (sep : N) (x y : jsstring) :
  JsString.split sep (x ++ sep :: y)
  = JsString.split sep x ++ JsString.split sep y.
Proof.
  induction x as [|c x IH]; simpl.
  - rewrite N.eqb_refl. reflexivity.
  - destruct (N.eqb c sep); [rewrite IH; reflexivity|].
    rewrite IH. pose proof (split_not_nil sep x) as Hne.
    destruct (JsString.split sep x) as [|p r]; [contradiction|reflexivity].
Qed.

(** A chunk that ends at a line end is classified on its own: its lines
    do not run into the next chunk. *)
Lemma classifyChunk_aligned (a b : jsstring) :
  lineAligned a ->
  classifyChunk (a ++ b) = classifyChunk a ++ classifyChunk b.
Proof.
  intros [-> | (body & ->)]; [reflexivity|].
  unfold classifyChunk. rewrite <- app_assoc. simpl app.
  rewrite split_app, flat_map_app.
  replace (body ++ [JsString.LF]) with (body ++ JsString.LF :: [])
    by reflexivity.
  rewrite split_app, flat_map_app. simpl. rewrite app_nil_r. reflexivity.
Qed.

Lemma classifyChunks_aligned (chunks : list jsstring) :
  Forall lineAligned chunks ->
  flat_map outputEvents (map stdout_data chunks)
  = classifyChunk (List.concat chunks).
Proof.
  induction 1 as [|c cs Hc _ IH]; simpl; [reflexivity|].
  rewrite IH, classifyChunk_aligned by exact Hc. reflexivity.
Qed.

Lemma stdout_then_exit (chunks : list jsstring) :
  forallb beforeClose (map stdout_data chunks ++ [child_exit]) = true.
Proof. induction chunks; simpl; auto. Qed.

(** C1, as the code has it.  The child prints the line [Generating driver]
    and the line [SUCCESS], in chunks that end at line ends, exits and
    closes with code 0 and has written the artifact: the stream is the status event that
    opens every stream, the two status events of the two lines, and the
    [complete] event with the text of the file, and nothing else. *)
Theorem generate_success_stream (q : Query) (chunks : list jsstring)
        (text : jsstring) :
  validQuery q = true ->
  Forall lineAligned chunks ->
  List.concat chunks
  = lit "Generating driver" ++ [JsString.LF] ++ lit "SUCCESS" ++ [JsString.LF] ->
  entry w (outputPathOf cfg q) = RegularFile text ->
  written
    (generate w cfg q
       ((map stdout_data chunks ++ [child_exit]) ++ [child_close (Some 0%Z)]))
  = [ startingEvent q;
      status (lit "Generating initial driver code...");
      status (lit "Driver generation successful!");
      complete true (Some 0%Z) text (outputFileOf q) ].
Proof.
  intros Hv Ha Hc Hf.
  rewrite (@run_to_close q (map stdout_data chunks ++ [child_exit])
             (Some 0%Z) [] text Hv (stdout_then_exit chunks)).
  - rewrite flat_map_app, classifyChunks_aligned by exact Ha.
    rewrite Hc. reflexivity.
  - unfold exists_in, read_in. rewrite Hf. reflexivity.
Qed.

(** *** The first event *)

Lemma step_effects_grow (o : jsstring) (st : GenState) (ev : NodeEvent) :
  exists added, effects (step w cfg o st ev) = effects st ++ added.
Proof.
  unfold step. destruct (crashed st); [exists []; symmetry; apply app_nil_r|].
  destruct ev as [text|text| |code|[|] m|].
  - destruct (onStdout_run text st) as (-> & _). eauto.
  - unfold_step. destruct (ended st), (clientGone st); simpl; eauto.
  - exists []. simpl. symmetry. apply app_nil_r.
  - unfold_step. simpl.
    destruct (exists_in w _); [destruct (read_in w _)|];
      destruct (ended st), (clientGone st); simpl; rewrite <- ?app_assoc;
      eauto; exists []; symmetry; apply app_nil_r.
  - unfold_step. simpl.
    destruct (ended st), (clientGone st); simpl; rewrite <- app_assoc; eauto.
  - unfold_step. simpl.
    destruct (ended st), (clientGone st); simpl; rewrite <- app_assoc; eauto.
  - unfold_step. unfold emit. simpl. eauto.
Qed.

Lemma run_effects_grow (o : jsstring) (trace : list NodeEvent) :
  forall st, exists added,
    effects (fold_left (step w cfg o) trace st) = effects st ++ added.
Proof.
  induction trace as [|ev trace IH]; intros st; simpl.
  - exists []. symmetry. apply app_nil_r.
  - destruct (IH (step w cfg o st ev)) as (a2 & ->).
    destruct (step_effects_grow o st ev) as (a1 & ->).
    exists (a1 ++ a2). rewrite app_assoc. reflexivity.
Qed.

(** C10. For an accepted request the handler first sets the three
    headers, then writes the status event
    [Starting driver generation for <functionName>...], and only then
    spawns the child; whatever follows, also a child that cannot be started,
    that event is the first of the stream. *)
Theorem generate_first_event (q : Query) (trace : list NodeEvent) :
  validQuery q = true ->
  exists laterEffects laterEvents,
    effects (generate w cfg q trace)
    = [ res_setHeader (lit "Content-Type") (lit "text/event-stream");
        res_setHeader (lit "Cache-Control") (lit "no-cache");
        res_setHeader (lit "Connection") (lit "keep-alive");
        res_write (status (lit "Starting driver generation for "
                           ++ asString (functionName q) ++ lit "..."));
        spawn (lit "tisaidga") (generateArgs q) (PROJECT_ROOT cfg) ]
      ++ laterEffects
    /\ written (generate w cfg q trace)
       = status (lit "Starting driver generation for "
                 ++ asString (functionName q) ++ lit "...")
         :: laterEvents.
Proof.
  intros Hv. rewrite generate_valid by exact Hv.
  rewrite generateOpen_valid by exact Hv.
  match goal with
  | |- context [fold_left _ trace ?st] =>
      destruct (run_effects_grow (outputFileOf q) trace st) as (added & H)
  end.
  simpl effects in H.
  exists added. eexists. split; [exact H|].
  unfold written. rewrite H. rewrite flat_map_app. reflexivity.
Qed.

(** *** Cancellation *)

Lemma signalsSent_emit (e : Effect) (st : GenState) :
  signalsSent (emit e st)
  = signalsSent st + match e with child_kill true => 1 | _ => 0 end.
Proof.
  unfold signalsSent, emit. simpl. rewrite filter_app, length_app.
  f_equal. destruct e as [| | | | | | |[|]]; reflexivity.
Qed.

Lemma writeEffect_cases (st : GenState) (ev : Event) :
  writeEffect st ev = res_write ev
  \/ writeEffect st ev = res_write_after_end ev
  \/ writeEffect st ev = res_write_after_close ev.
Proof. unfold writeEffect. destruct (ended st), (clientGone st); auto. Qed.

Lemma signals_of_writes (f : Event -> Effect) (evs : list Event) :
  (forall ev, f ev = res_write ev \/ f ev = res_write_after_end ev
              \/ f ev = res_write_after_close ev) ->
  filter (fun e => match e with child_kill true => true | _ => false end)
         (map f evs) = [].
Proof.
  intros Hf. induction evs as [|ev evs IH]; simpl; [reflexivity|].
  destruct (Hf ev) as [-> | [-> | ->]]; exact IH.
Qed.

(** Only the close of the request sends a signal, and it sends one exactly
    when the child's handle is live. *)
Lemma step_signals (o : jsstring) (st : GenState) (ev : NodeEvent) :
  signalsSent (step w cfg o st ev)
  = signalsSent st
    + match ev with
      | req_close => if negb (crashed st) && childLive st then 1 else 0
      | _ => 0
      end.
Proof.
  unfold step. destruct (crashed st) eqn:Hc.
  { destruct ev; simpl; lia. }
  destruct ev as [text|text| |code|[|] m|]; simpl.
  - unfold signalsSent. destruct (onStdout_run text st) as (-> & _).
    rewrite filter_app, length_app, signals_of_writes; [simpl; lia|].
    apply writeEffect_cases.
  - unfold_step.
    destruct (ended st), (clientGone st); rewrite signalsSent_emit;
      reflexivity.
  - unfold_step. unfold signalsSent. simpl. lia.
  - unfold_step. simpl.
    destruct (exists_in w _); [destruct (read_in w _)|];
      destruct (ended st), (clientGone st); unfold signalsSent, emit; simpl;
      rewrite ?filter_app, ?length_app; simpl; lia.
  - unfold_step. simpl.
    destruct (ended st), (clientGone st); unfold signalsSent, emit; simpl;
      rewrite ?filter_app, ?length_app; simpl; lia.
  - unfold_step. simpl.
    destruct (ended st), (clientGone st); unfold signalsSent, emit; simpl;
      rewrite ?filter_app, ?length_app; simpl; lia.
  - unfold_step. rewrite signalsSent_emit. simpl.
    unfold signalsSent. simpl. destruct (childLive st); reflexivity.
Qed.

Lemma step_childLive (o : jsstring) (st : GenState) (ev : NodeEvent) :
  (childLive st = false -> childLive (step w cfg o st ev) = false)
  /\ (handleInv st -> handleInv (step w cfg o st ev))
  /\ (handleInv st ->
      match ev with
      | child_exit | child_close _ | child_error spawn_failed _ =>
          childLive (step w cfg o st ev) = false
      | _ => True
      end).
Proof.
  unfold handleInv, step. destruct (crashed st) eqn:Hc.
  { repeat split; auto. intros H. destruct ev as [| | | |[|]|]; auto. }
  destruct ev as [text|text| |code|[|] m|]; simpl.
  - destruct (onStdout_run text st) as (_ & _ & -> & ->).
    repeat split; auto. congruence.
  - unfold_step.
    destruct (ended st), (clientGone st); simpl; repeat split; auto;
      congruence.
  - repeat split; auto.
  - unfold_step. simpl.
    destruct (exists_in w _); [destruct (read_in w _)|];
      destruct (ended st), (clientGone st); simpl; repeat split; auto.
  - unfold_step. simpl.
    destruct (ended st), (clientGone st); simpl; repeat split; auto.
  - unfold_step. simpl.
    destruct (ended st), (clientGone st); simpl; repeat split; auto;
      congruence.
  - unfold_step. simpl. repeat split; auto. congruence.
Qed.

Lemma run_handleInv (o : jsstring) (trace : list NodeEvent) :
  forall st,
    handleInv st ->
    handleInv (fold_left (step w cfg o) trace st)
    /\ (childLive st = false ->
        childLive (fold_left (step w cfg o) trace st) = false).
Proof.
  induction trace as [|ev trace IH]; intros st Hi; simpl; [auto|].
  destruct (step_childLive o st ev) as (Hl & Hinv & _).
  destruct (IH _ (Hinv Hi)) as (H1 & H2). auto.
Qed.

Lemma generate_handleInv (q : Query) (trace : list NodeEvent) :
  validQuery q = true -> handleInv (generate w cfg q trace).
Proof.
  intros Hv. rewrite generate_valid by exact Hv.
  apply run_handleInv. rewrite generateOpen_valid by exact Hv.
  intros H. discriminate H.
Qed.

(** After the close of the child its handle is lost for good. *)
Lemma closed_child_not_live (q : Query) before code after :
  validQuery q = true ->
  childLive (generate w cfg q (before ++ child_close code :: after)) = false.
Proof.
  intros Hv. rewrite generate_valid by exact Hv.
  rewrite fold_left_app. simpl fold_left.
  rewrite <- generate_valid by exact Hv.
  apply run_handleInv.
  - apply (proj1 (proj2 (step_childLive _ _ _))).
    apply generate_handleInv, Hv.
  - apply (proj2 (proj2 (step_childLive (outputFileOf q)
                           (generate w cfg q before) (child_close code)))).
    apply generate_handleInv, Hv.
Qed.

(** C8. While the child's handle is live, the close of the request calls
    [child.kill()] and a signal is sent; while the child has only printed,
    its handle is live; no other event sends a signal; and after the child
    has closed, the close of the request sends no signal and leaves the
    stream and the response as they were. *)
Theorem cancel_on_disconnect (q : Query) (Hvalid : validQuery q = true) :
  (forall trace,
      childLive (generate w cfg q trace) = true ->
      effects (generate w cfg q (trace ++ [req_close]))
      = effects (generate w cfg q trace) ++ [child_kill true]
      /\ signalsSent (generate w cfg q (trace ++ [req_close]))
         = S (signalsSent (generate w cfg q trace)))
  /\ (forall outs,
        forallb isOutput outs = true ->
        childLive (generate w cfg q outs) = true)
  /\ (forall trace ev,
        ev <> req_close ->
        signalsSent (generate w cfg q (trace ++ [ev]))
        = signalsSent (generate w cfg q trace))
  /\ (forall before code after,
        let done := generate w cfg q (before ++ child_close code :: after) in
        let after_cancel :=
          generate w cfg q ((before ++ child_close code :: after) ++ [req_close]) in
        signalsSent after_cancel = signalsSent done
        /\ written after_cancel = written done
        /\ ended after_cancel = ended done
        /\ childLive after_cancel = false).
Proof.
  split; [|split; [|split]].
  - intros trace Hl. rewrite generate_snoc by exact Hvalid.
    pose proof (@generate_handleInv q trace Hvalid) as Hi.
    assert (Hc : crashed (generate w cfg q trace) = false).
    { destruct (crashed (generate w cfg q trace)) eqn:E; [|reflexivity].
      rewrite (Hi E) in Hl. discriminate Hl. }
    split.
    + unfold step. rewrite Hc. unfold onReqClose, kill, emit. simpl.
      rewrite Hl. reflexivity.
    + rewrite step_signals, Hc, Hl. simpl. lia.
  - intros outs Ho. rewrite generate_valid by exact Hvalid.
    destruct (run_outputs (outputFileOf q) outs (generateOpen cfg q))
      as (_ & _ & _ & Hl);
      try (rewrite generateOpen_valid by exact Hvalid; reflexivity).
    + apply output_beforeClose, Ho.
    + rewrite (Hl Ho). rewrite generateOpen_valid by exact Hvalid.
      reflexivity.
  - intros trace ev Hne. rewrite generate_snoc by exact Hvalid.
    rewrite step_signals. destruct ev; try lia. contradiction.
  - intros before code after. cbv zeta.
    rewrite generate_snoc by exact Hvalid.
    pose proof (@closed_child_not_live q before code after Hvalid) as Hl.
    set (done := generate w cfg q (before ++ child_close code :: after)) in *.
    split; [|split; [|split]].
    + rewrite step_signals, Hl, andb_false_r. lia.
    + unfold step. destruct (crashed done) eqn:Hc; [reflexivity|].
      unfold onReqClose, kill. rewrite written_emit, app_nil_r. reflexivity.
    + unfold step. destruct (crashed done) eqn:Hc; reflexivity.
    + unfold step. destruct (crashed done) eqn:Hc; exact Hl.
Qed.

End Generation.

(* ===================================================================== *)
(** * Concrete runs *)
(* ===================================================================== *)

Lemma resolver_total_witness :
  fst (resolveSourcePath sampleConfig (lit "/nonexistent/x.c") (lit "x.c")
         {| world := hostileWorld; probes := [] |})
  = Ret None.
Proof.
  apply (proj2 (proj2 (resolver_total sampleConfig (lit "/nonexistent/x.c")
                         (lit "x.c")
                         {| world := hostileWorld; probes := [] |}))).
  intros p. reflexivity.
Defined.

(** The run of the end-to-end test: four events, the first of which the
    three-event sequence leaves out. *)
Lemma success_stream_is_not_three_events :
  written
    (generate artifactWorld sampleConfig sampleQuery
       [ stdout_data (lit "Generating driver" ++ [JsString.LF]);
         stdout_data (lit "SUCCESS" ++ [JsString.LF]);
         child_exit;
         child_close (Some 0%Z) ])
  = [ status (lit "Starting driver generation for parse...");
      status (lit "Generating initial driver code...");
      status (lit "Driver generation successful!");
      complete true (Some 0%Z) sampleDriver (lit "drivers/gui_parse.c") ]
  /\ written
       (generate artifactWorld sampleConfig sampleQuery
          [ stdout_data (lit "Generating driver" ++ [JsString.LF]);
            stdout_data (lit "SUCCESS" ++ [JsString.LF]);
            child_exit;
            child_close (Some 0%Z) ])
     <> [ status (lit "Generating initial driver code...");
          status (lit "Driver generation successful!");
          complete true (Some 0%Z) sampleDriver (lit "drivers/gui_parse.c") ].
Proof. split; [vm_compute; reflexivity | vm_compute; discriminate]. Qed.

Lemma generate_success_stream_witness :
  written
    (generate artifactWorld sampleConfig sampleQuery
       ((map stdout_data
             [ lit "Generating driver" ++ [JsString.LF];
               lit "SUCCESS" ++ [JsString.LF] ]
         ++ [child_exit])
        ++ [child_close (Some 0%Z)]))
  = [ startingEvent sampleQuery;
      status (lit "Generating initial driver code...");
      status (lit "Driver generation successful!");
      complete true (Some 0%Z) sampleDriver (outputFileOf sampleQuery) ].
Proof.
  apply generate_success_stream.
  - reflexivity.
  - constructor; [right; exists (lit "Generating driver"); reflexivity|].
    constructor; [right; exists (lit "SUCCESS"); reflexivity|].
    constructor.
  - reflexivity.
  - reflexivity.
Defined.

(** A child that fails and prints on stderr; and a child that cannot be
    started, for which Node emits ['error'] and then ['close']: the write
    of the close callback comes after [res.end()] and is refused. *)
Lemma stream_terminated_witness :
  written
    (generate artifactWorld sampleConfig sampleQuery
       ([stderr_data (lit "tis-analyzer: not found"); child_exit]
        ++ child_close (Some 1%Z) :: [req_close]))
  = startingEvent sampleQuery
    :: flat_map outputEvents
         [stderr_data (lit "tis-analyzer: not found"); child_exit]
    ++ [complete (isZero (Some 1%Z)) (Some 1%Z) sampleDriver
                 (outputFileOf sampleQuery)]
  /\ written
       (generate artifactWorld sampleConfig sampleQuery
          (child_error spawn_failed (lit "spawn tisaidga ENOENT")
           :: [child_close (Some (-2)%Z)]))
     = [startingEvent sampleQuery; error (lit "spawn tisaidga ENOENT")].
Proof.
  pose proof (@stream_terminated artifactWorld sampleConfig sampleQuery eq_refl)
    as (_ & Hclose & _ & Hfail).
  split; [apply Hclose; reflexivity | apply Hfail].
Defined.

Example spawn_failure_effects :
  effects
    (generate artifactWorld sampleConfig sampleQuery
       [ child_error spawn_failed (lit "spawn tisaidga ENOENT");
         child_close (Some (-2)%Z) ])
  = effects (generateOpen sampleConfig sampleQuery)
    ++ [ res_write (error (lit "spawn tisaidga ENOENT"));
         res_end;
         res_write_after_end
           (complete false (Some (-2)%Z) sampleDriver
                     (lit "drivers/gui_parse.c"));
         res_end ].
Proof. vm_compute. reflexivity. Qed.

(** A run the client leaves: the request's ['close'] kills the child, and
    what the close callback writes afterwards reaches nobody. *)
Example cancelled_run_effects :
  effects
    (generate artifactWorld sampleConfig sampleQuery
       [ stdout_data (lit "Running TIS"); req_close; child_exit;
         child_close None ])
  = effects (generateOpen sampleConfig sampleQuery)
    ++ [ res_write (status (lit "Validating with TIS Analyzer..."));
         child_kill true;
         res_write_after_close
           (complete false None sampleDriver (lit "drivers/gui_parse.c"));
         res_end ]
  /\ written
       (generate artifactWorld sampleConfig sampleQuery
          [ stdout_data (lit "Running TIS"); req_close; child_exit;
            child_close None ])
     = [ status (lit "Starting driver generation for parse...");
         status (lit "Validating with TIS Analyzer...") ].
Proof. split; vm_compute; reflexivity. Qed.

(** C3, at a run the code gets wrong.  The artifact path exists and
    cannot be read (here it is a directory).  The child prints, exits with
    code 0 and closes: [existsSync] answers [true], [readFileSync] throws
    inside the close callback, which has no [try], so [sendEvent('complete')]
    and [res.end()] are never reached.  The stream is the two status
    events, with no terminal event, and the response stays open.  With the
    artifact a readable file the same run ends with its [complete]
    event. *)
Theorem unreadable_artifact_leaves_stream_open :
  exists_in unreadableWorld (outputPathOf sampleConfig sampleQuery) = true
  /\ read_in unreadableWorld (outputPathOf sampleConfig sampleQuery) = None
  /\ written
       (generate unreadableWorld sampleConfig sampleQuery
          [ stdout_data (lit "SUCCESS" ++ [JsString.LF]);
            child_exit; child_close (Some 0%Z) ])
     = [ status (lit "Starting driver generation for parse...");
         status (lit "Driver generation successful!") ]
  /\ existsb isTerminal
       (written
          (generate unreadableWorld sampleConfig sampleQuery
             [ stdout_data (lit "SUCCESS" ++ [JsString.LF]);
               child_exit; child_close (Some 0%Z) ])) = false
  /\ ~ In res_end
         (effects
            (generate unreadableWorld sampleConfig sampleQuery
               [ stdout_data (lit "SUCCESS" ++ [JsString.LF]);
                 child_exit; child_close (Some 0%Z) ]))
  /\ written
       (generate artifactWorld sampleConfig sampleQuery
          [ stdout_data (lit "SUCCESS" ++ [JsString.LF]);
            child_exit; child_close (Some 0%Z) ])
     = [ status (lit "Starting driver generation for parse...");
         status (lit "Driver generation successful!");
         complete true (Some 0%Z) sampleDriver (lit "drivers/gui_parse.c") ].
Proof.
  repeat split; try (vm_compute; reflexivity).
  vm_compute. intros H.
  repeat (destruct H as [H|H]; [discriminate H|]). exact H.
Qed.

Lemma cancel_on_disconnect_witness :
  signalsSent
    (generate artifactWorld sampleConfig sampleQuery
       ([stdout_data (lit "Running TIS")] ++ [req_close]))
  = S (signalsSent
         (generate artifactWorld sampleConfig sampleQuery
            [stdout_data (lit "Running TIS")])).
Proof.
  pose proof (@cancel_on_disconnect artifactWorld sampleConfig sampleQuery
                eq_refl) as (Hkill & Hlive & _).
  apply Hkill. apply Hlive. reflexivity.
Defined.

Lemma generate_first_event_witness :
  exists laterEffects laterEvents,
    effects
      (generate artifactWorld sampleConfig sampleQuery
         [child_error spawn_failed (lit "spawn tisaidga ENOENT")])
    = [ res_setHeader (lit "Content-Type") (lit "text/event-stream");
        res_setHeader (lit "Cache-Control") (lit "no-cache");
        res_setHeader (lit "Connection") (lit "keep-alive");
        res_write (status (lit "Starting driver generation for "
                           ++ asString (functionName sampleQuery)
                           ++ lit "..."));
        spawn (lit "tisaidga") (generateArgs sampleQuery)
              (PROJECT_ROOT sampleConfig) ]
      ++ laterEffects
    /\ written
         (generate artifactWorld sampleConfig sampleQuery
            [child_error spawn_failed (lit "spawn tisaidga ENOENT")])
       = status (lit "Starting driver generation for "
                 ++ asString (functionName sampleQuery) ++ lit "...")
         :: laterEvents.
Proof. apply generate_first_event. reflexivity. Defined.

(* ===================================================================== *)
(** * The command lines *)
(* ===================================================================== *)

(** The generation command reaches the tool as the tokens of [args]. *)
Lemma generate_argv (q : Query) :
  argvOf (generateInvocation q)
  = Some [ lit "tisaidga"; lit "gen";
           asString (project q); asString (filename q);
           asString (functionName q);
           lit "--model"; withDefault (model q) (lit "gpt-4o-mini");
           lit "--max-iterations"; withDefault (maxIterations q) (lit "3");
           lit "--output";
           lit "drivers/gui_" ++ asString (functionName q) ++ lit ".c";
           lit "--with-logs"; lit "--context"; lit "function"; lit "-v" ].
Proof. reflexivity. Qed.

(** C7, at a request the code gets wrong.  [/api/init] builds the same
    kind of token list and then joins it with spaces into one shell
    command: a path with a space in it reaches the tool as two tokens. *)
Theorem init_command_splits_path :
  initArgs (lit "my db.json") None = [lit "init"; lit "my db.json"; lit "-v"]
  /\ initInvocation (lit "my db.json") None
     = via_shell (lit "tisaidga init my db.json -v")
  /\ argvOf (initInvocation (lit "my db.json") None)
     = Some [lit "tisaidga"; lit "init"; lit "my"; lit "db.json"; lit "-v"]
  /\ argvOf (initInvocation (lit "my db.json") None)
     <> Some (lit "tisaidga" :: initArgs (lit "my db.json") None).
Proof.
  repeat split; try (vm_compute; reflexivity). vm_compute. discriminate.
Qed.

(** The file listing interpolates the project name in the same way. *)
Example list_command_splits_name :
  argvOf (listFilesInvocation (lit "my project"))
  = Some [lit "tisaidga"; lit "list"; lit "my"; lit "project"; lit "-v"].
Proof. vm_compute. reflexivity. Qed.

(* ===================================================================== *)
(** * Further properties of the classifier *)
(* ===================================================================== *)

Section ClassifierMore.

Lemma span_split (p : N -> bool) (s : jsstring) :
  s = fst (JsString.span p s) ++ snd (JsString.span p s)
  /\ forallb p (fst (JsString.span p s)) = true.
Proof.
  induction s as [|c s [IH1 IH2]]; simpl; [auto|].
  destruct (p c) eqn:E; [|auto].
  destruct (JsString.span p s) as [a b]. simpl in *.
  rewrite E, IH2. split; [f_equal; exact IH1 | reflexivity].
Qed.

(** The number of a match of [/Iteration\s+(\d+)/i] at the start. *)
Lemma iterMatchAt_digits (s n : jsstring) :
  iterMatchAt s = Some n ->
  n <> [] /\ forallb JsString.isDigit n = true
  /\ exists before after, s = before ++ n ++ after.
Proof.
  unfold iterMatchAt.
  destruct (JsString.startsWith_ci s (lit "Iteration")); [|discriminate].
  pose proof (firstn_skipn 9 s) as Hs.
  remember (skipn 9 s) as tail eqn:Etail. clear Etail.
  pose proof (span_split JsString.isWhiteSpace tail) as [Hw _].
  destruct (JsString.span JsString.isWhiteSpace tail) as [ws rest].
  cbn [fst snd] in Hw.
  destruct ws as [|w0 ws]; [discriminate|].
  pose proof (span_split JsString.isDigit rest) as [Hd Hall].
  destruct (JsString.span JsString.isDigit rest) as [ds after].
  cbn [fst snd] in *.
  destruct ds as [|d ds]; [discriminate|].
  intros H. inversion H; subst n. split; [discriminate|]. split; [exact Hall|].
  exists (firstn 9 s ++ w0 :: ws), after.
  rewrite <- Hs at 1. rewrite Hw, Hd.
  rewrite <- !app_assoc. reflexivity.
Qed.

Lemma iterMatch_digits (line n : jsstring) :
  iterMatch line = Some n ->
  n <> [] /\ forallb JsString.isDigit n = true
  /\ exists before after, line = before ++ n ++ after.
Proof.
  induction line as [|c line IH].
  - intros H. vm_compute in H. discriminate H.
  - change (iterMatch (c :: line))
      with (match iterMatchAt (c :: line) with
            | Some n => Some n
            | None => iterMatch line
            end).
    destruct (iterMatchAt (c :: line)) eqn:E.
    + intros H. inversion H; subst. apply iterMatchAt_digits, E.
    + intros H. destruct (IH H) as (H1 & H2 & before & after & ->).
      repeat split; auto. exists (c :: before), after. reflexivity.
Qed.

(** X1. Every status event the classifier produces carries one of four
    fixed messages, or [Refinement iteration N...] where [N] is a non-empty
    run of decimal digits taken from the line. *)
Theorem status_messages_closed (line message : jsstring) :
  classifyLine line = Some (status message) ->
  In message [ lit "Generating initial driver code...";
               lit "Validating with TIS Analyzer...";
               lit "Driver generation successful!";
               lit "Driver generation failed" ]
  \/ exists n before after,
       message = lit "Refinement iteration " ++ n ++ lit "..."
       /\ n <> []
       /\ forallb JsString.isDigit n = true
       /\ line = before ++ n ++ after.
Proof.
  unfold classifyLine.
  destruct (JsString.includes line (lit "Generating driver")).
  { intros H. inversion H. left. simpl. auto. }
  destruct (JsString.includes line (lit "Running TIS")).
  { intros H. inversion H. left. simpl. auto. }
  destruct (JsString.includes line (lit "Iteration")).
  { destruct (iterMatch line) as [n|] eqn:E; [|discriminate].
    intros H. inversion H as [Hm]. right.
    destruct (iterMatch_digits _ E) as (Hne & Hd & before & after & Hl).
    exists n, before, after. auto. }
  destruct (JsString.includes line (lit "SUCCESS")).
  { intros H. inversion H. left. simpl. auto. }
  destruct (JsString.includes line (lit "FAILED")).
  { intros H. inversion H. left. simpl. auto. }
  destruct (JsString.truthy (JsString.trim line)); discriminate.
Qed.

Lemma status_messages_closed_witness :
  In (lit "Refinement iteration 12...")
     [ lit "Generating initial driver code...";
       lit "Validating with TIS Analyzer...";
       lit "Driver generation successful!";
       lit "Driver generation failed" ]
  \/ exists n before after,
       lit "Refinement iteration 12..."
       = lit "Refinement iteration " ++ n ++ lit "..."
       /\ n <> []
       /\ forallb JsString.isDigit n = true
       /\ lit "[tis] Iteration  12/3 started" = before ++ n ++ after.
Proof.
  apply (@status_messages_closed (lit "[tis] Iteration  12/3 started")).
  vm_compute. reflexivity.
Defined.

Lemma trimStart_split (s : jsstring) :
  exists blank,
    s = blank ++ JsString.trimStart s
    /\ forallb JsString.isWhiteSpace blank = true.
Proof.
  induction s as [|c s (blank & IH1 & IH2)]; simpl.
  - exists []. auto.
  - destruct (JsString.isWhiteSpace c) eqn:E.
    + exists (c :: blank). simpl. rewrite E, IH2. split; [f_equal; exact IH1|auto].
    + exists []. auto.
Qed.

Lemma trimEnd_split (s : jsstring) :
  exists blank,
    s = JsString.trimEnd s ++ blank
    /\ forallb JsString.isWhiteSpace blank = true.
Proof.
  unfold JsString.trimEnd.
  destruct (trimStart_split (rev s)) as (blank & H1 & H2).
  exists (rev blank). split.
  - pose proof (f_equal (@rev N) H1) as H3.
    rewrite rev_involutive, rev_app_distr in H3. exact H3.
  - rewrite forallb_rev. exact H2.
Qed.

Lemma trimEnd_last (s : jsstring) c :
  JsString.trimEnd s <> [] ->
  JsString.isWhiteSpace (last (JsString.trimEnd s) c) = false.
Proof.
  unfold JsString.trimEnd. intros Hne.
  destruct (JsString.trimStart (rev s)) as [|x rest] eqn:E; [contradiction|].
  simpl. rewrite last_last. eapply trimStart_head, E.
Qed.

(** X2. A log event of the classifier never carries the [isError] mark,
    and its message is the line without the white space around it: it is
    not empty, it neither starts nor ends with white space, and the line is
    the message between two runs of white space. *)
Theorem log_message_trimmed (line message : jsstring) (isError : bool) :
  classifyLine line = Some (log message isError) ->
  isError = false
  /\ (exists c rest,
        message = c :: rest
        /\ JsString.isWhiteSpace c = false
        /\ JsString.isWhiteSpace (last message c) = false)
  /\ exists blank1 blank2,
       line = blank1 ++ message ++ blank2
       /\ forallb JsString.isWhiteSpace blank1 = true
       /\ forallb JsString.isWhiteSpace blank2 = true.
Proof.
  unfold classifyLine.
  destruct (JsString.includes line (lit "Generating driver")); [discriminate|].
  destruct (JsString.includes line (lit "Running TIS")); [discriminate|].
  destruct (JsString.includes line (lit "Iteration"));
    [destruct (iterMatch line); discriminate|].
  destruct (JsString.includes line (lit "SUCCESS")); [discriminate|].
  destruct (JsString.includes line (lit "FAILED")); [discriminate|].
  destruct (JsString.truthy (JsString.trim line)) eqn:Ht; [|discriminate].
  intros H. inversion H; subst. split; [reflexivity|].
  destruct (trimStart_split line) as (b1 & Hl & Hb1).
  destruct (trimEnd_split (JsString.trimStart line)) as (b2 & Hr & Hb2).
  fold (JsString.trim line) in Hr. split.
  - destruct (JsString.trim line) as [|c rest] eqn:Et; [discriminate Ht|].
    exists c, rest. split; [reflexivity|]. split.
    + rewrite Hr in Hl. simpl in Hl.
      destruct (JsString.trimStart line) as [|x xs] eqn:Es.
      * simpl in Hr. discriminate Hr.
      * simpl in Hr. inversion Hr; subst x. eapply trimStart_head, Es.
    + rewrite <- Et. unfold JsString.trim. apply trimEnd_last.
      fold (JsString.trim line). rewrite Et. discriminate.
  - exists b1, b2. rewrite <- Hr. auto.
Qed.

Lemma log_message_trimmed_witness :
  false = false
  /\ (exists c rest,
        lit "warning: unused variable" = c :: rest
        /\ JsString.isWhiteSpace c = false
        /\ JsString.isWhiteSpace (last (lit "warning: unused variable") c)
           = false)
  /\ exists blank1 blank2,
       lit "   warning: unused variable  "
       = blank1 ++ lit "warning: unused variable" ++ blank2
       /\ forallb JsString.isWhiteSpace blank1 = true
       /\ forallb JsString.isWhiteSpace blank2 = true.
Proof.
  apply (@log_message_trimmed (lit "   warning: unused variable  ")).
  vm_compute. reflexivity.
Defined.

End ClassifierMore.

(* ===================================================================== *)
(** * Further properties of the generation handler *)
(* ===================================================================== *)

Section GenerationMore.

Variable w : World.
Variable cfg : Config.

Lemma outputEvents_nonTerminal (outs : list NodeEvent) :
  nonTerminal (flat_map outputEvents outs) = true.
Proof.
  induction outs as [|ev outs IH]; simpl; [reflexivity|].
  rewrite nonTerminal_app, IH, andb_true_r.
  destruct ev; try reflexivity. apply classifyChunk_nonTerminal.
Qed.

(** X3. Whatever the child prints on stdout and stderr before it closes,
    the stream is the starting event followed by the events of that output,
    in order; none of them is [complete] or [error], and the response stays
    open: output alone cannot end a stream. *)
Theorem output_keeps_stream_open (q : Query) (outs : list NodeEvent) :
  validQuery q = true ->
  forallb beforeClose outs = true ->
  written (generate w cfg q outs)
  = startingEvent q :: flat_map outputEvents outs
  /\ nonTerminal (written (generate w cfg q outs)) = true
  /\ ended (generate w cfg q outs) = false.
Proof.
  intros Hv Ho. rewrite generate_valid by exact Hv.
  destruct (@run_outputs w cfg (outputFileOf q) outs (generateOpen cfg q))
    as (Hw & He & _);
    try (rewrite generateOpen_valid by exact Hv; reflexivity); [exact Ho|].
  assert (Hs : written (generateOpen cfg q) = [startingEvent q])
    by (rewrite generateOpen_valid by exact Hv; reflexivity).
  rewrite Hw, Hs. split; [reflexivity|]. split; [|exact He].
  change ([startingEvent q] ++ flat_map outputEvents outs)
    with (startingEvent q :: flat_map outputEvents outs).
  unfold nonTerminal. simpl. apply outputEvents_nonTerminal.
Qed.

Lemma onStdout_fullOutput (text : jsstring) (st : GenState) :
  fullOutput (onStdout text st) = fullOutput st ++ text.
Proof.
  unfold onStdout.
  match goal with
  | |- fullOutput (fold_left ?f ?ls ?acc) = _ =>
      assert (H : forall acc0, fullOutput (fold_left f ls acc0) = fullOutput acc0)
  end.
  { induction (JsString.split JsString.LF text) as [|l ls IH];
      intros acc0; simpl; [reflexivity|].
    rewrite IH. destruct (classifyLine l); [|reflexivity].
    unfold sendEvent. destruct (ended acc0), (clientGone acc0); reflexivity. }
  rewrite H. reflexivity.
Qed.

(** X4. Two stdout chunks of which the first ends at a line end have the
    effect of the one chunk made of both: how the pipe cuts the output at
    line ends does not show. *)
Theorem aligned_chunks_compose (o : jsstring) (st : GenState)
        (a b : jsstring) :
  lineAligned a ->
  effects (step w cfg o (step w cfg o st (stdout_data a)) (stdout_data b))
  = effects (step w cfg o st (stdout_data (a ++ b)))
  /\ fullOutput
       (step w cfg o (step w cfg o st (stdout_data a)) (stdout_data b))
     = fullOutput (step w cfg o st (stdout_data (a ++ b))).
Proof.
  intros Ha. unfold step at 2 3 4 5. destruct (crashed st) eqn:Hc.
  - unfold step. rewrite Hc. auto.
  - unfold step.
    destruct (onStdout_run a st) as (Fe & Fn & Fl & Fc). rewrite Fc, Hc.
    destruct (onStdout_run b (onStdout a st)) as (Ge & _).
    destruct (onStdout_run (a ++ b) st) as (He & _).
    split.
    + rewrite Ge, Fe, He.
      rewrite (writeEffect_same (onStdout a st) st Fn
                 (onStdout_clientGone a st)).
      rewrite classifyChunk_aligned by exact Ha.
      rewrite map_app, app_assoc. reflexivity.
    + rewrite !onStdout_fullOutput. apply eq_sym, app_assoc.
Qed.

(** Without the alignment a line cut in two is classified as two lines. *)
Example cut_line_is_two_lines :
  classifyChunk (lit "Running TIS") = [status (lit "Validating with TIS Analyzer...")]
  /\ classifyChunk (lit "Runn") ++ classifyChunk (lit "ing TIS")
     = [log (lit "Runn") false; log (lit "ing TIS") false].
Proof. split; vm_compute; reflexivity. Qed.

Lemma spawnCount_app (a b : list Effect) :
  spawnCount (a ++ b) = spawnCount a + spawnCount b.
Proof. unfold spawnCount. rewrite filter_app, length_app. reflexivity. Qed.

Lemma spawnCount_writes (f : Event -> Effect) (evs : list Event) :
  (forall ev, f ev = res_write ev \/ f ev = res_write_after_end ev
              \/ f ev = res_write_after_close ev) ->
  spawnCount (map f evs) = 0.
Proof.
  intros Hf. induction evs as [|ev evs IH]; [reflexivity|].
  unfold spawnCount in *. simpl.
  destruct (Hf ev) as [-> | [-> | ->]]; exact IH.
Qed.

(** No callback spawns. *)
Lemma step_spawnCount (o : jsstring) (st : GenState) (ev : NodeEvent) :
  spawnCount (effects (step w cfg o st ev)) = spawnCount (effects st).
Proof.
  unfold step. destruct (crashed st); [reflexivity|].
  destruct ev as [text|text| |code|[|] m|].
  - destruct (onStdout_run text st) as (-> & _).
    rewrite spawnCount_app, spawnCount_writes; [lia|].
    apply writeEffect_cases.
  - unfold onStderr, sendEvent, emit.
    destruct (ended st), (clientGone st); simpl;
      rewrite spawnCount_app; unfold spawnCount; simpl; lia.
  - reflexivity.
  - unfold onClose, endResponse, sendEvent, handleLost, uncaught, emit. simpl.
    destruct (exists_in w _); [destruct (read_in w _)|];
      destruct (ended st), (clientGone st); simpl;
      rewrite ?spawnCount_app; unfold spawnCount; simpl; lia.
  - unfold onError, endResponse, sendEvent, handleLost, emit. simpl.
    destruct (ended st), (clientGone st); simpl;
      rewrite ?spawnCount_app; unfold spawnCount; simpl; lia.
  - unfold onError, endResponse, sendEvent, handleLost, emit. simpl.
    destruct (ended st), (clientGone st); simpl;
      rewrite ?spawnCount_app; unfold spawnCount; simpl; lia.
  - unfold onReqClose, kill, hangUp, emit. simpl. rewrite spawnCount_app.
    unfold spawnCount. simpl. lia.
Qed.

(** X5. One request starts at most one child: whatever the event loop
    delivers, the handler has called [spawn] exactly once when the three
    parameters were given and non-empty, and never when one is missing or
    empty, in which case its only effect is the 400 response. *)
Theorem one_spawn_per_request (q : Query) (trace : list NodeEvent) :
  spawnCount (effects (generate w cfg q trace))
  = (if truthyParam (project q) && truthyParam (filename q)
        && truthyParam (functionName q) then 1 else 0)
  /\ (truthyParam (project q) && truthyParam (filename q)
      && truthyParam (functionName q) = false ->
      effects (generate w cfg q trace)
      = [ res_status_json 400
            (lit "project, filename, and functionName are required") ]).
Proof.
  assert (Hv : validQuery q
               = truthyParam (project q) && truthyParam (filename q)
                 && truthyParam (functionName q)).
  { unfold validQuery.
    destruct (truthyParam (project q)), (truthyParam (filename q)),
      (truthyParam (functionName q)); reflexivity. }
  rewrite <- Hv. unfold generate.
  destruct (validQuery q) eqn:E.
  - split; [|discriminate].
    assert (H0 : spawnCount (effects (generateOpen cfg q)) = 1)
      by (rewrite generateOpen_valid by exact E; reflexivity).
    revert H0. generalize (generateOpen cfg q).
    induction trace as [|ev trace IH]; intros st H0; simpl; [exact H0|].
    apply IH. rewrite step_spawnCount. exact H0.
  - unfold generateOpen, validQuery in *. apply negb_false_iff in E.
    rewrite E. split; [reflexivity|]. reflexivity.
Qed.

(** A crashed server takes no more events. *)
Lemma run_crashed (o : jsstring) (trace : list NodeEvent) :
  forall st, crashed st = true -> fold_left (step w cfg o) trace st = st.
Proof.
  induction trace as [|ev trace IH]; intros st Hc; simpl; [reflexivity|].
  unfold step at 2. rewrite Hc. apply IH, Hc.
Qed.

(** X6. When the artifact path exists but cannot be read (a directory, a
    file without read permission), [readFileSync] throws in the close
    callback: no [complete] event is written, the response is never ended,
    and nothing that follows is handled. *)
Theorem unreadable_artifact_no_terminal (q : Query)
        (outs : list NodeEvent) (code : option Z) (rest : list NodeEvent) :
  validQuery q = true ->
  forallb beforeClose outs = true ->
  entry w (outputPathOf cfg q) = NotReadable ->
  written (generate w cfg q (outs ++ child_close code :: rest))
  = startingEvent q :: flat_map outputEvents outs
  /\ ended (generate w cfg q (outs ++ child_close code :: rest)) = false
  /\ crashed (generate w cfg q (outs ++ child_close code :: rest)) = true.
Proof.
  intros Hv Ho Hf. rewrite generate_valid by exact Hv.
  rewrite fold_left_app. simpl fold_left.
  destruct (@run_outputs w cfg (outputFileOf q) outs (generateOpen cfg q))
    as (Hw & He & Hc & _);
    try (rewrite generateOpen_valid by exact Hv; reflexivity); [exact Ho|].
  set (st := fold_left (step w cfg (outputFileOf q)) outs (generateOpen cfg q))
    in *.
  assert (Hstep : step w cfg (outputFileOf q) st (child_close code)
                  = uncaught (handleLost st)).
  { unfold step, onClose. rewrite Hc. unfold exists_in, read_in.
    fold (outputPathOf cfg q). rewrite Hf. reflexivity. }
  rewrite Hstep, run_crashed by reflexivity.
  unfold uncaught, handleLost, written in *. simpl.
  rewrite Hw. rewrite generateOpen_valid by exact Hv. auto.
Qed.

End GenerationMore.

Lemma output_keeps_stream_open_witness :
  written
    (generate artifactWorld sampleConfig sampleQuery
       [ stdout_data (lit "complete SUCCESS FAILED");
         stderr_data (lit "error: complete");
         child_exit ])
  = startingEvent sampleQuery
    :: flat_map outputEvents
         [ stdout_data (lit "complete SUCCESS FAILED");
           stderr_data (lit "error: complete");
           child_exit ]
  /\ nonTerminal
       (written
          (generate artifactWorld sampleConfig sampleQuery
             [ stdout_data (lit "complete SUCCESS FAILED");
               stderr_data (lit "error: complete");
               child_exit ])) = true
  /\ ended
       (generate artifactWorld sampleConfig sampleQuery
          [ stdout_data (lit "complete SUCCESS FAILED");
            stderr_data (lit "error: complete");
            child_exit ]) = false.
Proof. apply output_keeps_stream_open; reflexivity. Defined.

Lemma aligned_chunks_compose_witness :
  effects
    (step artifactWorld sampleConfig (outputFileOf sampleQuery)
       (step artifactWorld sampleConfig (outputFileOf sampleQuery)
          (generateOpen sampleConfig sampleQuery)
          (stdout_data (lit "Running TIS" ++ [JsString.LF])))
       (stdout_data (lit "Iteration 2")))
  = effects
      (step artifactWorld sampleConfig (outputFileOf sampleQuery)
         (generateOpen sampleConfig sampleQuery)
         (stdout_data ((lit "Running TIS" ++ [JsString.LF])
                       ++ lit "Iteration 2")))
  /\ fullOutput
       (step artifactWorld sampleConfig (outputFileOf sampleQuery)
          (step artifactWorld sampleConfig (outputFileOf sampleQuery)
             (generateOpen sampleConfig sampleQuery)
             (stdout_data (lit "Running TIS" ++ [JsString.LF])))
          (stdout_data (lit "Iteration 2")))
     = fullOutput
         (step artifactWorld sampleConfig (outputFileOf sampleQuery)
            (generateOpen sampleConfig sampleQuery)
            (stdout_data ((lit "Running TIS" ++ [JsString.LF])
                          ++ lit "Iteration 2"))).
Proof.
  apply aligned_chunks_compose. right. exists (lit "Running TIS"). reflexivity.
Defined.

Lemma unreadable_artifact_no_terminal_witness :
  written
    (generate unreadableWorld sampleConfig sampleQuery
       ([stdout_data (lit "SUCCESS"); child_exit]
        ++ child_close (Some 0%Z) :: [req_close]))
  = startingEvent sampleQuery
    :: flat_map outputEvents [stdout_data (lit "SUCCESS"); child_exit]
  /\ ended
       (generate unreadableWorld sampleConfig sampleQuery
          ([stdout_data (lit "SUCCESS"); child_exit]
           ++ child_close (Some 0%Z) :: [req_close])) = false
  /\ crashed
       (generate unreadableWorld sampleConfig sampleQuery
          ([stdout_data (lit "SUCCESS"); child_exit]
           ++ child_close (Some 0%Z) :: [req_close])) = true.
Proof. apply unreadable_artifact_no_terminal; reflexivity. Defined.

(* ===================================================================== *)
(** * Further properties of the resolver and of the driver endpoint *)
(* ===================================================================== *)

Section ResolverMore.

Variable cfg : Config.

(** X7. A resolution makes at least one and at most six probes, the first
    of which is the lookup of the remote path as it is; at most one of them
    runs a shell command. *)
Theorem resolver_probe_bound (remotePath fname : jsstring) (s : RState) :
  exists made,
    probes (snd (resolveSourcePath cfg remotePath fname s))
    = probes s ++ probe_exists remotePath :: made
    /\ List.length made <= 5
    /\ execCount made <= 1.
Proof.
  unfold resolveSourcePath, firstExisting, try_catch, bind, ret, existsSync,
    execSync, record_probe, execCount.
  repeat (simpl;
          match goal with
          | |- context [if ?b then _ else _] => destruct b eqn:?
          | |- context [match ?x with Some _ => _ | None => _ end] =>
              destruct x eqn:?
          | |- context [match ?x with ExecOutput _ => _ | ExecThrows _ => _ end] =>
              destruct x eqn:?
          end);
    simpl; rewrite <- ?app_assoc; simpl;
    eexists; (split; [reflexivity|]); simpl; lia.
Qed.

Lemma driver_path_is_output_path (q : Query) :
  Path.join [PROJECT_ROOT cfg; lit "drivers"; driverNameOf q]
  = outputPathOf cfg q.
Proof.
  unfold outputPathOf, outputFileOf, driverNameOf, Path.join.
  destruct (PROJECT_ROOT cfg) as [|c root]; reflexivity.
Qed.

End ResolverMore.

Section DriverEndpoint.

Variable w : World.
Variable cfg : Config.

(** X8. The file the close callback of a generation reads is the file that
    [/api/driver/gui_<functionName>.c] serves: in a world where the artifact
    is a readable file, the [complete] event of the run and the reply of the
    driver endpoint carry the same text; where there is no artifact the
    event carries the empty text and the endpoint answers 404. *)
Theorem driver_endpoint_serves_artifact (q : Query) (outs : list NodeEvent)
        (code : option Z) :
  validQuery q = true ->
  forallb beforeClose outs = true ->
  outputFileOf q = lit "drivers/" ++ driverNameOf q
  /\ (forall text,
        entry w (outputPathOf cfg q) = RegularFile text ->
        getDriver w cfg (driverNameOf q) = reply_driver text (driverNameOf q)
        /\ written (generate w cfg q (outs ++ [child_close code]))
           = startingEvent q :: flat_map outputEvents outs
             ++ [complete (isZero code) code text (outputFileOf q)])
  /\ (exists_in w (outputPathOf cfg q) = false ->
      getDriver w cfg (driverNameOf q)
      = reply_error 404 (lit "Driver file not found")
      /\ written (generate w cfg q (outs ++ [child_close code]))
         = startingEvent q :: flat_map outputEvents outs
           ++ [complete (isZero code) code [] (outputFileOf q)]).
Proof.
  intros Hv Ho. split; [reflexivity|]. split.
  - intros text Hf. split.
    + unfold getDriver, exists_in, read_in.
      rewrite driver_path_is_output_path, Hf. reflexivity.
    + apply run_to_close; auto.
      unfold exists_in, read_in. rewrite Hf. reflexivity.
  - intros Hf. split.
    + unfold getDriver. rewrite driver_path_is_output_path, Hf. reflexivity.
    + apply run_to_close; auto. rewrite Hf. reflexivity.
Qed.

End DriverEndpoint.

Lemma driver_endpoint_serves_artifact_witness :
  getDriver artifactWorld sampleConfig (driverNameOf sampleQuery)
  = reply_driver sampleDriver (driverNameOf sampleQuery)
  /\ written
       (generate artifactWorld sampleConfig sampleQuery
          ([stdout_data (lit "SUCCESS"); child_exit]
           ++ [child_close (Some 0%Z)]))
     = startingEvent sampleQuery
       :: flat_map outputEvents [stdout_data (lit "SUCCESS"); child_exit]
       ++ [complete (isZero (Some 0%Z)) (Some 0%Z) sampleDriver
                    (outputFileOf sampleQuery)].
Proof.
  apply (proj1 (proj2 (@driver_endpoint_serves_artifact
                         artifactWorld sampleConfig sampleQuery
                         [stdout_data (lit "SUCCESS"); child_exit]
                         (Some 0%Z) eq_refl eq_refl))).
  reflexivity.
Defined.

(* ===================================================================== *)
(** * The client of the stream *)
(* ===================================================================== *)

Section ClientProperties.

Import Client.

Lemma sliceLast_length {A} (n : nat) (l : list A) :
  List.length (sliceLast n l) <= n.
Proof. unfold sliceLast. rewrite length_skipn. lia. Qed.

(** Keeping the last hundred and adding one keeps the last hundred and
    one. *)
Lemma sliceLast_push {A} (l : list A) (x : A) :
  sliceLast 100 (sliceLast 101 l) ++ [x] = sliceLast 101 (l ++ [x]).
Proof.
  unfold sliceLast. rewrite length_skipn, length_app, skipn_skipn. simpl.
  rewrite skipn_app.
  replace (List.length l + 1 - 101 - List.length l) with 0 by lia.
  simpl. f_equal. f_equal. lia.
Qed.

Lemma run_closed (evs : list SourceEvent) (st : State) :
  sourceOpen st = false -> run evs st = st.
Proof.
  unfold run. induction evs as [|ev evs IH]; intros Hc; simpl; [reflexivity|].
  unfold deliver at 2. rewrite Hc. apply IH, Hc.
Qed.

Lemma deliver_closes (ev : SourceEvent) (st : State) :
  closes ev = true -> sourceOpen (deliver st ev) = false.
Proof.
  unfold deliver. destruct (sourceOpen st) eqn:E; [|auto].
  destruct ev as [now [m|m e|ok c code f|m]|]; simpl; auto; discriminate.
Qed.

Lemma deliver_stays_open (ev : SourceEvent) (st : State) :
  closes ev = false -> sourceOpen (deliver st ev) = sourceOpen st.
Proof.
  unfold deliver. destruct (sourceOpen st) eqn:E; [|auto].
  destruct ev as [now [m|m e|ok c code f|m]|]; simpl; auto; discriminate.
Qed.

Lemma run_untilClose (evs : list SourceEvent) :
  forall st, run evs st = run (untilClose evs) st.
Proof.
  induction evs as [|ev evs IH]; intros st; [reflexivity|].
  simpl untilClose. destruct (closes ev) eqn:E.
  - unfold run. simpl. apply run_closed, deliver_closes, E.
  - unfold run in *. simpl. apply IH.
Qed.

Lemma logs_window (evs : list SourceEvent) :
  forall st received,
    sourceOpen st = true ->
    logs st = sliceLast 101 received ->
    logs (run evs st)
    = sliceLast 101 (received ++ logEntries (untilClose evs)).
Proof.
  induction evs as [|ev evs IH]; intros st received Ho Hl.
  - simpl. rewrite app_nil_r. exact Hl.
  - simpl untilClose. destruct (closes ev) eqn:E.
    + unfold run. simpl fold_left. fold (run evs (deliver st ev)).
      rewrite run_closed by (apply deliver_closes, E).
      unfold deliver. rewrite Ho.
      destruct ev as [now [m|m e|ok c code f|m]|]; try discriminate E;
        simpl; rewrite app_nil_r; exact Hl.
    + unfold run. simpl fold_left. fold (run evs (deliver st ev)).
      destruct ev as [now [m|m e|ok c code f|m]|]; try discriminate E.
      * rewrite (IH _ received); [reflexivity| |].
        -- unfold deliver. rewrite Ho. exact Ho.
        -- unfold deliver. rewrite Ho. exact Hl.
      * rewrite (IH _ (received ++ [{| message := m; isError := e |}])).
        -- simpl. rewrite <- app_assoc. reflexivity.
        -- unfold deliver. rewrite Ho. exact Ho.
        -- unfold deliver. rewrite Ho. simpl. rewrite Hl.
           apply sliceLast_push.
Qed.

(** X9. The log panel is a window: from the reset of [handleGenerate] on,
    whatever the source delivers, [logs] is the last 101 log entries
    received before the source was closed, in order, and so never holds
    more than 101. *)
Theorem log_panel_window (i : Inputs) (now : Z) (st0 st : State) (q : Query)
        (evs : list SourceEvent) :
  handleGenerate i now st0 = (st, Some q) ->
  logs (run evs st) = sliceLast 101 (logEntries (untilClose evs))
  /\ List.length (logs (run evs st)) <= 101.
Proof.
  unfold handleGenerate.
  destruct (negb _ || negb _ || negb _); intros H; inversion H; subst.
  assert (Hw : logs (run evs
                 {| isGenerating := true;
                    progressMessage := lit "Starting generation...";
                    generationStatus := idle; driverCode := []; logs := [];
                    generationTime := None; startTime := Some now;
                    genStartTime := now; sourceOpen := true |})
               = sliceLast 101 ([] ++ logEntries (untilClose evs)))
    by (apply logs_window; reflexivity).
  rewrite Hw. simpl. split; [reflexivity | apply sliceLast_length].
Qed.

(** X10. The first [complete] event, [error] event or connection error
    closes the source: the state is the state after the events up to that
    one, the generation is no longer running, and nothing delivered later
    changes anything. *)
Theorem first_closing_event_wins (before after : list SourceEvent)
        (ev : SourceEvent) (st : State) :
  forallb (fun e => negb (closes e)) before = true ->
  closes ev = true ->
  sourceOpen st = true ->
  run (before ++ ev :: after) st = run (before ++ [ev]) st
  /\ sourceOpen (run (before ++ ev :: after) st) = false
  /\ isGenerating (run (before ++ ev :: after) st) = false.
Proof.
  intros Hb He Ho.
  assert (Hu : forall tail, untilClose (before ++ ev :: tail) = before ++ [ev]).
  { intros tail. induction before as [|b before IH]; simpl.
    - rewrite He. reflexivity.
    - simpl in Hb. apply andb_true_iff in Hb. destruct Hb as [Hb1 Hb2].
      apply negb_true_iff in Hb1. rewrite Hb1, (IH Hb2). reflexivity. }
  assert (Hopen : sourceOpen (run before st) = true).
  { clear Hu. revert st Ho. induction before as [|b before IH]; intros st Ho.
    - exact Ho.
    - simpl in Hb. apply andb_true_iff in Hb. destruct Hb as [Hb1 Hb2].
      apply negb_true_iff in Hb1. unfold run. simpl.
      apply (IH Hb2). rewrite deliver_stays_open by exact Hb1. exact Ho. }
  rewrite run_untilClose, Hu. split; [reflexivity|].
  unfold run in *. rewrite fold_left_app. simpl.
  set (mid := fold_left deliver before st) in *.
  split; [apply deliver_closes, He|].
  unfold deliver. rewrite Hopen.
  destruct ev as [now [m|m e|ok c code f|m]|]; try discriminate He;
    reflexivity.
Qed.

Lemma combine_app_same {A B} (a1 a2 : list A) (b1 b2 : list B) :
  List.length a1 = List.length b1 ->
  combine (a1 ++ a2) (b1 ++ b2) = combine a1 b1 ++ combine a2 b2.
Proof.
  revert b1. induction a1 as [|x a1 IH]; intros [|y b1] H; simpl in *;
    try discriminate; [reflexivity|].
  f_equal. apply IH. lia.
Qed.

Lemma stamped_snoc (times : list Z) (evs : list Event) (ev : Event) :
  List.length times = List.length (evs ++ [ev]) ->
  exists ts t,
    stamped times (evs ++ [ev]) = stamped ts evs ++ [source_message t ev].
Proof.
  intros H. rewrite length_app in H. simpl in H.
  destruct (exists_last (l := times)) as (ts & t & ->).
  { intros ->. simpl in H. lia. }
  rewrite length_app in H. simpl in H.
  exists ts, t. unfold stamped.
  rewrite combine_app_same by lia. rewrite map_app. reflexivity.
Qed.

Lemma stamped_not_closing (evs : list Event) :
  forall times,
    nonTerminal evs = true ->
    forallb (fun e => negb (closes e)) (stamped times evs) = true.
Proof.
  induction evs as [|ev evs IH]; intros [|t times] H; simpl; auto.
  unfold nonTerminal in H. simpl in H. apply andb_true_iff in H.
  destruct H as [H1 H2]. rewrite H1. simpl. apply IH, H2.
Qed.

(** Messages that do not close the source change the progress line and
    the log, nothing else. *)
Lemma run_not_closing (evs : list SourceEvent) :
  forall st,
    forallb (fun e => negb (closes e)) evs = true ->
    sourceOpen st = true ->
    sourceOpen (run evs st) = true
    /\ isGenerating (run evs st) = isGenerating st
    /\ generationStatus (run evs st) = generationStatus st
    /\ driverCode (run evs st) = driverCode st
    /\ genStartTime (run evs st) = genStartTime st.
Proof.
  induction evs as [|ev evs IH]; intros st Hn Ho; [simpl; auto|].
  simpl in Hn. apply andb_true_iff in Hn. destruct Hn as [H1 H2].
  apply negb_true_iff in H1.
  unfold run. simpl fold_left. fold (run evs (deliver st ev)).
  destruct (IH (deliver st ev) H2) as (I1 & I2 & I3 & I4 & I5).
  { rewrite deliver_stays_open by exact H1. exact Ho. }
  rewrite I1, I2, I3, I4, I5. unfold deliver. rewrite Ho.
  destruct ev as [now [m|m e|ok c code f|m]|]; try discriminate H1;
    simpl; auto.
Qed.

Variable w : World.
Variable cfg : Config.

(** X11. From the button to the panel.  A request the client sends passes
    the server's validation and starts the tool with the project, file,
    function, model and iteration count of the client.  When the child
    prints, exits and closes with [code], and the artifact is a readable
    file, the client that receives the stream ends not generating, with
    status [success] exactly when [code] is 0, showing the text of the
    artifact, its source closed.  When the child cannot be started the
    client ends [failed] with the error message on its progress line. *)
Theorem client_shows_outcome (i : Inputs) (now : Z) (st0 st : State)
        (q : Query) :
  handleGenerate i now st0 = (st, Some q) ->
  validQuery q = true
  /\ generateArgs q
     = [ lit "gen"; selectedProject i; selectedFile i; selectedFunction i;
         lit "--model"; modelSetting i;
         lit "--max-iterations"; maxIterationsSetting i;
         lit "--output";
         lit "drivers/gui_" ++ selectedFunction i ++ lit ".c";
         lit "--with-logs"; lit "--context"; lit "function"; lit "-v" ]
  /\ (forall outs code rest text times,
        forallb beforeClose outs = true ->
        entry w (outputPathOf cfg q) = RegularFile text ->
        List.length times
        = List.length
            (written (generate w cfg q (outs ++ child_close code :: rest))) ->
        isGenerating
          (run (stamped times
                  (written (generate w cfg q (outs ++ child_close code :: rest))))
               st) = false
        /\ generationStatus
             (run (stamped times
                     (written (generate w cfg q (outs ++ child_close code :: rest))))
                  st) = match code with
                        | Some 0%Z => success
                        | _ => failed
                        end
        /\ driverCode
             (run (stamped times
                     (written (generate w cfg q (outs ++ child_close code :: rest))))
                  st) = text
        /\ sourceOpen
             (run (stamped times
                     (written (generate w cfg q (outs ++ child_close code :: rest))))
                  st) = false)
  /\ (forall message rest t1 t2,
        generationStatus
          (run (stamped [t1; t2]
                  (written (generate w cfg q
                              (child_error spawn_failed message :: rest))))
               st) = failed
        /\ progressMessage
             (run (stamped [t1; t2]
                     (written (generate w cfg q
                                 (child_error spawn_failed message :: rest))))
                  st) = lit "Error: " ++ message
        /\ isGenerating
             (run (stamped [t1; t2]
                     (written (generate w cfg q
                                 (child_error spawn_failed message :: rest))))
                  st) = false).
Proof.
  unfold handleGenerate.
  destruct (negb (JsString.truthy (selectedProject i))
            || negb (JsString.truthy (selectedFile i))
            || negb (JsString.truthy (selectedFunction i))) eqn:Hg;
    intros H; inversion H; subst; clear H.
  assert (Hv : validQuery (queryOf i) = true).
  { unfold validQuery, queryOf. simpl. rewrite Hg. reflexivity. }
  split; [exact Hv|]. split; [reflexivity|]. split.
  - intros outs code rest text times Ho Hf Hlen.
    rewrite (@run_to_close w cfg (queryOf i) outs code rest text Hv Ho) in *
      by (unfold exists_in, read_in; rewrite Hf; reflexivity).
    change (startingEvent (queryOf i)
            :: flat_map outputEvents outs
               ++ [complete (isZero code) code text (outputFileOf (queryOf i))])
      with ((startingEvent (queryOf i) :: flat_map outputEvents outs)
            ++ [complete (isZero code) code text (outputFileOf (queryOf i))])
      in *.
    destruct (stamped_snoc _ _ _ Hlen) as (ts & t & ->).
    unfold run. rewrite fold_left_app. simpl fold_left.
    match goal with
    | |- context [fold_left deliver ?l ?s0] =>
        destruct (run_not_closing l s0) as (I1 & I2 & I3 & I4 & I5);
          [ apply stamped_not_closing; simpl;
            apply outputEvents_nonTerminal
          | reflexivity
          | unfold run in I1, I2, I3, I4, I5;
            set (mid := fold_left deliver l s0) in * ]
    end.
    unfold deliver. rewrite I1.
    cbn [onmessage isGenerating generationStatus driverCode sourceOpen].
    rewrite I4.
    split; [reflexivity|].
    split; [destruct code as [[| |]|]; reflexivity|].
    split; [destruct text; reflexivity | reflexivity].
  - intros message rest t1 t2.
    assert (Hs : written (generate w cfg (queryOf i)
                            (child_error spawn_failed message :: rest))
                 = [startingEvent (queryOf i); error message]).
    { rewrite generate_valid by exact Hv. simpl fold_left.
      rewrite generateOpen_valid by exact Hv.
      match goal with
      | |- written (fold_left _ rest ?s0) = _ =>
          destruct (@run_after_end w cfg (outputFileOf (queryOf i)) rest s0)
            as (Hw & _); [reflexivity | rewrite Hw; reflexivity]
      end. }
    rewrite Hs. repeat split.
Qed.

End ClientProperties.

Lemma client_shows_outcome_witness :
  Client.generationStatus
    (Client.run
       (Client.stamped [10%Z; 20%Z; 30%Z; 40%Z]
          (written
             (generate artifactWorld sampleConfig
                (Client.queryOf Client.sampleInputs)
                ([ stdout_data (lit "Running TIS");
                   stdout_data (lit "make: nothing to be done") ]
                 ++ child_close (Some 0%Z) :: []))))
       (fst (Client.handleGenerate Client.sampleInputs 5%Z Client.idleState)))
  = Client.success
  /\ Client.generationStatus
       (Client.run
          (Client.stamped [10%Z; 20%Z; 30%Z]
             (written
                (generate artifactWorld sampleConfig
                   (Client.queryOf Client.sampleInputs)
                   ([ stdout_data (lit "Running TIS") ]
                    ++ child_close (Some 2%Z) :: []))))
          (fst (Client.handleGenerate Client.sampleInputs 5%Z
                  Client.idleState)))
     = Client.failed
  /\ Client.generationStatus
       (Client.run
          (Client.stamped [10%Z; 20%Z]
             (written
                (generate artifactWorld sampleConfig
                   (Client.queryOf Client.sampleInputs)
                   ([] ++ child_close None :: []))))
          (fst (Client.handleGenerate Client.sampleInputs 5%Z
                  Client.idleState)))
     = Client.failed.
Proof.
  pose proof (@client_shows_outcome artifactWorld sampleConfig
                Client.sampleInputs 5%Z Client.idleState
                (fst (Client.handleGenerate Client.sampleInputs 5%Z
                        Client.idleState))
                (Client.queryOf Client.sampleInputs) eq_refl)
    as (_ & _ & Hrun & _).
  split; [|split].
  - apply (Hrun [ stdout_data (lit "Running TIS");
                  stdout_data (lit "make: nothing to be done") ]
                (Some 0%Z) [] sampleDriver [10%Z; 20%Z; 30%Z; 40%Z]);
      reflexivity.
  - apply (Hrun [ stdout_data (lit "Running TIS") ]
                (Some 2%Z) [] sampleDriver [10%Z; 20%Z; 30%Z]);
      reflexivity.
  - apply (Hrun [] None [] sampleDriver [10%Z; 20%Z]); reflexivity.
Defined.

Lemma log_panel_window_witness :
  Client.logs
    (Client.run
       [ Client.source_message 1%Z (log (lit "a") false);
         Client.source_message 2%Z (complete true (Some 0%Z) [] []);
         Client.source_message 3%Z (log (lit "late") true) ]
       (fst (Client.handleGenerate Client.sampleInputs 5%Z Client.idleState)))
  = Client.sliceLast 101
      (Client.logEntries
         (Client.untilClose
            [ Client.source_message 1%Z (log (lit "a") false);
              Client.source_message 2%Z (complete true (Some 0%Z) [] []);
              Client.source_message 3%Z (log (lit "late") true) ])).
Proof.
  apply (proj1 (@log_panel_window Client.sampleInputs 5%Z Client.idleState
                  (fst (Client.handleGenerate Client.sampleInputs 5%Z
                          Client.idleState))
                  (Client.queryOf Client.sampleInputs)
                  [ Client.source_message 1%Z (log (lit "a") false);
                    Client.source_message 2%Z (complete true (Some 0%Z) [] []);
                    Client.source_message 3%Z (log (lit "late") true) ]
                  eq_refl)).
Defined.

Lemma first_closing_event_wins_witness :
  Client.run
    ([Client.source_message 1%Z (status (lit "x"))]
     ++ Client.source_error
        :: [Client.source_message 2%Z (complete true None [] [])])
    (fst (Client.handleGenerate Client.sampleInputs 5%Z Client.idleState))
  = Client.run
      ([Client.source_message 1%Z (status (lit "x"))] ++ [Client.source_error])
      (fst (Client.handleGenerate Client.sampleInputs 5%Z Client.idleState)).
Proof.
  apply (proj1 (@first_closing_event_wins
                  [Client.source_message 1%Z (status (lit "x"))]
                  [Client.source_message 2%Z (complete true None [] [])]
                  Client.source_error
                  (fst (Client.handleGenerate Client.sampleInputs 5%Z
                          Client.idleState))
                  eq_refl eq_refl eq_refl)).
Defined.

(* ===================================================================== *)
(** * The regular expressions *)
(* ===================================================================== *)

Section RegexFacts.

Import Regex.

Lemma eqb_eq (a b : jsstring) : JsString.eqb a b = true <-> a = b.
Proof.
  revert b. induction a as [|x a IH]; intros [|y b]; simpl;
    try (split; [discriminate | discriminate]); [tauto|].
  rewrite andb_true_iff, N.eqb_eq, IH. split.
  - intros [-> ->]. reflexivity.
  - intros H. inversion H. auto.
Qed.

(** What a greedy run that succeeds has taken. *)
Lemma greedy_sound {R} (cls : N -> bool)
      (k : nat -> option N -> jsstring -> option R) :
  forall rest count prev r,
    greedy cls k count prev rest = Some r ->
    exists n prev',
      n <= List.length rest
      /\ forallb cls (firstn n rest) = true
      /\ k (count + n) prev' (skipn n rest) = Some r.
Proof.
  induction rest as [|c rest IH]; intros count prev r H; simpl in H.
  - exists 0, prev. rewrite Nat.add_0_r. simpl. auto.
  - destruct (cls c) eqn:Ec.
    + destruct (greedy cls k (S count) (Some c) rest) as [r'|] eqn:Eg.
      * inversion H; subst r'.
        destruct (IH _ _ _ Eg) as (n & prev' & Hn & Hall & Hk).
        exists (S n), prev'. simpl. rewrite Ec, Hall, Nat.add_succ_r.
        repeat split; auto. lia.
      * exists 0, prev. rewrite Nat.add_0_r. simpl. repeat split; auto. lia.
    + exists 0, prev. rewrite Nat.add_0_r. simpl. repeat split; auto. lia.
Qed.

(** A success after a longer run is the success of the whole run. *)
Lemma greedy_deeper {R} (cls : N -> bool)
      (k : nat -> option N -> jsstring -> option R) :
  forall run count prev rest r,
    forallb cls run = true ->
    greedy cls k (count + List.length run) (prevAfter run prev) rest = Some r ->
    greedy cls k count prev (run ++ rest) = Some r.
Proof.
  induction run as [|c run IH]; intros count prev rest r Hall H.
  - simpl in H. rewrite Nat.add_0_r in H. exact H.
  - simpl in Hall. apply andb_true_iff in Hall. destruct Hall as [Hc Hall].
    simpl. rewrite Hc. rewrite (IH (S count) (Some c) rest r Hall); [reflexivity|].
    simpl in H. rewrite Nat.add_succ_r in H. exact H.
Qed.

(** A run stops where the class stops. *)
Lemma greedy_stop {R} (cls : N -> bool)
      (k : nat -> option N -> jsstring -> option R) count prev rest :
  match rest with [] => true | c :: _ => negb (cls c) end = true ->
  greedy cls k count prev rest = k count prev rest.
Proof.
  destruct rest as [|c rest]; simpl; [reflexivity|].
  intros H. apply negb_true_iff in H. rewrite H. reflexivity.
Qed.

(** Inversion of a match, atom by atom. *)
Lemma matchHere_Chr m c re o cp prev rest f :
  matchHere m (Chr c :: re) o cp prev rest = Some f ->
  exists rest', rest = c :: rest'
                /\ matchHere m re o cp (Some c) rest' = Some f.
Proof.
  simpl. destruct rest as [|x rest']; [discriminate|].
  destruct (N.eqb x c) eqn:E; [|discriminate].
  apply N.eqb_eq in E. subst x. eauto.
Qed.

Lemma matchHere_Rep m cls min re o cp prev rest f :
  matchHere m (Rep cls min :: re) o cp prev rest = Some f ->
  exists n prev',
    n <= List.length rest /\ min <= n
    /\ forallb cls (firstn n rest) = true
    /\ matchHere m re o cp prev' (skipn n rest) = Some f.
Proof.
  simpl. intros H. apply greedy_sound in H.
  destruct H as (n & prev' & Hn & Hall & Hk). simpl in Hk.
  destruct (Nat.leb min n) eqn:E; [|discriminate].
  apply Nat.leb_le in E. eauto 8.
Qed.

Lemma matchHere_Opt m c re o cp prev rest f :
  matchHere m (Opt c :: re) o cp prev rest = Some f ->
  (exists rest', rest = c :: rest'
                 /\ matchHere m re o cp (Some c) rest' = Some f)
  \/ matchHere m re o cp prev rest = Some f.
Proof.
  simpl. destruct rest as [|x rest']; [auto|].
  destruct (N.eqb x c) eqn:E; [|auto].
  apply N.eqb_eq in E. subst x.
  destruct (matchHere m re o cp (Some c) rest') eqn:E1; [|auto].
  intros H. inversion H; subst. eauto.
Qed.

(** A match takes at least the least length of its pattern. *)
Lemma matchHere_length m (re : list Atom) :
  forall o cp prev rest f,
    matchHere m re o cp prev rest = Some f ->
    List.length (remaining f) + minLength re <= List.length rest.
Proof.
  induction re as [|a re IH]; intros o cp prev rest f H.
  - simpl in H. inversion H; subst. simpl. lia.
  - destruct a as [c|cls min|c| | |g|g].
    + apply matchHere_Chr in H. destruct H as (rest' & -> & H).
      apply IH in H. simpl. lia.
    + apply matchHere_Rep in H.
      destruct H as (n & prev' & Hn & Hmin & _ & H).
      apply IH in H. rewrite length_skipn in H. simpl. lia.
    + apply matchHere_Opt in H.
      destruct H as [(rest' & -> & H) | H]; apply IH in H; simpl in *; lia.
    + simpl in H. destruct (atLineStart m prev); [|discriminate].
      apply IH in H. simpl. lia.
    + simpl in H. destruct (atLineEnd m rest); [|discriminate].
      apply IH in H. simpl. lia.
    + simpl in H. apply IH in H. simpl. lia.
    + simpl in H. destruct (assoc g o); [|discriminate].
      apply IH in H. simpl. lia.
Qed.

(** A match found by a search is a match at some position of the input,
    and leaves less than the input when the pattern takes something. *)
Lemma search_found m (re : list Atom) :
  forall s prev f,
    search m re prev s = Some f ->
    (exists prev' s', matchHere m re [] [] prev' s' = Some f)
    /\ List.length (remaining f) + minLength re <= List.length s.
Proof.
  induction s as [|c s IH]; intros prev f H; simpl in H.
  - destruct (matchHere m re [] [] prev []) eqn:E; [|discriminate].
    inversion H; subst. split; [eauto|]. eapply matchHere_length, E.
  - destruct (matchHere m re [] [] prev (c :: s)) eqn:E.
    + inversion H; subst. split; [eauto|]. eapply matchHere_length, E.
    + destruct (IH _ _ H) as [H1 H2]. split; [exact H1|]. simpl. lia.
Qed.

(** The bound on the number of matches is not reached: any fuel above
    the length of the input gives the same matches. *)
Lemma execAll_fuel m (re : list Atom) :
  0 < minLength re ->
  forall fuel1 fuel2 prev s,
    List.length s < fuel1 -> List.length s < fuel2 ->
    execAll fuel1 m re prev s = execAll fuel2 m re prev s.
Proof.
  intros Hmin. induction fuel1 as [|fuel1 IH]; intros fuel2 prev s H1 H2;
    [lia|].
  destruct fuel2 as [|fuel2]; [lia|]. simpl.
  destruct (search m re prev s) as [f|] eqn:E; [|reflexivity].
  apply search_found in E. destruct E as [_ E].
  f_equal. apply IH; lia.
Qed.

Lemma execAll_matches m (re : list Atom) (P : Found -> Prop) :
  (forall prev s f, matchHere m re [] [] prev s = Some f -> P f) ->
  forall fuel prev s f, In f (execAll fuel m re prev s) -> P f.
Proof.
  intros HP. induction fuel as [|fuel IH]; intros prev s f Hin; simpl in Hin;
    [contradiction|].
  destruct (search m re prev s) as [f0|] eqn:E; [|contradiction].
  destruct Hin as [-> | Hin].
  - apply search_found in E. destruct E as [(p & s' & E) _]. eapply HP, E.
  - eapply IH, Hin.
Qed.

(** A pattern that starts with [^] and has no [m] flag matches at the
    start of the input or nowhere. *)
Lemma matchOnce_anchored (re : list Atom) (s : jsstring) :
  matchOnce false (Bol :: re) s = matchHere false re [] [] None s.
Proof.
  unfold matchOnce.
  assert (H : forall t c, search false (Bol :: re) (Some c) t = None).
  { induction t as [|x t IH]; intros c; simpl; [reflexivity|]. apply IH. }
  destruct s as [|c s]; simpl.
  - destruct (matchHere false re [] [] None []); reflexivity.
  - destruct (matchHere false re [] [] None (c :: s)); [reflexivity|].
    apply H.
Qed.

Lemma matchHere_Bol m re o cp prev rest f :
  matchHere m (Bol :: re) o cp prev rest = Some f ->
  atLineStart m prev = true /\ matchHere m re o cp prev rest = Some f.
Proof. simpl. destruct (atLineStart m prev); [auto|discriminate]. Qed.

Lemma matchHere_Eol m re o cp prev rest f :
  matchHere m (Eol :: re) o cp prev rest = Some f ->
  atLineEnd m rest = true /\ matchHere m re o cp prev rest = Some f.
Proof. simpl. destruct (atLineEnd m rest); [auto|discriminate]. Qed.

Lemma matchHere_Open m g re o cp prev rest :
  matchHere m (Open g :: re) o cp prev rest
  = matchHere m re ((g, rest) :: o) cp prev rest.
Proof. reflexivity. Qed.

Lemma matchHere_Close m g re o cp prev rest f :
  matchHere m (Close g :: re) o cp prev rest = Some f ->
  exists start,
    assoc g o = Some start
    /\ matchHere m re o
         ((g, firstn (List.length start - List.length rest) start) :: cp)
         prev rest = Some f.
Proof. simpl. destruct (assoc g o); [eauto|discriminate]. Qed.

(** Atoms other than the end of a group leave the groups as they are. *)
Lemma matchHere_groups m (re : list Atom) :
  forallb (fun a => match a with Close _ => false | _ => true end) re = true ->
  forall o cp prev rest f,
    matchHere m re o cp prev rest = Some f -> groups f = cp.
Proof.
  induction re as [|a re IH]; intros Hre o cp prev rest f H.
  - simpl in H. inversion H. reflexivity.
  - simpl in Hre. apply andb_true_iff in Hre. destruct Hre as [Ha Hre].
    destruct a as [c|cls min|c| | |g|g]; try discriminate Ha.
    + apply matchHere_Chr in H. destruct H as (rest' & -> & H). eauto.
    + apply matchHere_Rep in H. destruct H as (n & p & _ & _ & _ & H). eauto.
    + apply matchHere_Opt in H. destruct H as [(rest' & -> & H) | H]; eauto.
    + apply matchHere_Bol in H. destruct H as [_ H]. eauto.
    + apply matchHere_Eol in H. destruct H as [_ H]. eauto.
    + rewrite matchHere_Open in H. eauto.
Qed.

Lemma firstn_taken {A} (n : nat) (l : list A) :
  n <= List.length l ->
  firstn (List.length l - List.length (skipn n l)) l = firstn n l.
Proof. intros H. rewrite length_skipn. f_equal. lia. Qed.

(** Group 1 of a match of the function pattern is a non-empty word. *)
Lemma functionRegex_group prev s f :
  matchHere true Functions.functionRegex [] [] prev s = Some f ->
  exists word,
    groups f = [(1, word)] /\ word <> [] /\ forallb isWord word = true.
Proof.
  unfold Functions.functionRegex. intros H.
  apply matchHere_Bol in H. destruct H as [_ H].
  apply matchHere_Rep in H. destruct H as (n1 & p1 & _ & _ & _ & H).
  apply matchHere_Rep in H. destruct H as (n2 & p2 & _ & _ & _ & H).
  rewrite matchHere_Open in H.
  apply matchHere_Rep in H. destruct H as (n3 & p3 & Hn3 & Hmin & Hall & H).
  apply matchHere_Close in H. destruct H as (start & Hs & H).
  simpl in Hs. inversion Hs; subst start. clear Hs.
  apply matchHere_groups in H; [|reflexivity].
  rewrite firstn_taken in H by exact Hn3.
  eexists. split; [exact H|]. split; [|exact Hall].
  intros E. apply (f_equal (@List.length N)) in E.
  rewrite length_firstn in E. simpl in E. lia.
Qed.

Lemma includes_In (l : list jsstring) (x : jsstring) :
  Functions.includes l x = true <-> In x l.
Proof.
  unfold Functions.includes. rewrite existsb_exists. split.
  - intros (y & Hy & E). apply eqb_eq in E. subst. exact Hy.
  - intros H. exists x. split; [exact H|]. apply eqb_eq. reflexivity.
Qed.

Lemma setOf_spec (l : list jsstring) :
  forall seen,
    NoDup seen ->
    NoDup (Functions.setOf seen l)
    /\ forall x, In x (Functions.setOf seen l) <-> In x seen \/ In x l.
Proof.
  induction l as [|y l IH]; intros seen Hnd; simpl.
  - split; [exact Hnd|]. intros x. tauto.
  - destruct (Functions.includes seen y) eqn:E.
    + apply includes_In in E. destruct (IH seen Hnd) as [H1 H2].
      split; [exact H1|]. intros x. rewrite H2.
      split; [tauto|]. intros [H | [-> | H]]; auto.
    + assert (Hy : ~ In y seen).
      { intros H. apply includes_In in H. congruence. }
      destruct (IH (seen ++ [y])) as [H1 H2].
      { apply NoDup_app; [exact Hnd | repeat constructor; intros [] |].
        intros x Hx [-> | []]. contradiction. }
      split; [exact H1|]. intros x. rewrite H2, in_app_iff. simpl. tauto.
Qed.

(** X12. The functions of the reply are distinct; they are exactly the
    names the loop collected; each is a non-empty word of letters, digits
    and underscores, and none is [if], [while], [for], [switch] or [else].
    The loop over the matches ends: each match takes at least one code
    unit, so no more than the length of the source are found. *)
Theorem functions_are_distinct_words (sourceCode : jsstring) :
  NoDup (Functions.extract sourceCode)
  /\ (forall f, In f (Functions.extract sourceCode)
                <-> In f (Functions.matched sourceCode))
  /\ (forall f, In f (Functions.extract sourceCode) ->
                f <> [] /\ forallb isWord f = true
                /\ ~ In f Functions.nonFunctions)
  /\ (forall fuel,
        List.length sourceCode < fuel ->
        execAll fuel true Functions.functionRegex None sourceCode
        = execAll (S (List.length sourceCode)) true Functions.functionRegex
                  None sourceCode).
Proof.
  destruct (setOf_spec (Functions.matched sourceCode) (NoDup_nil _))
    as [Hnd Hin].
  assert (Hsame : forall f, In f (Functions.extract sourceCode)
                            <-> In f (Functions.matched sourceCode)).
  { intros f. unfold Functions.extract. rewrite Hin. simpl. tauto. }
  split; [exact Hnd|]. split; [exact Hsame|]. split.
  - intros f Hf. apply Hsame in Hf. unfold Functions.matched in Hf.
    apply in_flat_map in Hf. destruct Hf as (m & Hm & Hf).
    apply (@execAll_matches true Functions.functionRegex
             (fun m => exists word,
                  groups m = [(1, word)] /\ word <> []
                  /\ forallb isWord word = true)
             (@functionRegex_group)) in Hm.
    destruct Hm as (word & Hg & Hne & Hw).
    unfold group in Hf. rewrite Hg in Hf.
    change (assoc 1 [(1, word)]) with (Some word) in Hf.
    cbn beta iota in Hf.
    destruct (Functions.includes Functions.nonFunctions word) eqn:E;
      cbn [negb In] in Hf; [contradiction|].
    destruct Hf as [<- | []]. repeat split; auto.
    intros Hin'. apply includes_In in Hin'. congruence.
  - intros fuel Hfuel. apply execAll_fuel; [|exact Hfuel|lia].
    unfold Functions.functionRegex. simpl. lia.
Qed.

(** Forward steps of a match. *)
Lemma matchHere_Rep_eq m cls min re o cp prev rest :
  matchHere m (Rep cls min :: re) o cp prev rest
  = greedy cls
      (fun count prev' rest' =>
         if Nat.leb min count then matchHere m re o cp prev' rest' else None)
      0 prev rest.
Proof. reflexivity. Qed.

Lemma matchHere_Chr_eq m c re o cp prev x rest :
  matchHere m (Chr c :: re) o cp prev (x :: rest)
  = if N.eqb x c then matchHere m re o cp (Some x) rest else None.
Proof. reflexivity. Qed.

Lemma matchHere_Close_eq m g re o cp prev rest start :
  assoc g o = Some start ->
  matchHere m (Close g :: re) o cp prev rest
  = matchHere m re o
      ((g, firstn (List.length start - List.length rest) start) :: cp)
      prev rest.
Proof. intros H. simpl. rewrite H. reflexivity. Qed.

(** A run that takes all of the class and is followed by what the rest of
    the pattern matches. *)
Lemma matchHere_Rep_max m cls min re o cp prev run rest f :
  forallb cls run = true ->
  min <= List.length run ->
  match rest with [] => true | c :: _ => negb (cls c) end = true ->
  matchHere m re o cp (prevAfter run prev) rest = Some f ->
  matchHere m (Rep cls min :: re) o cp prev (run ++ rest) = Some f.
Proof.
  intros Hall Hmin Hstop H. rewrite matchHere_Rep_eq.
  apply greedy_deeper; [exact Hall|].
  rewrite greedy_stop by exact Hstop. simpl.
  apply Nat.leb_le in Hmin. rewrite Hmin. exact H.
Qed.

(** A literal that is not white space does not match in white space. *)
Lemma matchHere_Chr_blank m c re o cp prev trail :
  JsString.isWhiteSpace c = false ->
  forallb JsString.isWhiteSpace trail = true ->
  matchHere m (Chr c :: re) o cp prev trail = None.
Proof.
  intros Hc Ht. destruct trail as [|x trail]; [reflexivity|].
  rewrite matchHere_Chr_eq. destruct (N.eqb x c) eqn:E; [|reflexivity].
  apply N.eqb_eq in E. subst x. simpl in Ht. rewrite Hc in Ht. discriminate Ht.
Qed.

Lemma blank_stops_ink (trail : jsstring) :
  forallb JsString.isWhiteSpace trail = true ->
  match trail with [] => true | c :: _ => negb (notWhiteSpace c) end = true.
Proof.
  destruct trail as [|c trail]; simpl; [reflexivity|].
  intros H. apply andb_true_iff in H. destruct H as [H _].
  unfold notWhiteSpace. rewrite H. reflexivity.
Qed.

Lemma firstn_app_exact {A} (a b : list A) :
  firstn (List.length (a ++ b) - List.length b) (a ++ b) = a.
Proof.
  rewrite length_app. replace (List.length a + List.length b - List.length b)
    with (List.length a + 0) by lia.
  rewrite firstn_app_2. simpl. apply app_nil_r.
Qed.

(** *** The lines of a file listing *)

Lemma files_line_sound (line : jsstring) (m : Found) :
  matchOnce false Files.lineRegex line = Some m ->
  exists base trail,
    line = lit "  " ++ base ++ lit ".c" ++ trail
    /\ base <> []
    /\ forallb notWhiteSpace base = true
    /\ forallb JsString.isWhiteSpace trail = true
    /\ groups m = [(1, base ++ lit ".c")].
Proof.
  unfold Files.lineRegex. rewrite matchOnce_anchored. intros H.
  apply matchHere_Chr in H. destruct H as (r1 & -> & H).
  apply matchHere_Chr in H. destruct H as (R & -> & H).
  rewrite matchHere_Open in H.
  apply matchHere_Rep in H. destruct H as (n & p & Hn & Hmin & Hall & H).
  apply matchHere_Chr in H. destruct H as (r2 & E2 & H).
  apply matchHere_Chr in H. destruct H as (r3 & -> & H).
  apply matchHere_Close in H. destruct H as (start & Hs & H).
  simpl in Hs. inversion Hs; subst start. clear Hs.
  apply matchHere_Rep in H. destruct H as (n2 & p2 & _ & _ & Hall2 & H).
  apply matchHere_Eol in H. destruct H as [Hend H].
  simpl in H. inversion H; subst m. clear H. simpl groups.
  assert (HR : R = firstn n R ++ [46; 99]%N ++ r3).
  { rewrite <- (firstn_skipn n R) at 1. rewrite E2. reflexivity. }
  assert (Ht : firstn n2 r3 = r3).
  { rewrite <- (firstn_skipn n2 r3) at 2.
    destruct (skipn n2 r3); [|discriminate Hend]. symmetry. apply app_nil_r. }
  exists (firstn n R), r3. repeat split.
  - rewrite HR at 1. reflexivity.
  - intros E. apply (f_equal (@List.length N)) in E.
    rewrite length_firstn in E. simpl in E. lia.
  - exact Hall.
  - rewrite <- Ht. exact Hall2.
  - f_equal. f_equal. rewrite HR at 1 2. rewrite app_assoc.
    rewrite firstn_app_exact. reflexivity.
Qed.

Lemma files_line_complete (base trail : jsstring) :
  base <> [] ->
  forallb notWhiteSpace base = true ->
  forallb JsString.isWhiteSpace trail = true ->
  exists m,
    matchOnce false Files.lineRegex (lit "  " ++ base ++ lit ".c" ++ trail)
    = Some m
    /\ groups m = [(1, base ++ lit ".c")].
Proof.
  intros Hne Hbase Htrail.
  unfold Files.lineRegex. rewrite matchOnce_anchored.
  change (lit "  " ++ base ++ lit ".c" ++ trail)
    with (32%N :: 32%N :: (base ++ 46%N :: 99%N :: trail)).
  rewrite !matchHere_Chr_eq. cbn [N.eqb Pos.eqb]. rewrite matchHere_Open.
  set (R := base ++ 46%N :: 99%N :: trail).
  rewrite matchHere_Rep_eq.
  match goal with
  | |- exists m, greedy ?cls ?k 0 ?prev R = Some m /\ _ =>
      set (K := k);
      assert (Hdeep : greedy cls K (0 + List.length base)
                        (prevAfter base prev) (46%N :: 99%N :: trail)
                      = K (0 + List.length base) (prevAfter base prev)
                          (46%N :: 99%N :: trail))
  end.
  { cbn [greedy]. change (notWhiteSpace 46) with true.
    change (notWhiteSpace 99) with true. cbv iota.
    rewrite greedy_stop by (apply blank_stops_ink, Htrail).
    assert (K2 : forall c p, K c p trail = None).
    { intros c p. unfold K. destruct (Nat.leb 1 c); [|reflexivity].
      apply matchHere_Chr_blank; [reflexivity | exact Htrail]. }
    assert (K1 : forall c p, K c p (99%N :: trail) = None).
    { intros c p. unfold K. destruct (Nat.leb 1 c); reflexivity. }
    rewrite K2, K1. reflexivity. }
  assert (Hk : K (0 + List.length base) (prevAfter base (Some 32%N))
                 (46%N :: 99%N :: trail)
               = Some {| groups := [(1, base ++ lit ".c")];
                         before := prevAfter trail (Some 99%N);
                         remaining := [] |}).
  { unfold K. destruct base as [|b base']; [contradiction|].
    cbn [List.length Nat.add Nat.leb].
    rewrite !matchHere_Chr_eq. cbn [N.eqb Pos.eqb].
    cbn [matchHere assoc Nat.eqb].
    change (greedy JsString.isWhiteSpace ?k 0 ?p trail)
      with (greedy JsString.isWhiteSpace k 0 p trail).
    rewrite <- (app_nil_r trail) at 1.
    erewrite greedy_deeper; [| exact Htrail | cbn [greedy Nat.leb atLineEnd]; reflexivity].
    assert (Hfirst : firstn (List.length R - List.length trail) R
                     = (b :: base') ++ lit ".c").
    { unfold R.
      change (46%N :: 99%N :: trail) with ([46%N; 99%N] ++ trail).
      rewrite app_assoc. apply firstn_app_exact. }
    rewrite Hfirst. reflexivity. }
  eexists. split.
  - apply greedy_deeper; [exact Hbase|]. rewrite Hdeep. exact Hk.
  - reflexivity.
Qed.

(** *** The lines of a project listing *)

Lemma nonempty_firstn {A} (n : nat) (l : list A) :
  1 <= n -> n <= List.length l -> firstn n l <> [].
Proof.
  intros H1 H2 E. apply (f_equal (@List.length A)) in E.
  rewrite length_firstn in E. simpl in E. lia.
Qed.

Lemma projects_line_sound (line : jsstring) (m : Found) :
  matchOnce false Projects.lineRegex line = Some m ->
  exists indent name gap digits gap2 plural tail,
    line = indent ++ name ++ gap ++ lit "(" ++ digits ++ gap2
           ++ lit "file" ++ plural ++ lit ")" ++ tail
    /\ (indent <> [] /\ forallb JsString.isWhiteSpace indent = true)
    /\ (name <> [] /\ forallb notWhiteSpace name = true)
    /\ (gap <> [] /\ forallb JsString.isWhiteSpace gap = true)
    /\ (digits <> [] /\ forallb JsString.isDigit digits = true)
    /\ (gap2 <> [] /\ forallb JsString.isWhiteSpace gap2 = true)
    /\ (plural = [] \/ plural = lit "s")
    /\ groups m = [(2, digits); (1, name)].
Proof.
  unfold Projects.lineRegex. rewrite matchOnce_anchored. intros H.
  apply matchHere_Rep in H. destruct H as (n1 & p1 & L1 & M1 & A1 & H).
  pose proof (firstn_skipn n1 line) as S1.
  set (R1 := skipn n1 line) in *.
  rewrite matchHere_Open in H.
  apply matchHere_Rep in H. destruct H as (n2 & p2 & L2 & M2 & A2 & H).
  pose proof (firstn_skipn n2 R1) as S2.
  apply matchHere_Close in H. destruct H as (start & Hs & H).
  simpl in Hs. inversion Hs; subst start. clear Hs.
  rewrite firstn_taken in H by exact L2.
  set (R2 := skipn n2 R1) in *.
  apply matchHere_Rep in H. destruct H as (n3 & p3 & L3 & M3 & A3 & H).
  pose proof (firstn_skipn n3 R2) as S3.
  apply matchHere_Chr in H. destruct H as (R3 & E3 & H).
  rewrite matchHere_Open in H.
  apply matchHere_Rep in H. destruct H as (n4 & p4 & L4 & M4 & A4 & H).
  pose proof (firstn_skipn n4 R3) as S4.
  apply matchHere_Close in H. destruct H as (start & Hs & H).
  simpl in Hs. inversion Hs; subst start. clear Hs.
  rewrite firstn_taken in H by exact L4.
  set (R4 := skipn n4 R3) in *.
  apply matchHere_Rep in H. destruct H as (n5 & p5 & L5 & M5 & A5 & H).
  pose proof (firstn_skipn n5 R4) as S5.
  apply matchHere_Chr in H. destruct H as (r6 & E6 & H).
  apply matchHere_Chr in H. destruct H as (r7 & -> & H).
  apply matchHere_Chr in H. destruct H as (r8 & -> & H).
  apply matchHere_Chr in H. destruct H as (r9 & -> & H).
  assert (Hshape : exists plural tail,
             (plural = [] \/ plural = lit "s")
             /\ r9 = plural ++ lit ")" ++ tail
             /\ groups m = [(2, firstn n4 R3); (1, firstn n2 R1)]).
  { apply matchHere_Opt in H. destruct H as [(r10 & -> & H) | H];
      apply matchHere_Chr in H; destruct H as (tail & -> & H);
      simpl in H; inversion H; subst m; simpl.
    - exists (lit "s"), tail. auto.
    - exists [], tail. auto. }
  destruct Hshape as (plural & tail & Hp & -> & Hg).
  exists (firstn n1 line), (firstn n2 R1), (firstn n3 R2), (firstn n4 R3),
         (firstn n5 R4), plural, tail.
  split; [|repeat split; auto using nonempty_firstn].
  rewrite <- S1 at 1. f_equal. rewrite <- S2 at 1. f_equal.
  rewrite <- S3 at 1. f_equal. rewrite E3. simpl. f_equal.
  rewrite <- S4 at 1. f_equal. rewrite <- S5 at 1. f_equal.
  rewrite E6. reflexivity.
Qed.

Lemma blank_not_digit (c : N) :
  JsString.isDigit c = true -> JsString.isWhiteSpace c = false.
Proof.
  unfold JsString.isDigit. intros H. apply andb_true_iff in H.
  destruct H as [H1 H2]. apply N.leb_le in H1, H2.
  assert (Hc : (c = 48 \/ c = 49 \/ c = 50 \/ c = 51 \/ c = 52 \/ c = 53
                \/ c = 54 \/ c = 55 \/ c = 56 \/ c = 57)%N) by lia.
  repeat (destruct Hc as [-> | Hc]; [reflexivity|]). subst. reflexivity.
Qed.

Lemma head_stop (cls : N -> bool) (c : N) (rest : jsstring) :
  cls c = false ->
  match c :: rest with [] => true | x :: _ => negb (cls x) end = true.
Proof. intros H. simpl. rewrite H. reflexivity. Qed.

Lemma projects_line_complete
      (indent name gap digits gap2 plural tail : jsstring) :
  indent <> [] -> forallb JsString.isWhiteSpace indent = true ->
  name <> [] -> forallb notWhiteSpace name = true ->
  gap <> [] -> forallb JsString.isWhiteSpace gap = true ->
  digits <> [] -> forallb JsString.isDigit digits = true ->
  gap2 <> [] -> forallb JsString.isWhiteSpace gap2 = true ->
  plural = [] \/ plural = lit "s" ->
  exists m,
    matchOnce false Projects.lineRegex
      (indent ++ name ++ gap ++ lit "(" ++ digits ++ gap2
       ++ lit "file" ++ plural ++ lit ")" ++ tail) = Some m
    /\ groups m = [(2, digits); (1, name)].
Proof.
  intros Hi Ai Hn An Hg Ag Hd Ad Hg2 Ag2 Hp.
  unfold Projects.lineRegex. rewrite matchOnce_anchored.
  assert (len1 : forall l : jsstring, l <> [] -> 1 <= List.length l).
  { intros [|x l] H; [contradiction | simpl; lia]. }
  destruct name as [|n0 name']; [contradiction|].
  destruct gap as [|g0 gap']; [contradiction|].
  destruct digits as [|d0 digits']; [contradiction|].
  destruct gap2 as [|h0 gap2']; [contradiction|].
  assert (Hn0 : JsString.isWhiteSpace n0 = false).
  { simpl in An. apply andb_true_iff in An. destruct An as [An _].
    unfold notWhiteSpace in An. apply negb_true_iff in An. exact An. }
  assert (Hg0 : notWhiteSpace g0 = false).
  { simpl in Ag. apply andb_true_iff in Ag. destruct Ag as [Ag _].
    unfold notWhiteSpace. rewrite Ag. reflexivity. }
  assert (Hh0 : JsString.isDigit h0 = false).
  { simpl in Ag2. apply andb_true_iff in Ag2. destruct Ag2 as [Ag2 _].
    destruct (JsString.isDigit h0) eqn:E; [|reflexivity].
    apply blank_not_digit in E. congruence. }
  assert (Hmain : forall P,
             P = [] \/ P = lit "s" ->
             exists m,
               matchHere false
                 [ Rep JsString.isWhiteSpace 1;
                   Open 1; Rep notWhiteSpace 1; Close 1;
                   Rep JsString.isWhiteSpace 1; Chr 40;
                   Open 2; Rep JsString.isDigit 1; Close 2;
                   Rep JsString.isWhiteSpace 1;
                   Chr 102; Chr 105; Chr 108; Chr 101; Opt 115; Chr 41 ]
                 [] [] None
                 (indent ++ (n0 :: name') ++ (g0 :: gap') ++ lit "("
                  ++ (d0 :: digits') ++ (h0 :: gap2') ++ lit "file"
                  ++ P ++ lit ")" ++ tail) = Some m
               /\ groups m = [(2, d0 :: digits'); (1, n0 :: name')]).
  { intros P HP.
    set (T5 := lit "file" ++ P ++ lit ")" ++ tail).
    set (T4 := (h0 :: gap2') ++ T5).
    set (T3 := (d0 :: digits') ++ T4).
    set (T2 := (g0 :: gap') ++ lit "(" ++ T3).
    set (T1 := (n0 :: name') ++ T2).
    assert (Hend : exists found,
               forall o cp prev,
                 matchHere false
                   [Chr 102; Chr 105; Chr 108; Chr 101; Opt 115; Chr 41]
                   o cp prev T5
                 = Some {| groups := cp; before := Some 41%N;
                           remaining := found |}).
    { exists tail. intros o cp prev. unfold T5.
      destruct HP as [-> | ->]; reflexivity. }
    destruct Hend as (found & Hend).
    exists {| groups :=
                [ (2, firstn (List.length T3 - List.length T4) T3);
                  (1, firstn (List.length T1 - List.length T2) T1) ];
              before := Some 41%N; remaining := found |}.
    split.
    - apply matchHere_Rep_max;
        [exact Ai | apply len1, Hi | simpl; rewrite Hn0; reflexivity |].
      rewrite matchHere_Open.
      apply matchHere_Rep_max;
        [exact An | simpl; lia | simpl; rewrite Hg0; reflexivity |].
      erewrite matchHere_Close_eq by reflexivity.
      apply matchHere_Rep_max; [exact Ag | simpl; lia | reflexivity |].
      change (lit "(" ++ T3) with (40%N :: T3).
      rewrite matchHere_Chr_eq. cbn [N.eqb Pos.eqb]. rewrite matchHere_Open.
      apply matchHere_Rep_max;
        [exact Ad | simpl; lia | simpl; rewrite Hh0; reflexivity |].
      erewrite matchHere_Close_eq by reflexivity.
      apply matchHere_Rep_max; [exact Ag2 | simpl; lia | reflexivity |].
      apply Hend.
    - cbn [groups]. unfold T3, T1.
      rewrite !firstn_app_exact. reflexivity. }
  exact (Hmain plural Hp).
Qed.

(** *** Lines and listings *)

Lemma split_single (sep : N) (p : jsstring) :
  ~ In sep p -> JsString.split sep p = [p].
Proof.
  induction p as [|c p IH]; intros H; [reflexivity|].
  simpl. destruct (N.eqb c sep) eqn:E.
  - apply N.eqb_eq in E. subst. exfalso. apply H. left. reflexivity.
  - rewrite IH; [reflexivity|]. intros Hin. apply H. right. exact Hin.
Qed.

Lemma split_join (lines : list jsstring) :
  Forall (fun l => ~ In JsString.LF l) lines ->
  lines <> [] ->
  JsString.split JsString.LF (JsString.join [JsString.LF] lines) = lines.
Proof.
  induction 1 as [|p lines Hp Hall IH]; intros Hne; [contradiction|].
  destruct lines as [|q lines].
  - simpl. apply split_single, Hp.
  - change (JsString.join [JsString.LF] (p :: q :: lines))
      with (p ++ JsString.LF :: JsString.join [JsString.LF] (q :: lines)).
    rewrite split_app, split_single by exact Hp.
    rewrite IH by discriminate. reflexivity.
Qed.

Lemma no_LF_ink (l : jsstring) :
  forallb notWhiteSpace l = true -> ~ In JsString.LF l.
Proof.
  intros H Hin. rewrite forallb_forall in H. apply H in Hin.
  discriminate Hin.
Qed.

Lemma no_LF_digits (l : jsstring) :
  forallb JsString.isDigit l = true -> ~ In JsString.LF l.
Proof.
  intros H Hin. rewrite forallb_forall in H. apply H in Hin.
  discriminate Hin.
Qed.

(** X13. The files of a listing are exactly the lines made of two
    spaces, a name without white space that ends in [.c] with something
    before it, and white space up to the end of the line; each is listed
    with that name as its name and as its path.  A command that throws is
    answered with status 500 and its error. *)
Theorem files_listed (w : World) (project : jsstring) :
  match sh w (lit "tisaidga list " ++ project ++ lit " -v") with
  | ExecThrows message => getFiles w project = reply_error 500 message
  | ExecOutput result =>
      exists files,
        getFiles w project = reply_files files
        /\ forall fi,
             In fi files <->
             exists base trail,
               In (lit "  " ++ base ++ lit ".c" ++ trail)
                  (JsString.split JsString.LF result)
               /\ base <> []
               /\ forallb notWhiteSpace base = true
               /\ forallb JsString.isWhiteSpace trail = true
               /\ fi = {| Files.name := base ++ lit ".c";
                          Files.path := base ++ lit ".c" |}
  end.
Proof.
  unfold getFiles.
  destruct (sh w (lit "tisaidga list " ++ project ++ lit " -v"))
    as [result|message]; [|reflexivity].
  exists (Files.parse result). split; [reflexivity|].
  intros fi. unfold Files.parse. rewrite in_flat_map. split.
  - intros (line & Hline & Hfi). unfold Files.ofLine in Hfi.
    destruct (matchOnce false Files.lineRegex line) as [m|] eqn:E;
      [|contradiction].
    apply files_line_sound in E.
    destruct E as (base & trail & -> & Hne & Hb & Ht & Hg).
    unfold group in Hfi. rewrite Hg in Hfi. simpl in Hfi.
    destruct Hfi as [<- | []]. exists base, trail. auto.
  - intros (base & trail & Hline & Hne & Hb & Ht & ->).
    exists (lit "  " ++ base ++ lit ".c" ++ trail). split; [exact Hline|].
    destruct (files_line_complete trail Hne Hb Ht) as (m & Hm & Hg).
    unfold Files.ofLine. rewrite Hm. unfold group. rewrite Hg. simpl. auto.
Qed.

Lemma files_of_good_line (base trail : jsstring) :
  base <> [] ->
  forallb notWhiteSpace base = true ->
  forallb JsString.isWhiteSpace trail = true ->
  Files.ofLine (lit "  " ++ (base ++ lit ".c") ++ trail)
  = [{| Files.name := base ++ lit ".c"; Files.path := base ++ lit ".c" |}].
Proof.
  intros Hne Hb Ht.
  destruct (files_line_complete trail Hne Hb Ht) as (m & Hm & Hg).
  unfold Files.ofLine. rewrite <- app_assoc. rewrite Hm.
  unfold group. rewrite Hg. reflexivity.
Qed.

(** X14. A listing printed as one line per file, two spaces and the name,
    with the same white space (a carriage return, say) or none at the end
    of each line, is read back as those files in that order. *)
Theorem files_round_trip (names : list jsstring) (trail : jsstring) :
  Forall (fun n => exists base,
              n = base ++ lit ".c" /\ base <> []
              /\ forallb notWhiteSpace base = true) names ->
  forallb JsString.isWhiteSpace trail = true ->
  ~ In JsString.LF trail ->
  Files.parse
    (JsString.join [JsString.LF]
       (map (fun n => lit "  " ++ n ++ trail) names))
  = map (fun n => {| Files.name := n; Files.path := n |}) names.
Proof.
  intros Hnames Ht Hlf.
  destruct names as [|n0 names0] eqn:En; [reflexivity|]. rewrite <- En in *.
  unfold Files.parse. rewrite split_join.
  - clear En. induction Hnames as [|n names (base & -> & Hne & Hb) _ IH];
      [reflexivity|].
    cbn [map flat_map]. rewrite IH.
    rewrite files_of_good_line by assumption. reflexivity.
  - clear En. induction Hnames as [|n names (base & -> & Hne & Hb) _ IH];
      constructor; [|exact IH].
    intros Hin. repeat (apply in_app_or in Hin; destruct Hin as [Hin|Hin]).
    + simpl in Hin. unfold JsString.LF in Hin.
      destruct Hin as [Hin|[Hin|[]]]; discriminate Hin.
    + eapply no_LF_ink; eassumption.
    + simpl in Hin. unfold JsString.LF in Hin.
      destruct Hin as [Hin|[Hin|[]]]; discriminate Hin.
    + contradiction.
  - rewrite En. discriminate.
Qed.

(** Up to [2^53] the Number value for an integer is the integer. *)
Lemma toDouble_exact (n : N) :
  (n <= 2 ^ 53)%N -> toDouble n = finite n.
Proof.
  intros H. unfold toDouble.
  destruct (N.ltb_spec n (2 ^ 53)) as [_|Hge]; [reflexivity|].
  assert (n = 2 ^ 53)%N as -> by lia.
  vm_compute. reflexivity.
Qed.

(** X15. The projects of a listing are exactly the lines that start
    with white space, a name without white space, white space, an opening
    parenthesis, decimal digits, white space, [file] or [files] and a
    closing parenthesis; each is listed with that name, an empty
    [remoteDir], and as [fileCount] the Number [parseInt] gives for the
    digits: the double nearest to the integer they write, which is that
    integer itself up to [2^53].  A command that throws is answered with
    status 500 and its error. *)
Theorem projects_listed (w : World) :
  match sh w (lit "tisaidga list") with
  | ExecThrows message => getProjects w = reply_error 500 message
  | ExecOutput result =>
      exists projects,
        getProjects w = reply_projects projects
        /\ forall p,
             In p projects <->
             exists indent name gap digits gap2 plural tail,
               In (indent ++ name ++ gap ++ lit "(" ++ digits ++ gap2
                   ++ lit "file" ++ plural ++ lit ")" ++ tail)
                  (JsString.split JsString.LF result)
               /\ (indent <> []
                   /\ forallb JsString.isWhiteSpace indent = true)
               /\ (name <> [] /\ forallb notWhiteSpace name = true)
               /\ (gap <> [] /\ forallb JsString.isWhiteSpace gap = true)
               /\ (digits <> [] /\ forallb JsString.isDigit digits = true)
               /\ (gap2 <> [] /\ forallb JsString.isWhiteSpace gap2 = true)
               /\ (plural = [] \/ plural = lit "s")
               /\ p = {| Projects.name := name;
                         Projects.fileCount := parseInt digits;
                         Projects.remoteDir := [] |}
               /\ (decimalValue digits <= 2 ^ 53 ->
                   Projects.fileCount p = finite (decimalValue digits))%N
  end.
Proof.
  unfold getProjects.
  destruct (sh w (lit "tisaidga list")) as [result|message]; [|reflexivity].
  exists (Projects.parse result). split; [reflexivity|].
  intros p. unfold Projects.parse. rewrite in_flat_map. split.
  - intros (line & Hline & Hp). unfold Projects.ofLine in Hp.
    destruct (matchOnce false Projects.lineRegex line) as [m|] eqn:E;
      [|contradiction].
    apply projects_line_sound in E.
    destruct E as (indent & name & gap & digits & gap2 & plural & tail
                   & -> & Hi & Hn & Hg & Hd & Hg2 & Hpl & Hgr).
    unfold group in Hp. rewrite Hgr in Hp. simpl in Hp.
    destruct Hp as [<- | []].
    exists indent, name, gap, digits, gap2, plural, tail.
    repeat (split; [assumption || (split; assumption) || reflexivity|]).
    intros Hle. apply toDouble_exact, Hle.
  - intros (indent & name & gap & digits & gap2 & plural & tail
            & Hline & [Hi Ai] & [Hn An] & [Hg Ag] & [Hd Ad] & [Hg2 Ag2]
            & Hpl & -> & _).
    eexists. split; [exact Hline|].
    destruct (projects_line_complete tail Hi Ai Hn An Hg Ag Hd Ad Hg2 Ag2 Hpl)
      as (m & Hm & Hgr).
    unfold Projects.ofLine. rewrite Hm. unfold group. rewrite Hgr.
    simpl. auto.
Qed.

(** A line that does not start with white space names no project. *)
Lemma projects_header (line : jsstring) :
  match line with [] => true | c :: _ => negb (JsString.isWhiteSpace c) end
  = true ->
  Projects.ofLine line = [].
Proof.
  intros H. unfold Projects.ofLine.
  destruct (matchOnce false Projects.lineRegex line) as [m|] eqn:E;
    [|reflexivity].
  apply projects_line_sound in E.
  destruct E as (indent & name & gap & digits & gap2 & plural & tail
                 & -> & [Hi Ai] & _).
  destruct indent as [|c indent]; [contradiction|].
  simpl in *. apply andb_true_iff in Ai. destruct Ai as [Ai _].
  rewrite Ai in H. discriminate H.
Qed.

Lemma projects_of_good_line (name digits : jsstring) :
  name <> [] -> forallb notWhiteSpace name = true ->
  digits <> [] -> forallb JsString.isDigit digits = true ->
  Projects.ofLine (lit "  " ++ name ++ lit " (" ++ digits ++ lit " files)")
  = [{| Projects.name := name;
        Projects.fileCount := parseInt digits;
        Projects.remoteDir := [] |}].
Proof.
  intros Hn An Hd Ad.
  destruct (@projects_line_complete (lit "  ") name (lit " ") digits (lit " ")
              (lit "s") [])
    as (m & Hm & Hg); auto; try discriminate.
  unfold Projects.ofLine.
  change (lit "  " ++ name ++ lit " (" ++ digits ++ lit " files)")
    with (lit "  " ++ name ++ lit " " ++ lit "(" ++ digits ++ lit " "
          ++ lit "file" ++ lit "s" ++ lit ")" ++ []).
  rewrite Hm. unfold group. rewrite Hg. reflexivity.
Qed.

(** X16. A listing printed as a header that does not start with white
    space and then one line [  <name> (<digits> files)] per project is read
    back as those projects in that order, each with the Number [parseInt]
    gives for its digits; when no count is above [2^53] the counts read
    back are the integers the digits write. *)
Theorem projects_round_trip (header : jsstring)
        (entries : list (jsstring * jsstring)) :
  match header with [] => true | c :: _ => negb (JsString.isWhiteSpace c) end
  = true ->
  ~ In JsString.LF header ->
  Forall (fun e => (fst e <> [] /\ forallb notWhiteSpace (fst e) = true)
                   /\ (snd e <> []
                       /\ forallb JsString.isDigit (snd e) = true))
         entries ->
  Projects.parse
    (JsString.join [JsString.LF]
       (header
        :: map (fun e => lit "  " ++ fst e ++ lit " (" ++ snd e
                         ++ lit " files)") entries))
  = map (fun e => {| Projects.name := fst e;
                     Projects.fileCount := parseInt (snd e);
                     Projects.remoteDir := [] |}) entries
  /\ (Forall (fun e => decimalValue (snd e) <= 2 ^ 53)%N entries ->
      map Projects.fileCount
        (Projects.parse
           (JsString.join [JsString.LF]
              (header
               :: map (fun e => lit "  " ++ fst e ++ lit " (" ++ snd e
                                ++ lit " files)") entries)))
      = map (fun e => finite (decimalValue (snd e))) entries).
Proof.
  intros Hh Hlf Hall.
  assert (Hparse :
    Projects.parse
      (JsString.join [JsString.LF]
         (header
          :: map (fun e => lit "  " ++ fst e ++ lit " (" ++ snd e
                           ++ lit " files)") entries))
    = map (fun e => {| Projects.name := fst e;
                       Projects.fileCount := parseInt (snd e);
                       Projects.remoteDir := [] |}) entries);
    [|split; [exact Hparse|];
      intros Hsmall; rewrite Hparse, map_map; cbn [Projects.fileCount];
      clear - Hsmall; induction Hsmall as [|e entries He _ IH];
        [reflexivity|];
      cbn [map]; rewrite IH; unfold parseInt;
      rewrite (toDouble_exact He); reflexivity].
  unfold Projects.parse.
  rewrite split_join; [| |discriminate].
  - cbn [flat_map]. rewrite projects_header by exact Hh. rewrite app_nil_l.
    induction Hall as [|[n d] entries [[Hn An] [Hd Ad]] _ IH];
      [reflexivity|].
    cbn [map flat_map fst snd]. rewrite IH.
    rewrite projects_of_good_line by assumption. reflexivity.
  - constructor; [exact Hlf|].
    induction Hall as [|[n d] entries [[Hn An] [Hd Ad]] _ IH];
      constructor; [|exact IH].
    cbn [fst snd]. intros Hin.
    repeat (apply in_app_or in Hin; destruct Hin as [Hin|Hin]).
    + simpl in Hin. unfold JsString.LF in Hin.
      destruct Hin as [Hin|[Hin|[]]]; discriminate Hin.
    + eapply no_LF_ink; eassumption.
    + simpl in Hin. unfold JsString.LF in Hin.
      destruct Hin as [Hin|[Hin|[]]]; discriminate Hin.
    + eapply no_LF_digits; eassumption.
    + simpl in Hin. unfold JsString.LF in Hin.
      repeat (destruct Hin as [Hin|Hin]; [discriminate Hin|]).
      contradiction.
Qed.

End RegexFacts.

Lemma files_round_trip_witness :
  Files.parse
    (JsString.join [JsString.LF]
       (map (fun n => lit "  " ++ n ++ [13%N])
            [lit "json_object.c"; lit "arraylist.c"]))
  = map (fun n => {| Files.name := n; Files.path := n |})
        [lit "json_object.c"; lit "arraylist.c"].
Proof.
  apply files_round_trip.
  - constructor; [exists (lit "json_object"); repeat split; discriminate|].
    constructor; [exists (lit "arraylist"); repeat split; discriminate|].
    constructor.
  - reflexivity.
  - simpl. unfold JsString.LF. intros [H|[]]. discriminate H.
Defined.

Lemma projects_round_trip_witness :
  Projects.parse
    (JsString.join [JsString.LF]
       (lit "Projects:"
        :: map (fun e => lit "  " ++ fst e ++ lit " (" ++ snd e
                         ++ lit " files)")
               [ (lit "json-c", lit "12");
                 (lit "zlib", lit "9007199254740993") ]))
  = [ {| Projects.name := lit "json-c";
         Projects.fileCount := finite 12;
         Projects.remoteDir := [] |};
      {| Projects.name := lit "zlib";
         Projects.fileCount := finite 9007199254740992;
         Projects.remoteDir := [] |} ]
  /\ map Projects.fileCount
       (Projects.parse
          (JsString.join [JsString.LF]
             (lit "Projects:"
              :: map (fun e => lit "  " ++ fst e ++ lit " (" ++ snd e
                               ++ lit " files)")
                     [(lit "json-c", lit "12"); (lit "zlib", lit "007")])))
     = [finite 12; finite 7].
Proof.
  split.
  - apply (proj1 (@projects_round_trip (lit "Projects:")
                    [ (lit "json-c", lit "12");
                      (lit "zlib", lit "9007199254740993") ]
                    eq_refl
                    ltac:(simpl; unfold JsString.LF; intros H;
                          repeat (destruct H as [H|H]; [discriminate H|]);
                          contradiction)
                    ltac:(repeat constructor; discriminate))).
  - apply (proj2 (@projects_round_trip (lit "Projects:")
                    [(lit "json-c", lit "12"); (lit "zlib", lit "007")]
                    eq_refl
                    ltac:(simpl; unfold JsString.LF; intros H;
                          repeat (destruct H as [H|H]; [discriminate H|]);
                          contradiction)
                    ltac:(repeat constructor; discriminate))).
    repeat constructor; vm_compute; discriminate.
Defined.

(** The numbers of the two projects above, and a count a double cannot
    hold: [2^53 + 1] is read as [2^53], and 400 digits as [Infinity]. *)
Example parseInt_examples :
  parseInt (lit "12") = finite 12
  /\ parseInt (lit "007") = finite 7
  /\ parseInt (lit "9007199254740993") = finite 9007199254740992
  /\ parseInt (lit "9007199254740995") = finite 9007199254740996
  /\ parseInt (repeat 57%N 400) = infinity.
Proof. repeat split; vm_compute; reflexivity. Qed.

(* ===================================================================== *)
(** * The functions endpoint *)
(* ===================================================================== *)

Section FunctionsEndpointFacts.

Variable recordPath : jsstring -> Outcome jsstring.
Variable readError : jsstring -> jsstring.
Variable cfg : Config.

(** X17. The functions endpoint answers with a list of functions only
    when the record of the file exists and can be read, its [path] was
    parsed, the resolver found a source for it, and that source can be
    read; the list is then the extraction from that source, and the
    resolver found what it finds on its own for that path.  Without a
    record the answer is 404. *)
Theorem functions_reply (project fname : jsstring) (w : World) :
  (forall functions,
      getFunctions recordPath readError cfg project fname w
      = reply_functions functions ->
      exists record remotePath sourcePath sourceCode,
        read_in w
          (Path.join
             [ Path.join [PROJECT_ROOT cfg; lit ".tisaidga"; lit "projects";
                          project];
               lit "files"; fname ++ lit ".json" ]) = Some record
        /\ recordPath record = Ret remotePath
        /\ fst (run_resolver (resolveSourcePath cfg remotePath fname) w)
           = Ret (Some sourcePath)
        /\ read_in w sourcePath = Some sourceCode
        /\ functions = Functions.extract sourceCode)
  /\ (exists_in w
        (Path.join
           [ Path.join [PROJECT_ROOT cfg; lit ".tisaidga"; lit "projects";
                        project];
             lit "files"; fname ++ lit ".json" ]) = false ->
      getFunctions recordPath readError cfg project fname w
      = reply_error 404 (lit "File not found in project")).
Proof.
  unfold getFunctions, getFunctionsBody, run_resolver.
  set (infoPath := Path.join
                     [ Path.join [PROJECT_ROOT cfg; lit ".tisaidga";
                                  lit "projects"; project];
                       lit "files"; fname ++ lit ".json" ]).
  split.
  - intros functions.
    unfold bind at 1. unfold existsSync at 1. cbn [world fst snd].
    destruct (exists_in w infoPath) eqn:Ei; [|discriminate].
    cbn [negb]. unfold bind at 1. unfold readFileSync at 1.
    cbn [record_probe world].
    destruct (read_in w infoPath) as [record|] eqn:Er; [|discriminate].
    unfold bind at 1. destruct (recordPath record) as [remotePath|e] eqn:Ep;
      [|discriminate].
    unfold bind at 1.
    destruct (readsOnly_resolve cfg remotePath fname w) as (o & l & Hres).
    change (record_probe (probe_exists infoPath) {| world := w; probes := [] |})
      with {| world := w; probes := [probe_exists infoPath] |}.
    rewrite (Hres [probe_exists infoPath]).
    destruct o as [[[|c p]|]|e]; try discriminate.
    unfold bind, readFileSync, ret. cbn [world fst].
    destruct (read_in w (c :: p)) as [sourceCode|] eqn:Es; [|discriminate].
    cbn [fst]. intros H. inversion H; subst.
    exists record, remotePath, (c :: p), sourceCode.
    rewrite (Hres []). auto.
  - intros Hno. unfold bind, existsSync. cbn [world fst]. rewrite Hno.
    reflexivity.
Qed.

End FunctionsEndpointFacts.

(* ===================================================================== *)
(** * Commands whose fields are plain words *)
(* ===================================================================== *)

Lemma isPlain_not_blank (c : N) : isPlain c = true -> isBlank c = false.
Proof.
  unfold isBlank. intros H.
  destruct (N.eqb_spec c 32) as [->|_]; [vm_compute in H; discriminate|].
  destruct (N.eqb_spec c 9) as [->|_]; [vm_compute in H; discriminate|].
  reflexivity.
Qed.

(** A run of plain characters is read into the current field. *)
Lemma fields_token (t : jsstring) :
  forall cur rest,
    forallb isPlain t = true ->
    fields cur (t ++ rest) = fields (rev t ++ cur) rest.
Proof.
  induction t as [|c t IH]; intros cur rest H; [reflexivity|].
  simpl in H. apply andb_true_iff in H as [Hc Ht].
  simpl. rewrite (isPlain_not_blank c Hc), (IH _ _ Ht), <- app_assoc.
  reflexivity.
Qed.

(** Joining plain, non-empty words with spaces and splitting the command
    into fields gives the words back. *)
Lemma fields_join (tokens : list jsstring) :
  Forall (fun t => t <> [] /\ forallb isPlain t = true) tokens ->
  fields [] (JsString.join (lit " ") tokens) = tokens.
Proof.
  induction 1 as [|p rest [Hne Hp] Hrest IH]; [reflexivity|].
  destruct rest as [|q rest].
  - simpl. rewrite <- (app_nil_r p) at 1. rewrite (fields_token p [] [] Hp).
    rewrite app_nil_r. simpl.
    destruct (rev p) as [|c r] eqn:Er.
    + apply (f_equal (@rev N)) in Er. rewrite rev_involutive in Er.
      contradiction.
    + rewrite <- Er, rev_involutive. reflexivity.
  - change (JsString.join (lit " ") (p :: q :: rest))
      with (p ++ 32%N :: JsString.join (lit " ") (q :: rest)).
    rewrite (fields_token p [] _ Hp), app_nil_r.
    cbn [fields]. change (isBlank 32) with true. cbn iota.
    destruct (rev p) as [|c r] eqn:Er.
    + apply (f_equal (@rev N)) in Er. rewrite rev_involutive in Er.
      contradiction.
    + rewrite <- Er, rev_involutive, IH. reflexivity.
Qed.

(** Such a command has no character the shell interprets. *)
Lemma join_plain (tokens : list jsstring) :
  Forall (fun t => t <> [] /\ forallb isPlain t = true) tokens ->
  forallb (fun c => isPlain c || isBlank c) (JsString.join (lit " ") tokens)
  = true.
Proof.
  assert (Hw : forall t, forallb isPlain t = true ->
                         forallb (fun c => isPlain c || isBlank c) t = true).
  { intros t Ht. rewrite forallb_forall in *. intros c Hc.
    rewrite (Ht c Hc). reflexivity. }
  induction 1 as [|p rest [Hne Hp] Hrest IH]; [reflexivity|].
  destruct rest as [|q rest].
  - simpl. auto.
  - change (JsString.join (lit " ") (p :: q :: rest))
      with (p ++ 32%N :: JsString.join (lit " ") (q :: rest)).
    rewrite forallb_app, (Hw p Hp). cbn [forallb andb].
    rewrite IH. reflexivity.
Qed.

Lemma argvOf_plain_tokens (tokens : list jsstring) :
  Forall (fun t => t <> [] /\ forallb isPlain t = true) tokens ->
  argvOf (via_shell (JsString.join (lit " ") tokens)) = Some tokens.
Proof.
  intros H. unfold argvOf. rewrite (join_plain H), (fields_join H).
  reflexivity.
Qed.

(** X18. When the fields of a request are non-empty words of plain
    characters (letters, digits and [% + , - . / : = @ _]), the shell
    commands of [/api/init] and of the file listing start the tool with
    exactly the tokens the handler meant: [tisaidga] followed by [args],
    and [tisaidga list <project> -v]. *)
Theorem plain_fields_are_tokens
        (compilationDbPath : jsstring) (projectName : option jsstring)
        (project : jsstring) :
  compilationDbPath <> [] ->
  forallb isPlain compilationDbPath = true ->
  (forall n, projectName = Some n -> forallb isPlain n = true) ->
  project <> [] ->
  forallb isPlain project = true ->
  argvOf (initInvocation compilationDbPath projectName)
  = Some (lit "tisaidga" :: initArgs compilationDbPath projectName)
  /\ argvOf (listFilesInvocation project)
     = Some [lit "tisaidga"; lit "list"; project; lit "-v"].
Proof.
  intros Hne Hp Hn Hqne Hq.
  split.
  - unfold initInvocation.
    change (lit "tisaidga "
            ++ JsString.join (lit " ") (initArgs compilationDbPath projectName))
      with (JsString.join (lit " ")
              (lit "tisaidga" :: initArgs compilationDbPath projectName)).
    apply argvOf_plain_tokens. unfold initArgs.
    constructor; [split; [discriminate|reflexivity]|].
    constructor; [split; [discriminate|reflexivity]|].
    constructor; [split; assumption|].
    destruct projectName as [n|]; cbn [truthyParam asString].
    + destruct n as [|c n]; cbn [JsString.truthy app].
      * constructor; [split; [discriminate|reflexivity]|constructor].
      * constructor; [split; [discriminate|reflexivity]|].
        constructor; [split; [discriminate|apply Hn; reflexivity]|].
        constructor; [split; [discriminate|reflexivity]|constructor].
    + cbn [app].
      constructor; [split; [discriminate|reflexivity]|constructor].
  - unfold listFilesInvocation.
    change (lit "tisaidga list " ++ project ++ lit " -v")
      with (JsString.join (lit " ")
              [lit "tisaidga"; lit "list"; project; lit "-v"]).
    apply argvOf_plain_tokens.
    constructor; [split; [discriminate|reflexivity]|].
    constructor; [split; [discriminate|reflexivity]|].
    constructor; [split; assumption|].
    constructor; [split; [discriminate|reflexivity]|constructor].
Qed.

Lemma plain_fields_are_tokens_witness :
  argvOf (initInvocation (lit "build/compile_commands.json")
                         (Some (lit "json-c")))
  = Some (lit "tisaidga"
          :: initArgs (lit "build/compile_commands.json")
                      (Some (lit "json-c")))
  /\ argvOf (listFilesInvocation (lit "json-c"))
     = Some [lit "tisaidga"; lit "list"; lit "json-c"; lit "-v"].
Proof.
  apply (@plain_fields_are_tokens (lit "build/compile_commands.json")
                                  (Some (lit "json-c")) (lit "json-c")).
  - discriminate.
  - reflexivity.
  - intros n H. inversion H. reflexivity.
  - discriminate.
  - reflexivity.
Defined.

(* ===================================================================== *)
(** * The files, the paths and the [find] command *)
(* ===================================================================== *)

Section FindOnFiles.

Import Fs.








Lemma namesOf_valid (p : jsstring) (names : list jsstring) :
  namesOf p = Some names ->
  names <> [] /\ forallb validName names = true.
Proof.
  unfold namesOf.
  destruct (JsString.split Path.SLASH p) as [|[|c x] [|n ns]];
    try discriminate.
  destruct (forallb validName (n :: ns)) eqn:E; [|discriminate].
  intros H. inversion H; subst. split; [discriminate | exact E].
Qed.










End FindOnFiles.

(* ===================================================================== *)
(** * The resolver on a filesystem of files *)
(* ===================================================================== *)

Section ResolverOnFiles.

Import Fs.

Variable cfg : Config.





Ltac reads :=
  repeat (first
    [ apply readsOnly_bind
    | apply readsOnly_try_catch
    | apply readsOnly_ret
    | apply readsOnly_existsSync
    | apply readsOnly_execSync
    | apply readsOnly_firstExisting
    | match goal with
      | |- forall _, _ => intro
      | |- readsOnly (if ?b then _ else _) => destruct b
      | |- readsOnly (match ?x with Some _ => _ | None => _ end) => destruct x
      end ]).







End ResolverOnFiles.


(** The search of the witness: the file six levels down is passed over,
    the one three levels down is returned, and the one met later is not
    looked at. *)
Example resolve_by_search :
  run_resolver
    (resolveSourcePath sampleConfig (lit "/home/dev/work/demo/parser.c")
                       (lit "parser.c"))
    (sampleFilesWorld (lit "sh: not found"))
  = (Ret (Some (lit "/srv/tis-aidga/lib/json/parser.c")),
     {| world := sampleFilesWorld (lit "sh: not found");
        probes := [ probe_exists (lit "/home/dev/work/demo/parser.c");
                    probe_exists (lit "/Users/me/work/demo/parser.c");
                    probe_exists (lit "/srv/tis-aidga/parser.c");
                    probe_exists (lit "/srv/tis-aidga/src/parser.c");
                    probe_exec (findCommand sampleConfig (lit "parser.c"));
                    probe_exists (lit "/srv/tis-aidga/lib/json/parser.c") ] |}).
Proof. vm_compute. reflexivity. Qed.

(** A file that lies only deeper than five levels is not found. *)
Example resolve_too_deep :
  fst (run_resolver
         (resolveSourcePath sampleConfig (lit "/home/dev/work/demo/parser.c")
                            (lit "parser.c"))
         (Fs.asWorld (firstn 1 sampleFiles) (fun _ => NoEntry)
                     (fun _ => ExecThrows (lit "sh: not found"))))
  = Ret None.
Proof. vm_compute. reflexivity. Qed.

(** The same files met in another order: the search returns another
    file.  Which of two files of one name is found is decided by the order
    of the traversal alone. *)
Example traversal_order_decides :
  fst (run_resolver
         (resolveSourcePath sampleConfig (lit "/home/dev/work/demo/parser.c")
                            (lit "parser.c"))
         (Fs.asWorld (rev sampleFiles) (fun _ => NoEntry)
                     (fun _ => ExecThrows (lit "sh: not found"))))
  = Ret (Some (lit "/srv/tis-aidga/tests/parser.c")).
Proof. vm_compute. reflexivity. Qed.


(** A file name the shell expands is outside the theorem: the command is
    not the [find] of the model, and the result is what the shell of the
    moment prints. *)
Example expanded_name_consults_shell :
  Fs.plainName (lit "$(cat /tmp/n).c") = false
  /\ Fs.parseFind (findCommand sampleConfig (lit "$(cat /tmp/n).c")) = None
  /\ fst (run_resolver
            (resolveSourcePath sampleConfig (lit "/nowhere/x.c")
                               (lit "$(cat /tmp/n).c"))
            (Fs.asWorld sampleFiles (fun _ => NoEntry)
                        (fun _ => ExecOutput (lit "/home/ci/parser.c"))))
     = Ret (Some (lit "/home/ci/parser.c"))
  /\ fst (run_resolver
            (resolveSourcePath sampleConfig (lit "/nowhere/x.c")
                               (lit "$(cat /tmp/n).c"))
            (Fs.asWorld sampleFiles (fun _ => NoEntry)
                        (fun _ => ExecOutput [])))
     = Ret None.
Proof. repeat split; vm_compute; reflexivity. Qed.
